(** * polybeeTask: the GeoTIFF viewer's loaders, styling rules and views

    A shallow embedding of the React application of this repository:
    the root view [App], the header [Navbar] and the [Map] component with its
    two asynchronous loaders, [loadGeoTIFF] and [loadStressData].

    - JavaScript numbers are IEEE 754 binary64 values: Rocq's primitive
      [float], with [Math.min], [Math.max], [*], [<=] and [===] on them.
    - A string built by a template literal keeps the numbers it interpolates
      unformatted ([Template]); the decimal rendering of a double is not
      modelled.
    - The loaders run in a state-and-exception monad over [World]: the three
      refs of [Map], the two pieces of React state, Leaflet's stamp counter
      and the trace of observable events.  Every [await] takes its outcome
      from an [Environment]; a run is one sequential pass with the outcomes
      the environment fixes.
    - Leaflet, georaster and georaster-layer-for-leaflet are collaborators
      outside the repository; they are modelled by what their documented
      interface does with the calls this code makes. *)

From stdpp Require Import base option list gmap strings pretty.
From Stdlib Require Import Ascii ZArith Lia Floats.

(** ** JavaScript values *)

Module JS.

(** An exception object: only [message] is ever read by this code. *)
Record Exception : Type := mkException { name : string; message : string }.

(** [new Error(msg)] *)
Definition Error (msg : string) : Exception := mkException "Error" msg.

(** The TypeError an engine raises for [x.p] when [x] is [null] or
    [undefined] (V8's wording). *)
Definition cannot_read (x p : string) : Exception :=
  mkException "TypeError"
    ("Cannot read properties of " +:+ x +:+ " (reading '" +:+ p +:+ "')").

(** The double that the literal [0.3] denotes. *)
Definition lit_0_3 : float := 0x1.3333333333333p-2%float.
(** The double that the literal [0.7] denotes. *)
Definition lit_0_7 : float := 0x1.6666666666666p-1%float.

(** [Math.max(a, b)]: NaN if either is NaN; [+0] counts as larger than [-0]. *)
Definition Math_max (a b : float) : float :=
  if (is_nan a || is_nan b)%bool then nan
  else if (a <? b)%float then b
  else if (b <? a)%float then a
  else match classify a with NZero => b | _ => a end.

(** [Math.min(a, b)]: NaN if either is NaN; [-0] counts as smaller than [+0]. *)
Definition Math_min (a b : float) : float :=
  if (is_nan a || is_nan b)%bool then nan
  else if (b <? a)%float then b
  else if (a <? b)%float then a
  else match classify a with PZero => b | _ => a end.

(** [ToNumber] on a value that is a number or [undefined]. *)
Definition ToNumber (v : option float) : float := default nan v.

(** A string built by a template literal (or by [+]): literal text, numbers
    interpolated with [Number::toString], and numbers formatted by
    [toFixed(digits)]. *)
Inductive Chunk : Type :=
| Lit (s : string)
| Num (x : float)
| Fixed (digits : nat) (x : float).

Definition Template : Type := list Chunk.

(** *** Promises, as the environment settles them *)

Inductive Settled (A : Type) : Type :=
| Fulfilled (a : A)
| Rejected (reason : Exception).
Arguments Fulfilled {A} a.
Arguments Rejected {A} reason.

(** A promise the environment settles at instant [settles_at]. *)
Record Promise (A : Type) : Type := mkPromise { settles_at : nat; outcome : Settled A }.
Arguments mkPromise {A} settles_at outcome.
Arguments settles_at {A} p.
Arguments outcome {A} p.

(** The earliest rejection among [ps]; the first in the list on a tie. *)
Fixpoint first_rejection {A : Type} (ps : list (Promise A)) : option (nat * Exception) :=
  match ps with
  | [] => None
  | p :: ps' =>
      match outcome p, first_rejection ps' with
      | Rejected e, Some (t, e') =>
          if bool_decide (settles_at p <= t) then Some (settles_at p, e) else Some (t, e')
      | Rejected e, None => Some (settles_at p, e)
      | Fulfilled _, r => r
      end
  end.

(** The values of the fulfilled promises of [ps], in the order of [ps]. *)
Fixpoint fulfilled_values {A : Type} (ps : list (Promise A)) : list A :=
  match ps with
  | [] => []
  | p :: ps' =>
      match outcome p with
      | Fulfilled a => a :: fulfilled_values ps'
      | Rejected _ => fulfilled_values ps'
      end
  end.

(** [await Promise.all(ps)]: the values in order when every promise is
    fulfilled, otherwise the reason of the rejection that happens first. *)
Definition Promise_all {A : Type} (ps : list (Promise A)) : Settled (list A) :=
  match first_rejection ps with
  | Some (_, e) => Rejected e
  | None => Fulfilled (fulfilled_values ps)
  end.

End JS.

Export JS.

(** ** Data fetched over HTTP *)

(** The [properties] member of a feature, as far as this code reads it:
    [value] is absent or a JSON number, [unit_] (the member [unit]) is absent
    or a string. *)
Record Properties : Type := mkProperties { value : option float; unit_ : option string }.

(** A GeoJSON feature whose geometry Leaflet can draw; [properties] may be
    [null]. *)
Record Feature : Type := mkFeature { properties : option Properties }.

(** A JSON body: a feature collection or a single feature. *)
Inductive GeoJSON : Type :=
| FeatureCollection (features : list Feature)
| SingleFeature (feature : Feature).

(** The [type] member. *)
Definition type (dataset : GeoJSON) : string :=
  match dataset with
  | FeatureCollection _ => "FeatureCollection"
  | SingleFeature _ => "Feature"
  end.

Record LatLng : Type := mkLatLng { lat : float; lng : float }.

(** Leaflet's [LatLngBounds]: a corner is missing until the bounds were
    extended by a point. *)
Record LatLngBounds : Type :=
  mkBounds { _southWest : option LatLng; _northEast : option LatLng }.

(** [bounds.isValid()] *)
Definition isValid (bounds : LatLngBounds) : bool :=
  match _southWest bounds, _northEast bounds with
  | Some _, Some _ => true
  | _, _ => false
  end.

Definition ArrayBuffer : Type := list Byte.byte.

(** A parsed raster, as far as this code and its layer read it:
    the no-data sentinel ([null] when the file names none) and the bounds
    that a layer built on it reports ([None] when it reports none). *)
Record GeoRaster : Type :=
  mkGeoRaster { noDataValue : option float; bounds : option LatLngBounds }.

(** A [fetch] response. *)
Record Response : Type :=
  mkResponse { ok : bool;
               statusText : string;
               arrayBuffer : Promise ArrayBuffer;
               json : Promise GeoJSON }.

(** What the environment answers: to [fetch(url)] and to [parseGeoraster]. *)
Record Environment : Type :=
  mkEnvironment { fetch_result : string -> Promise Response;
                  parseGeoraster_result : ArrayBuffer -> Promise GeoRaster }.

(** ** Leaflet objects *)

(** Path options returned by a [style] callback. *)
Record PathOptions : Type :=
  mkPathOptions { fillColor : Template; color : string; weight : float; fillOpacity : float }.

(** One layer of a GeoJSON group: the feature, its style and its popup. *)
Record SubLayer : Type :=
  mkSubLayer { sub_feature : Feature; sub_options : PathOptions; sub_popup : Template }.

Inductive LayerContent : Type :=
| TileLayer (urlTemplate : string)
| GeoRasterLayer (georaster : GeoRaster) (opacity : float) (resolution : nat)
| GeoJSONLayer (sublayers : list SubLayer).

(** A layer object; [_leaflet_id] is its identity (Leaflet stamps objects
    from one global counter). *)
Record Layer : Type := mkLayer { _leaflet_id : nat; content : LayerContent }.

(** The viewport: not set yet, set by [setView], or fitted to bounds by
    [fitBounds]. *)
Inductive Viewport : Type :=
| NoView
| View (center : LatLng) (zoom : nat)
| Fit (bounds : LatLngBounds).

(** [L.Map]: the layers on the map, keyed by stamp, and the viewport. *)
Record LMap : Type := mkMap { _layers : gmap nat Layer; viewport : Viewport }.

(** One row of the layers control. *)
Record ControlEntry : Type :=
  mkEntry { entry_layer : Layer; entry_name : string; overlay : bool }.

(** [L.Control.Layers]: its rows, in insertion order. *)
Abbreviation LControl := (list ControlEntry).

Module L.

(** [map.hasLayer(layer)] *)
Definition hasLayer (map : LMap) (layer : Layer) : bool :=
  bool_decide (is_Some (_layers map !! _leaflet_id layer)).

(** [map.addLayer(layer)]: nothing when the layer is already on the map. *)
Definition addLayer (map : LMap) (layer : Layer) : LMap :=
  if hasLayer map layer then map
  else mkMap (<[_leaflet_id layer := layer]> (_layers map)) (viewport map).

(** [map.removeLayer(layer)]: nothing when the layer is not on the map. *)
Definition removeLayer (map : LMap) (layer : Layer) : LMap :=
  mkMap (delete (_leaflet_id layer) (_layers map)) (viewport map).

(** [map.setView(center, zoom)] *)
Definition setView (map : LMap) (center : LatLng) (zoom : nat) : LMap :=
  mkMap (_layers map) (View center zoom).

(** [control.addOverlay(layer, name)]: a new row at the end. *)
Definition addOverlay (control : LControl) (layer : Layer) (name : string) : LControl :=
  control ++ [mkEntry layer name true].

(** [control.removeLayer(layer)]: drops the first row of that layer, if any. *)
Fixpoint control_removeLayer (control : LControl) (layer : Layer) : LControl :=
  match control with
  | [] => []
  | e :: rest =>
      if bool_decide (_leaflet_id (entry_layer e) = _leaflet_id layer) then rest
      else e :: control_removeLayer rest layer
  end.

(** The rows of the control that belong to [layer]. *)
Definition rows_of (control : LControl) (layer : Layer) : LControl :=
  List.filter (fun e => Nat.eqb (_leaflet_id (entry_layer e)) (_leaflet_id layer)) control.

(** [L.control.layers(baseLayers, {})] with one base layer. *)
Definition control_layers (base_name : string) (base : Layer) : LControl :=
  [mkEntry base base_name false].

End L.

(** ** The component's state and the events a run emits *)

Inductive Event : Type :=
| StatusSet (s : string)            (* setStatus(s) *)
| LoadingSet (b : bool)             (* setLoading(b) *)
| Requested (url : string)          (* fetch(url) issued *)
| Console (method : string) (text : Template).

(** The requests among the events, and the calls of [setLoading]. *)
Definition is_request (ev : Event) : bool :=
  match ev with Requested _ => true | _ => false end.
Definition is_loading_set (ev : Event) : bool :=
  match ev with LoadingSet _ => true | _ => false end.

Record World : Type :=
  mkWorld { mapRef : option LMap;
            layerControlRef : option LControl;
            stressLayersRef : list Layer;
            status : string;
            loading : bool;
            lastId : nat;
            log : list Event }.

Definition set_mapRef (m : option LMap) (w : World) : World :=
  mkWorld m (layerControlRef w) (stressLayersRef w) (status w) (loading w) (lastId w) (log w).
Definition set_layerControlRef (c : option LControl) (w : World) : World :=
  mkWorld (mapRef w) c (stressLayersRef w) (status w) (loading w) (lastId w) (log w).
Definition set_stressLayersRef (ls : list Layer) (w : World) : World :=
  mkWorld (mapRef w) (layerControlRef w) ls (status w) (loading w) (lastId w) (log w).
Definition set_status (s : string) (w : World) : World :=
  mkWorld (mapRef w) (layerControlRef w) (stressLayersRef w) s (loading w) (lastId w) (log w).
Definition set_loading (b : bool) (w : World) : World :=
  mkWorld (mapRef w) (layerControlRef w) (stressLayersRef w) (status w) b (lastId w) (log w).
Definition set_lastId (n : nat) (w : World) : World :=
  mkWorld (mapRef w) (layerControlRef w) (stressLayersRef w) (status w) (loading w) n (log w).
Definition emit (e : Event) (w : World) : World :=
  mkWorld (mapRef w) (layerControlRef w) (stressLayersRef w) (status w) (loading w) (lastId w)
          (log w ++ [e]).

(** *** The monad: state, and exceptions that keep the state *)

Inductive Completion (A : Type) : Type :=
| Normal (a : A)
| Throw (e : Exception).
Arguments Normal {A} a.
Arguments Throw {A} e.

Definition M (A : Type) : Type := World -> Completion A * World.

Definition ret {A : Type} (a : A) : M A := fun w => (Normal a, w).

Definition bind {A B : Type} (m : M A) (k : A -> M B) : M B :=
  fun w => match m w with
           | (Normal a, w') => k a w'
           | (Throw e, w') => (Throw e, w')
           end.

Definition throw {A : Type} (e : Exception) : M A := fun w => (Throw e, w).

(** [try { body } catch (error) { handler(error) }] *)
Definition try_catch {A : Type} (body : M A) (handler : Exception -> M A) : M A :=
  fun w => match body w with
           | (Normal a, w') => (Normal a, w')
           | (Throw e, w') => handler e w'
           end.

Definition modify (f : World -> World) : M unit := fun w => (Normal tt, f w).

Definition gets {A : Type} (f : World -> A) : M A := fun w => (Normal (f w), w).

Notation "'do' x <- c1 ; c2" := (bind c1 (fun x => c2))
  (at level 10, x name, c1 at level 100, c2 at level 200,
   format "'[v' 'do'  x  <-  c1 ; '/' c2 ']'").
Notation "c1 ;; c2" := (bind c1 (fun _ => c2))
  (at level 100, c2 at level 200, right associativity).

(** [array.forEach((x, i) => f(x, i))], the index starting at [i]. *)
Fixpoint forEach_from {A : Type} (i : nat) (xs : list A) (f : A -> nat -> M unit) : M unit :=
  match xs with
  | [] => ret tt
  | x :: xs' => f x i ;; forEach_from (S i) xs' f
  end.

Definition forEach {A : Type} (xs : list A) (f : A -> nat -> M unit) : M unit :=
  forEach_from 0 xs f.

(** [await p] *)
Definition await {A : Type} (p : Promise A) : M A :=
  match outcome p with
  | Fulfilled a => ret a
  | Rejected e => throw e
  end.

(** [await Promise.all(ps)] *)
Definition await_all {A : Type} (ps : list (Promise A)) : M (list A) :=
  match Promise_all ps with
  | Fulfilled xs => ret xs
  | Rejected e => throw e
  end.

(** [fetch(url)]: the request goes out, the environment holds the answer. *)
Definition fetch (env : Environment) (url : string) : M (Promise Response) :=
  modify (emit (Requested url)) ;; ret (fetch_result env url).

(** [urls.map(url => fetch(url))] *)
Fixpoint fetch_each (env : Environment) (urls : list string) : M (list (Promise Response)) :=
  match urls with
  | [] => ret []
  | url :: rest =>
      do p <- fetch env url;
      do ps <- fetch_each env rest;
      ret (p :: ps)
  end.

Definition setStatus (s : string) : M unit :=
  modify (fun w => emit (StatusSet s) (set_status s w)).

Definition setLoading (b : bool) : M unit :=
  modify (fun w => emit (LoadingSet b) (set_loading b w)).

Definition console (method : string) (text : Template) : M unit :=
  modify (emit (Console method text)).

(** [mapRef.current.m(...)]: a TypeError when the ref holds [null]. *)
Definition with_map (method : string) (f : LMap -> LMap) : M unit :=
  do m <- gets mapRef;
  match m with
  | Some map => modify (set_mapRef (Some (f map)))
  | None => throw (cannot_read "null" method)
  end.

(** [layerControlRef.current.m(...)]: a TypeError when the ref holds [null]. *)
Definition with_control (method : string) (f : LControl -> LControl) : M unit :=
  do c <- gets layerControlRef;
  match c with
  | Some control => modify (set_layerControlRef (Some (f control)))
  | None => throw (cannot_read "null" method)
  end.

(** A new Leaflet object: the next stamp is its identity. *)
Definition new_layer (c : LayerContent) : M Layer :=
  do n <- gets lastId;
  modify (set_lastId (S n)) ;;
  ret (mkLayer (S n) c).

(** ** The raster layer's colour function (Map, lines 67-74) *)

(** [a === b] on values that are numbers or [null]/[undefined]. *)
Definition strict_equal (a b : option float) : bool :=
  match a, b with
  | Some x, Some y => (x =? y)%float
  | None, None => true
  | _, _ => false
  end.

(** [Math.min(255, Math.max(0, value * 255))] *)
Definition intensity (value : float) : float :=
  Math_min 255%float (Math_max 0%float (value * 255)%float).

(** [pixelValuesToColorFn]: [values] holds one entry per band, [None] for an
    entry that is [null] or [undefined]; the result [None] is [null]. *)
Definition pixelValuesToColorFn (georaster : GeoRaster) (values : list (option float))
  : option Template :=
  let value := mjoin (head values) in
  if (strict_equal value (noDataValue georaster) || bool_decide (value = None))%bool then None
  else
    match value with
    | None => None
    | Some v =>
        let i := intensity v in
        Some [Lit "rgba("; Num i; Lit ", "; Num i; Lit ", "; Num i; Lit ", 0.5)"]
    end.

(** ** The vector overlay's callbacks (Map, lines 120-147) *)

(** [Math.min(1, Math.max(0, ndviValue))] *)
Definition stressValue (ndviValue : float) : float :=
  Math_min 1%float (Math_max 0%float ndviValue).

(** [h] in the source: [stressValue * 120]. *)
Definition hue (ndviValue : float) : float := (stressValue ndviValue * 120)%float.

(** The [style] callback. *)
Definition style (feature : Feature) : Completion PathOptions :=
  match properties feature with
  | None => Throw (cannot_read "null" "value")
  | Some p =>
      let ndviValue := ToNumber (value p) in
      let h := hue ndviValue in
      if (ndviValue <=? lit_0_3)%float then
        Normal (mkPathOptions [Lit "hsl("; Num h; Lit ", 100%, 50%)"] "red" 0.5%float lit_0_7)
      else
        Normal (mkPathOptions [Lit "hsl("; Num h; Lit ", 100%, 50%)"] "green" 0.5%float lit_0_7)
  end.

Fixpoint spaces (n : nat) : string :=
  match n with
  | O => ""
  | S k => String " "%char (spaces k)
  end.

(** A line break followed by [n] spaces, as the popup's template literal has
    them. *)
Definition line (n : nat) : string := String "010"%char (spaces n).

(** [feature.properties.unit || 'n/a']: the empty string is falsy. *)
Definition unit_or_na (p : Properties) : string :=
  match unit_ p with
  | Some u => if String.eqb u "" then "n/a" else u
  | None => "n/a"
  end.

(** The [onEachFeature] callback: the popup it binds to the feature's layer. *)
Definition onEachFeature (datasetIndex : nat) (feature : Feature) : Completion Template :=
  match properties feature with
  | None => Throw (cannot_read "null" "value")
  | Some p =>
      match value p with
      | None => Throw (cannot_read "undefined" "toFixed")
      | Some ndviValue =>
          Normal [Lit (line 16 +:+ "<b>NDVI Value:</b> "); Fixed 3 ndviValue;
                  Lit ("<br/>" +:+ line 16 +:+ "<b>Unit:</b> "); Lit (unit_or_na p);
                  Lit ("<br/>" +:+ line 16 +:+ "<b>Dataset:</b> Stress Sample ");
                  Lit (pretty (datasetIndex + 1)); Lit (line 14)]
      end
  end.

(** ** [L.geoJSON] *)

(** The features [addData] walks: those of a collection, or the object
    itself. *)
Definition geoJSON_features (geojson : GeoJSON) : list Feature :=
  match geojson with
  | FeatureCollection fs => fs
  | SingleFeature f => [f]
  end.

(** One feature added: its layer is styled, then handed to [onEachFeature]. *)
Definition add_feature (style_cb : Feature -> Completion PathOptions)
    (onEach_cb : Feature -> Completion Template) (f : Feature) : Completion SubLayer :=
  match style_cb f with
  | Throw e => Throw e
  | Normal o =>
      match onEach_cb f with
      | Throw e => Throw e
      | Normal popup => Normal (mkSubLayer f o popup)
      end
  end.

(** The features added in order; the first exception ends the walk. *)
Fixpoint add_features (style_cb : Feature -> Completion PathOptions)
    (onEach_cb : Feature -> Completion Template) (fs : list Feature)
  : Completion (list SubLayer) :=
  match fs with
  | [] => Normal []
  | f :: rest =>
      match add_feature style_cb onEach_cb f with
      | Throw e => Throw e
      | Normal sl =>
          match add_features style_cb onEach_cb rest with
          | Throw e => Throw e
          | Normal sls => Normal (sl :: sls)
          end
      end
  end.

(** [L.geoJSON(geojson, {style, onEachFeature})] *)
Definition L_geoJSON (geojson : GeoJSON) (style_cb : Feature -> Completion PathOptions)
    (onEach_cb : Feature -> Completion Template) : M Layer :=
  match add_features style_cb onEach_cb (geoJSON_features geojson) with
  | Throw e => throw e
  | Normal sublayers => new_layer (GeoJSONLayer sublayers)
  end.

(** ** The vector overlay loader (Map, lines 99-166) *)

Definition urls : list string := ["/stress_sample.json"; "/stress_sample_2.json"].

(** [dataset.type === "FeatureCollection" ? dataset.features : [dataset]] *)
Definition features_of (dataset : GeoJSON) : list Feature :=
  if String.eqb (type dataset) "FeatureCollection" then
    match dataset with FeatureCollection fs => fs | SingleFeature _ => [] end
  else
    match dataset with SingleFeature f => [f] | FeatureCollection _ => [] end.

(** The body of [stressLayersRef.current.forEach] (lines 107-110). *)
Definition remove_stress_layer (layer : Layer) (_ : nat) : M unit :=
  with_map "removeLayer" (fun map => L.removeLayer map layer) ;;
  with_control "removeLayer" (fun control => L.control_removeLayer control layer).

(** The body of [jsonData.forEach] (lines 114-158). *)
Definition process_dataset (dataset : GeoJSON) (datasetIndex : nat) : M unit :=
  let features := features_of dataset in
  console "log" [Lit ("Stress Dataset " +:+ pretty (datasetIndex + 1) +:+ " has "
                      +:+ pretty (length features) +:+ " features")] ;;
  do stressLayer <- L_geoJSON dataset style (onEachFeature datasetIndex);
  (if bool_decide (datasetIndex = 0)
   then with_map "addLayer" (fun map => L.addLayer map stressLayer)
   else ret tt) ;;
  with_control "addOverlay"
    (fun control => L.addOverlay control stressLayer
                      ("Stress Sample " +:+ pretty (datasetIndex + 1))) ;;
  modify (fun w => set_stressLayersRef (stressLayersRef w ++ [stressLayer]) w).

(** [loadStressData] with its list of paths as a parameter. *)
Definition loadStressData_from (paths : list string) (env : Environment) : M unit :=
  try_catch
    (setStatus "Loading stress data..." ;;
     do promises <- fetch_each env paths;
     do responses <- await_all promises;
     do jsonData <- await_all (map json responses);
     do previous <- gets stressLayersRef;
     forEach previous remove_stress_layer ;;
     modify (set_stressLayersRef []) ;;
     forEach jsonData process_dataset ;;
     setStatus "Stress data overlaid successfully" ;;
     setLoading false)
    (fun error =>
       console "error" [Lit "Error loading stress data:"; Lit (message error)] ;;
       setStatus ("Error loading stress data: " +:+ message error)).

Definition loadStressData (env : Environment) : M unit := loadStressData_from urls env.

(** ** The raster loader (Map, lines 49-97) *)

(** Lines 51-88: everything before [await loadStressData()]. *)
Definition loadGeoTIFF_raster (env : Environment) : M unit :=
  setStatus "Fetching GeoTIFF file..." ;;
  let url := "/optimized_sample.tif" in
  do promise <- fetch env url;
  do response <- await promise;
  if negb (ok response)
  then throw (Error ("Failed to fetch GeoTIFF: " +:+ statusText response))
  else
    do buffer <- await (arrayBuffer response);
    console "log" [Lit "GeoTIFF file loaded, size:"; Lit (pretty (length buffer)); Lit "bytes"] ;;
    setStatus "Parsing GeoTIFF data..." ;;
    do georaster <- await (parseGeoraster_result env buffer);
    console "log" [Lit "GeoRaster parsed:"] ;;
    setStatus "Creating GeoTIFF layer..." ;;
    do layer <- new_layer (GeoRasterLayer georaster lit_0_7 256);
    with_map "addLayer" (fun map => L.addLayer map layer) ;;
    with_control "addOverlay" (fun control => L.addOverlay control layer "GeoTIFF Base Layer") ;;
    console "log" [Lit "Layer added to map"] ;;
    match bounds georaster with
    | Some b =>
        if isValid b then
          with_map "fitBounds" (fun map => mkMap (_layers map) (Fit b)) ;;
          setStatus "GeoTIFF displayed successfully"
        else
          console "warn" [Lit "Invalid bounds, could not zoom map"] ;;
          setStatus "GeoTIFF loaded, but no valid bounds"
    | None =>
        console "warn" [Lit "Invalid bounds, could not zoom map"] ;;
        setStatus "GeoTIFF loaded, but no valid bounds"
    end.

Definition loadGeoTIFF (env : Environment) : M unit :=
  try_catch
    (loadGeoTIFF_raster env ;; loadStressData env)
    (fun error =>
       console "error" [Lit "Error loading GeoTIFF:"; Lit (message error)] ;;
       setStatus ("Error: " +:+ message error)).

(** ** The [Map] component's effect and its cleanup (lines 37-47, 168-177) *)

Definition tile_url : string := "https://{s}.tile.openstreetmap.org/{z}/{x}/{y}.png".

(** Lines 38-47: the map, its base layer and the layers control are created
    once, while [mapRef] holds [null]. *)
Definition init_map : M unit :=
  do m <- gets mapRef;
  match m with
  | Some _ => ret tt
  | None =>
      do baseLayer <- new_layer (TileLayer tile_url);
      let map := L.setView (mkMap ∅ NoView) (mkLatLng 0%float 0%float) 2 in
      modify (set_mapRef (Some (L.addLayer map baseLayer))) ;;
      modify (set_layerControlRef (Some (L.control_layers "OpenStreetMap" baseLayer)))
  end.

(** The effect's body: initialisation, then the loaders. *)
Definition Map_effect (env : Environment) : M unit :=
  init_map ;; loadGeoTIFF env.

(** The effect's cleanup: [map.remove()] and the ref cleared, when a map is
    held. *)
Definition Map_cleanup : M unit :=
  do m <- gets mapRef;
  match m with
  | Some _ => modify (set_mapRef None)
  | None => ret tt
  end.

(** The state a mounted [App] starts from: [useState(true)],
    [useState("Loading map...")], and three empty refs. *)
Definition mount : World :=
  mkWorld None None [] "Loading map..." true 0 [].

(** ** The views *)

#[local] Unset Elimination Schemes.
Inductive Html : Type :=
| El (tag : string) (attributes : list (string * string)) (children : list Html)
| Txt (s : string).
#[local] Set Elimination Schemes.

(** [Navbar] *)
Definition Navbar : Html :=
  El "nav" [("style", "padding: 10px; background: #282c34; color: white")]
     [El "h2" [("style", "text-align: center")] [Txt "Spinach Field GeoTIFF Viewer"]].

(** What [Map] renders (lines 181-209). *)
Definition Map_view (w : World) : Html :=
  El "div" []
     [El "div" [("id", "map"); ("style", "height: 80vh; width: 100%")] [];
      El "div" [("style", "text-align: center; background: white; padding: 10px; box-shadow: 0 -2px 5px rgba(0,0,0,0.1)")]
         [El "p" [] [Txt (status w)];
          El "div" [("style", "font-size: 0.9em; margin-top: 5px")]
             [El "div" [("style", "display: flex; justify-content: center; align-items: center")]
                 [El "span" [] [Txt "NDVI Scale: "];
                  El "div" [("style", "width: 200px; height: 20px; background: linear-gradient(to right, red, yellow, green); margin: 0 10px; border: 1px solid #ccc")] [];
                  El "span" [] [Txt "Low → High"]];
              El "div" [("style", "margin-top: 5px; font-size: 0.8em; color: #666")]
                 [Txt "Higher NDVI values (green) indicate healthier vegetation with less stress"]]]].

(** The loading banner of [App] (lines 13-17). *)
Definition banner : Html :=
  El "h3" [("style", "text-align: center; margin-top: 10px; color: #555")] [Txt "Loading..."].

(** What [App] renders. *)
Definition App (w : World) : Html :=
  El "div" [] ([Navbar] ++ (if loading w then [banner] else []) ++ [Map_view w]).

(** * Proofs *)

(** ** Rounding of binary64 products

    [x * c] rounds the exact product to the nearest double, ties to even
    ([SFmul], through [binary_round_aux]).  This part shows that for a
    positive constant [c] with a full 53-bit mantissa the rounded product is
    monotone in [x]. *)

Module Binary64.

Local Open Scope Z_scope.

Lemma digits2_pos_size (p : positive) : digits2_pos p = Pos.size p.
Proof. induction p; simpl; congruence. Qed.

Lemma digits2_pos_bounds (p : positive) :
  2 ^ (Z.pos (digits2_pos p) - 1) <= Z.pos p < 2 ^ Z.pos (digits2_pos p).
Proof.
  rewrite digits2_pos_size. split.
  - pose proof (Pos.size_le p) as H.
    assert (Hp : (2 ^ Z.pos (Pos.size p) <= 2 * Z.pos p)).
    { rewrite <- Pos2Z.inj_pow. change (2 * Z.pos p) with (Z.pos p~0). lia. }
    replace (Z.pos (Pos.size p)) with (Z.pos (Pos.size p) - 1 + 1) in Hp by lia.
    rewrite Z.pow_add_r in Hp by lia. lia.
  - pose proof (Pos.size_gt p) as H. rewrite <- Pos2Z.inj_pow. lia.
Qed.

Definition b2z (b : bool) : Z := if b then 1 else 0.

Definition shr_inv (m0 k : Z) (mrs : shr_record) : Prop :=
  0 <= shr_m mrs /\
  exists t, 0 <= t < 2 ^ k /\
            2 * m0 = 2 ^ k * (2 * shr_m mrs + b2z (shr_r mrs)) + t /\
            (shr_s mrs = false <-> t = 0).

Lemma shr_inv_init (m0 : Z) : 0 <= m0 -> shr_inv m0 0 (Build_shr_record m0 false false).
Proof.
  intros H. split; [exact H|]. exists 0. cbn [shr_m shr_r shr_s b2z].
  rewrite Z.pow_0_r. split; [lia|]. split; [lia|]. split; reflexivity.
Qed.

Lemma shr_inv_step (m0 k : Z) (mrs : shr_record) :
  0 <= k -> shr_inv m0 k mrs -> shr_inv m0 (k + 1) (shr_1 mrs).
Proof.
  intros Hk [Hm (t & Ht & Heq & Hs)].
  destruct mrs as [m r s]. cbn [shr_m shr_r shr_s] in *.
  assert (HX : 0 < 2 ^ k) by (apply Z.pow_pos_nonneg; lia).
  assert (Hp : 2 ^ (k + 1) = 2 * 2 ^ k) by (rewrite Z.pow_add_r by lia; lia).
  assert (Hs' : orb r s = false <-> 2 ^ k * b2z r + t = 0).
  { destruct r, s; cbn [orb b2z]; split; intros H;
      first [ discriminate | reflexivity | exfalso; lia
            | apply Hs; lia | apply Hs in H; lia ]. }
  unfold shr_inv. rewrite Hp.
  destruct m as [|[p|p|]|p]; cbn [shr_1 shr_m shr_r shr_s b2z]; try lia;
    (split; [lia|]); exists (2 ^ k * b2z r + t);
    (split; [destruct r; cbn [b2z]; lia|]); (split; [|exact Hs']);
    cbn [b2z] in *; lia.
Qed.

Lemma shr_inv_iter (m0 : Z) (p : positive) : forall (k : Z) (mrs : shr_record),
  0 <= k -> shr_inv m0 k mrs -> shr_inv m0 (k + Z.pos p) (iter_pos shr_1 p mrs).
Proof.
  induction p as [p IH|p IH|]; intros k mrs Hk H; simpl.
  - replace (k + Z.pos p~1) with (k + 1 + Z.pos p + Z.pos p) by lia.
    apply IH; [lia|]. apply IH; [lia|]. apply shr_inv_step; assumption.
  - replace (k + Z.pos p~0) with (k + Z.pos p + Z.pos p) by lia.
    apply IH; [lia|]. apply IH; assumption.
  - apply shr_inv_step; assumption.
Qed.

Lemma shr_inv_round (m0 n : Z) (mrs : shr_record) :
  0 <= n -> shr_inv m0 n mrs ->
  let q := round_nearest_even (shr_m mrs) (loc_of_shr_record mrs) in
  0 <= q /\ 2 * m0 - 2 ^ n <= 2 ^ (n + 1) * q <= 2 * m0 + 2 ^ n.
Proof.
  intros Hn [Hm (t & Ht & Heq & Hs)].
  destruct mrs as [m r s]. cbn [shr_m shr_r shr_s] in *.
  assert (HX : 0 < 2 ^ n) by (apply Z.pow_pos_nonneg; lia).
  assert (Hp : 2 ^ (n + 1) = 2 * 2 ^ n) by (rewrite Z.pow_add_r by lia; lia).
  rewrite Hp.
  destruct r, s; cbn [loc_of_shr_record round_nearest_even b2z] in *.
  - lia.
  - assert (t = 0) by (apply Hs; reflexivity). subst t.
    destruct (Z.even m); lia.
  - lia.
  - assert (t = 0) by (apply Hs; reflexivity). lia.
Qed.

(** First shift of [binary_round_aux] on an exact positive mantissa. *)
Lemma shr_fexp_exact (P : positive) (g : Z) :
  let fe := fexp prec emax (Z.pos (digits2_pos P) + g) in
  g <= fe ->
  exists mrs, shr_fexp prec emax (Z.pos P) g loc_Exact = (mrs, fe) /\
              shr_inv (Z.pos P) (fe - g) mrs.
Proof.
  intros fe Hg. unfold shr_fexp. cbn [Zdigits2 shr_record_of_loc]. fold fe.
  destruct (fe - g) as [|n|n] eqn:En; [| |lia].
  - exists (Build_shr_record (Z.pos P) false false). cbn [shr]. split.
    + f_equal. lia.
    + apply shr_inv_init. lia.
  - eexists. cbn [shr]. split.
    + f_equal. lia.
    + change (Z.pos n) with (0 + Z.pos n). apply shr_inv_iter; [lia|].
      apply shr_inv_init. lia.
Qed.

Definition two52 : Z := 4503599627370496.
Definition two53 : Z := 9007199254740992.

(** Second shift: the rounded mantissa has at most 54 digits. *)
Lemma shr_fexp_again (q fe : Z) :
  0 < q <= two53 -> emin <= fe ->
  shr_fexp prec emax q fe loc_Exact =
    if q =? two53 then (Build_shr_record two52 false false, fe + 1)
    else (Build_shr_record q false false, fe).
Proof.
  intros Hq Hfe. destruct (Z.eqb_spec q two53) as [->|Hne].
  - unfold SpecFloat.emin, prec, emax in Hfe. unfold shr_fexp, fexp, SpecFloat.emin, prec, emax.
    assert (Hd : Zdigits2 two53 = 54) by (vm_compute; reflexivity). rewrite Hd.
    replace (Z.max (54 + fe - 53) (3 - 1024 - 53) - fe) with 1 by lia.
    reflexivity.
  - destruct q as [|p|p]; try lia.
    pose proof (digits2_pos_bounds p) as [Hlo _].
    assert (Hd : Z.pos (digits2_pos p) <= 53).
    { destruct (Z_le_gt_dec (Z.pos (digits2_pos p)) 53) as [|Hgt]; [assumption|exfalso].
      assert (2 ^ 53 <= 2 ^ (Z.pos (digits2_pos p) - 1)) by (apply Z.pow_le_mono_r; lia).
      change (2 ^ 53) with two53 in *. lia. }
    unfold shr_fexp, fexp, SpecFloat.emin, prec, emax in *.
    cbn [Zdigits2 shr_record_of_loc].
    destruct (Z.max (Z.pos (digits2_pos p) + fe - 53) (3 - 1024 - 53) - fe) eqn:E;
      cbn [shr]; try reflexivity. lia.
Qed.

(** What [binary_round_aux] returns from the rounded mantissa [q] at exponent [fe]. *)
Definition finish (q fe : Z) : spec_float :=
  if q =? two53 then
    if fe + 1 <=? emax - prec then S754_finite false (Z.to_pos two52) (fe + 1)
    else S754_infinity false
  else
    if fe <=? emax - prec then S754_finite false (Z.to_pos q) fe
    else S754_infinity false.

Lemma binary_round_aux_exact (P : positive) (g : Z) :
  let d := Z.pos (digits2_pos P) in
  let fe := fexp prec emax (d + g) in
  53 <= d -> emin - 46 <= g ->
  exists q, 0 < q <= two53 /\
            (fe = d + g - 53 -> two52 <= q) /\
            2 * Z.pos P - 2 ^ (fe - g) <= 2 ^ (fe - g + 1) * q <= 2 * Z.pos P + 2 ^ (fe - g) /\
            binary_round_aux prec emax false (Z.pos P) g loc_Exact = finish q fe.
Proof.
  intros d fe Hd Hg. unfold SpecFloat.emin, prec, emax in Hg.
  assert (Hfe : fe = Z.max (d + g - 53) (-1074)) by reflexivity.
  assert (Hge : g <= fe) by lia.
  destruct (shr_fexp_exact P g Hge) as (mrs & E1 & Hinv). fold d fe in E1, Hinv.
  assert (Hn0 : 0 <= fe - g) by lia.
  pose proof (shr_inv_round _ _ _ Hn0 Hinv) as Hr. cbv zeta in Hr.
  set (q := round_nearest_even (shr_m mrs) (loc_of_shr_record mrs)) in *.
  destruct Hr as (Hq0 & Hlo & Hhi).
  pose proof (digits2_pos_bounds P) as [HPlo HPhi]. fold d in HPlo, HPhi.
  set (n := fe - g) in *.
  assert (Hn : 0 <= n) by lia.
  assert (HX : 0 < 2 ^ n) by (apply Z.pow_pos_nonneg; lia).
  assert (Hp : 2 ^ (n + 1) = 2 * 2 ^ n) by (rewrite Z.pow_add_r by lia; lia).
  assert (Hd53 : 2 ^ d <= 2 ^ n * two53).
  { change two53 with (2 ^ 53). rewrite <- Z.pow_add_r by lia.
    apply Z.pow_le_mono_r; lia. }
  assert (Hq53 : q <= two53) by (unfold two53 in *; nia).
  assert (Hnorm : fe = d + g - 53 -> two52 <= q).
  { intros Hf. assert (Hdn : 2 ^ (d - 1) = 2 ^ n * two52).
    { change two52 with (2 ^ 52). rewrite <- Z.pow_add_r by lia. f_equal. lia. }
    unfold two52 in *. nia. }
  assert (Hqpos : 0 < q).
  { destruct (Z.eq_dec fe (d + g - 53)) as [Hf|Hf].
    - specialize (Hnorm Hf). unfold two52 in Hnorm. lia.
    - assert (Hn46 : n <= 46) by lia.
      assert (2 ^ n <= 2 ^ 46) by (apply Z.pow_le_mono_r; lia).
      assert (2 ^ 52 <= 2 ^ (d - 1)) by (apply Z.pow_le_mono_r; lia).
      change (2 ^ 46) with 70368744177664 in *. change (2 ^ 52) with 4503599627370496 in *.
      nia. }
  exists q. split; [lia|]. split; [exact Hnorm|]. split; [lia|].
  unfold binary_round_aux. rewrite E1. fold q.
  rewrite shr_fexp_again by (unfold SpecFloat.emin, prec, emax; lia).
  unfold finish. destruct (Z.eqb_spec q two53) as [Hq|Hq].
  - reflexivity.
  - cbn [shr_m]. destruct q as [|p|p]; try lia. reflexivity.
Qed.


Lemma SFleb_finish_refl (q fe : Z) : SFleb (finish q fe) (finish q fe) = true.
Proof.
  unfold finish.
  destruct (q =? two53), (fe + 1 <=? emax - prec), (fe <=? emax - prec);
    unfold SFleb, SFcompare; rewrite ?Z.compare_refl; try reflexivity;
    change (Pos.compare_cont Eq ?a ?b) with (Pos.compare a b);
    rewrite Pos.compare_refl; reflexivity.
Qed.

Lemma compare_cont_Eq_spec (a b : positive) :
  CompareSpec (a = b) (a < b)%positive (b < a)%positive (Pos.compare_cont Eq a b).
Proof. exact (Pos.compare_spec a b). Qed.

Lemma SFleb_finish (q1 q2 fe1 fe2 : Z) :
  0 < q1 <= two53 -> 0 < q2 <= two53 ->
  (fe1 < fe2 /\ two52 <= q2) \/ (fe1 = fe2 /\ q1 <= q2) ->
  SFleb (finish q1 fe1) (finish q2 fe2) = true.
Proof.
  intros H1 H2 H. unfold finish, prec, emax.
  destruct (Z.eqb_spec q1 two53) as [E1|E1], (Z.eqb_spec q2 two53) as [E2|E2];
    destruct (Z.leb_spec (fe1 + 1) (1024 - 53)), (Z.leb_spec fe1 (1024 - 53)),
             (Z.leb_spec (fe2 + 1) (1024 - 53)), (Z.leb_spec fe2 (1024 - 53));
    unfold SFleb, SFcompare; try reflexivity; try (exfalso; lia).
  all: match goal with
       | |- context [Z.compare ?a ?b] => destruct (Z.compare_spec a b)
       end; try reflexivity; try (exfalso; lia).
  all: match goal with
       | |- context [Pos.compare_cont Eq ?a ?b] => destruct (compare_cont_Eq_spec a b)
       end; try reflexivity.
  all: exfalso; unfold two52, two53 in *; lia.
Qed.

Lemma nearest_scaled (P q n s : Z) :
  0 <= n -> 0 <= s ->
  2 * P - 2 ^ n <= 2 ^ (n + 1) * q <= 2 * P + 2 ^ n ->
  2 * (P * 2 ^ s) - 2 ^ (n + s) <= 2 ^ (n + s + 1) * q <= 2 * (P * 2 ^ s) + 2 ^ (n + s).
Proof.
  intros Hn Hs H.
  replace (n + s + 1) with (n + 1 + s) by lia.
  rewrite !Z.pow_add_r in * by lia. change (2 ^ 1) with 2 in *.
  assert (0 < 2 ^ n) by (apply Z.pow_pos_nonneg; lia).
  assert (0 < 2 ^ s) by (apply Z.pow_pos_nonneg; lia).
  nia.
Qed.

Lemma finite_valid_canonical (s : bool) (m : positive) (e : Z) :
  valid_binary (S754_finite s m e) = true ->
  Z.max (Z.pos (digits2_pos m) + e - 53) (-1074) = e.
Proof.
  cbn [SpecFloat.valid_binary]. unfold bounded, canonical_mantissa, fexp, SpecFloat.emin, prec, emax.
  intros H. apply andb_true_iff in H as [H _]. apply Z.eqb_eq in H. exact H.
Qed.

Lemma finite_leb_inv (m1 m2 : positive) (e1 e2 : Z) :
  SFleb (S754_finite false m1 e1) (S754_finite false m2 e2) = true ->
  e1 < e2 \/ (e1 = e2 /\ Z.pos m1 <= Z.pos m2).
Proof.
  unfold SFleb, SFcompare.
  destruct (Z.compare_spec e1 e2); [|left; assumption|discriminate].
  destruct (compare_cont_Eq_spec m1 m2); try discriminate; intros _; right; split; lia.
Qed.

Lemma pow2_lt_inv (a b : Z) : 0 <= b -> 2 ^ a < 2 ^ b -> a < b.
Proof. intros Hb H. apply (Z.pow_lt_mono_r_iff 2); lia. Qed.


Lemma pow2_pos (k : Z) : 0 <= k -> 0 < 2 ^ k.
Proof. intros H. apply Z.pow_pos_nonneg; lia. Qed.

Lemma pow2_double_le (s1 s2 : Z) : 0 <= s1 < s2 -> 2 * 2 ^ s1 <= 2 ^ s2.
Proof.
  intros H. replace s2 with (s1 + 1 + (s2 - s1 - 1)) by lia.
  rewrite !Z.pow_add_r by lia. change (2 ^ 1) with 2.
  pose proof (pow2_pos (s2 - s1 - 1) ltac:(lia)). pose proof (pow2_pos s1 ltac:(lia)).
  nia.
Qed.

(** Two mantissas in consecutive-or-further binades, times a common factor. *)
Lemma scaled_lt_binade (a b c T X Y : Z) :
  0 < c -> 0 < X -> 2 * X <= Y -> 0 <= a < 2 * T -> T <= b ->
  a * c * X < b * c * Y.
Proof.
  intros Hc HX HXY Ha Hb.
  assert (H1 : a * X < b * Y) by nia.
  replace (a * c * X) with (a * X * c) by ring.
  replace (b * c * Y) with (b * Y * c) by ring.
  apply Z.mul_lt_mono_pos_r; assumption.
Qed.

Lemma scaled_lt_same (a b c X : Z) :
  0 < c -> 0 < X -> a < b -> a * c * X < b * c * X.
Proof.
  intros Hc HX Hab. apply Z.mul_lt_mono_pos_r; [exact HX|].
  apply Z.mul_lt_mono_pos_r; assumption.
Qed.

Lemma digits_product_ge (a M : positive) :
  2 ^ 52 <= Z.pos M -> 53 <= Z.pos (digits2_pos (a * M)).
Proof.
  intros HM. pose proof (digits2_pos_bounds (a * M)) as [_ Hhi].
  rewrite Pos2Z.inj_mul in Hhi.
  destruct (Z_le_gt_dec 53 (Z.pos (digits2_pos (a * M)))) as [|Hgt]; [assumption|exfalso].
  assert (H : 2 ^ Z.pos (digits2_pos (a * M)) <= 2 ^ 52) by (apply Z.pow_le_mono_r; lia).
  revert HM Hhi H. generalize (2 ^ 52) (2 ^ Z.pos (digits2_pos (a * M))). intros. nia.
Qed.

(** The binade of a scaled product bounds it on both sides. *)
Lemma binade_le (P1 P2 D1 D2 s1 s2 : Z) :
  1 <= D1 -> 0 <= D2 -> 0 <= s1 -> 0 <= s2 ->
  2 ^ (D1 - 1) <= P1 -> P2 < 2 ^ D2 ->
  P1 * 2 ^ s1 < P2 * 2 ^ s2 ->
  D1 + s1 <= D2 + s2.
Proof.
  intros HD1 HD2 Hs1 Hs2 Hlo Hhi HV.
  assert (Hlt : 2 ^ (D1 - 1 + s1) < 2 ^ (D2 + s2)).
  { rewrite !Z.pow_add_r by lia.
    pose proof (pow2_pos s1 Hs1). pose proof (pow2_pos s2 Hs2).
    assert (2 ^ (D1 - 1) * 2 ^ s1 <= P1 * 2 ^ s1) by (apply Z.mul_le_mono_nonneg_r; lia).
    assert (P2 * 2 ^ s2 < 2 ^ D2 * 2 ^ s2) by (apply Z.mul_lt_mono_pos_r; lia).
    lia. }
  apply pow2_lt_inv in Hlt; lia.
Qed.

(** Round-to-nearest on a common grid is monotone. *)
Lemma nearest_mono (V1 V2 q1 q2 F : Z) :
  0 <= F -> V1 < V2 ->
  2 ^ (F + 1) * q1 <= 2 * V1 + 2 ^ F ->
  2 * V2 - 2 ^ F <= 2 ^ (F + 1) * q2 ->
  q1 <= q2.
Proof.
  intros HF HV H1 H2. rewrite Z.pow_add_r in H1, H2 by lia. change (2 ^ 1) with 2 in *.
  pose proof (pow2_pos F HF). nia.
Qed.

Theorem SFmul_const_mono (M : positive) (E : Z) (m1 m2 : positive) (e1 e2 : Z) :
  Z.pos (digits2_pos M) = 53 -> -46 <= E ->
  valid_binary (S754_finite false m1 e1) = true ->
  valid_binary (S754_finite false m2 e2) = true ->
  SFleb (S754_finite false m1 e1) (S754_finite false m2 e2) = true ->
  SFleb (SF64mul (S754_finite false m1 e1) (S754_finite false M E))
        (SF64mul (S754_finite false m2 e2) (S754_finite false M E)) = true.
Proof.
  intros HM HE Hv1 Hv2 Hle.
  apply finite_valid_canonical in Hv1, Hv2. apply finite_leb_inv in Hle.
  unfold SF64mul, SFmul. cbn [xorb].
  pose proof (digits2_pos_bounds M) as [HMlo _]. rewrite HM in HMlo.
  change (53 - 1) with 52 in HMlo.
  pose proof (digits_product_ge m1 M HMlo) as HD1.
  pose proof (digits_product_ge m2 M HMlo) as HD2.
  assert (Hg1 : emin - 46 <= e1 + E)
    by (unfold SpecFloat.emin, prec, emax; clear - HE Hv1; lia).
  assert (Hg2 : emin - 46 <= e2 + E)
    by (unfold SpecFloat.emin, prec, emax; clear - HE Hv2; lia).
  destruct (binary_round_aux_exact (m2 * M) (e2 + E) HD2 Hg2) as (q2 & Hq2 & Hnorm2 & Hn2 & R2).
  assert (Hsame : (e1 = e2 /\ m1 = m2) \/ (e1 < e2 \/ (e1 = e2 /\ Z.pos m1 < Z.pos m2))).
  { destruct Hle as [Hlt|[He Hm]]; [right; left; assumption|].
    destruct (Z.eq_dec (Z.pos m1) (Z.pos m2)) as [Heq|Hne].
    - left. split; [assumption|]. injection Heq as ->. reflexivity.
    - right. right. split; [assumption|]. clear - Hm Hne. lia. }
  destruct Hsame as [[-> ->]|Hlt].
  { rewrite R2. apply SFleb_finish_refl. }
  destruct (binary_round_aux_exact (m1 * M) (e1 + E) HD1 Hg1) as (q1 & Hq1 & _ & Hn1 & R1).
  rewrite R1, R2. clear R1 R2 Hg1 Hg2 Hle.
  pose proof (digits2_pos_bounds m1) as [_ Hm1hi].
  pose proof (digits2_pos_bounds m2) as [Hm2lo _].
  pose proof (digits2_pos_bounds (m1 * M)) as [HP1lo _].
  pose proof (digits2_pos_bounds (m2 * M)) as [_ HP2hi].
  unfold fexp, SpecFloat.emin, prec, emax in *.
  change (3 - 1024 - 53) with (-1074) in *.
  rewrite Pos2Z.inj_mul in *.
  remember (Z.pos (digits2_pos m1)) as d1 eqn:Ed1.
  remember (Z.pos (digits2_pos m2)) as d2 eqn:Ed2.
  remember (Z.pos (digits2_pos (m1 * M))) as D1 eqn:ED1.
  remember (Z.pos (digits2_pos (m2 * M))) as D2 eqn:ED2.
  remember (Z.max (D1 + (e1 + E) - 53) (-1074)) as fe1 eqn:Efe1.
  remember (Z.max (D2 + (e2 + E) - 53) (-1074)) as fe2 eqn:Efe2.
  remember (e1 + 1074) as s1 eqn:Es1. remember (e2 + 1074) as s2 eqn:Es2.
  assert (Hs1 : 0 <= s1) by (clear - Es1 Hv1; lia).
  assert (Hs2 : 0 <= s2) by (clear - Es2 Hv2; lia).
  assert (Hd1 : d1 <= 53) by (clear - Hv1; lia).
  (* the exact products, on a common scale, are strictly ordered *)
  assert (HV : Z.pos m1 * Z.pos M * 2 ^ s1 < Z.pos m2 * Z.pos M * 2 ^ s2).
  { destruct Hlt as [He|[He Hm]].
    - assert (Hd2 : d2 = 53) by (clear - Hv1 Hv2 He; lia).
      apply (scaled_lt_binade _ _ _ (2 ^ 52)).
      + reflexivity.
      + apply pow2_pos; exact Hs1.
      + apply pow2_double_le. clear - Es1 Es2 He Hs1. lia.
      + split; [apply Pos2Z.is_nonneg|]. change (2 * 2 ^ 52) with (2 ^ 53).
        apply Z.lt_le_trans with (2 ^ d1); [exact Hm1hi|].
        apply Z.pow_le_mono_r; [reflexivity|exact Hd1].
      + rewrite Hd2 in Hm2lo. exact Hm2lo.
    - assert (Hss : s1 = s2) by (clear - Es1 Es2 He; lia). rewrite Hss.
      apply scaled_lt_same; [reflexivity|apply pow2_pos; exact Hs2|exact Hm]. }
  (* hence the binades are ordered *)
  assert (HDD : D1 + s1 <= D2 + s2).
  { apply (binade_le (Z.pos m1 * Z.pos M) (Z.pos m2 * Z.pos M)); try assumption.
    - clear - HD1; lia.
    - clear - HD2; lia. }
  assert (Hfe : fe1 <= fe2) by (clear - HDD Efe1 Efe2 Es1 Es2; lia).
  assert (Hn1' : 0 <= fe1 - (e1 + E)) by (clear - Efe1 HD1; lia).
  assert (Hn2' : 0 <= fe2 - (e2 + E)) by (clear - Efe2 HD2; lia).
  apply SFleb_finish; [assumption|assumption|].
  destruct (Z.eq_dec fe1 fe2) as [Heq|Hne].
  - right. split; [assumption|].
    pose proof (nearest_scaled (Z.pos m1 * Z.pos M) q1 (fe1 - (e1 + E)) s1 Hn1' Hs1 Hn1) as [_ Hup].
    pose proof (nearest_scaled (Z.pos m2 * Z.pos M) q2 (fe2 - (e2 + E)) s2 Hn2' Hs2 Hn2) as [Hdn _].
    assert (HF : fe2 - (e2 + E) + s2 = fe1 - (e1 + E) + s1) by (clear - Heq Es1 Es2; lia).
    rewrite HF in Hdn.
    apply (nearest_mono (Z.pos m1 * Z.pos M * 2 ^ s1) (Z.pos m2 * Z.pos M * 2 ^ s2) q1 q2 (fe1 - (e1 + E) + s1)); try assumption.
    clear - Hn1' Hs1. lia.
  - left. split; [clear - Hfe Hne; lia|]. apply Hnorm2.
    clear - Hfe Hne Efe1 Efe2. lia.
Qed.

End Binary64.

(** ** The order on doubles, and the two clamps *)

Import Binary64.

Lemma SFcompare_refl (x : spec_float) :
  x <> S754_nan -> SFcompare x x = Some Eq.
Proof.
  destruct x as [s|s| |s m e]; intros H; try congruence; cbn.
  - reflexivity.
  - destruct s; reflexivity.
  - rewrite Z.compare_refl. destruct (compare_cont_Eq_spec m m); try lia.
    destruct s; reflexivity.
Qed.

Lemma SFcompare_antisym (x y : spec_float) :
  SFcompare y x = CompOpp <$> SFcompare x y.
Proof.
  destruct x as [s1|s1| |s1 m1 e1], y as [s2|s2| |s2 m2 e2]; cbn;
    try reflexivity; try (destruct s1; reflexivity); try (destruct s2; reflexivity);
    try (destruct s1, s2; reflexivity).
  destruct s1, s2; try reflexivity;
    rewrite (Z.compare_antisym e1 e2); destruct (e1 ?= e2)%Z; cbn; try reflexivity;
    rewrite (Pos.compare_cont_antisym m1 m2 Eq); cbn;
    try rewrite CompOpp_involutive; reflexivity.
Qed.

Lemma is_nan_spec (v : float) :
  is_nan v = match Prim2SF v with S754_nan => true | _ => false end.
Proof.
  unfold is_nan. rewrite eqb_spec. unfold SFeqb.
  destruct (Prim2SF v) eqn:E; try (rewrite SFcompare_refl by discriminate; reflexivity).
  reflexivity.
Qed.

Lemma leb_refl (v : float) : is_nan v = false -> (v <=? v)%float = true.
Proof.
  rewrite is_nan_spec, leb_spec. unfold SFleb. intros H.
  rewrite SFcompare_refl; [reflexivity|]. intros E. rewrite E in H. discriminate.
Qed.

Lemma ltb_leb (a b : float) : (a <? b)%float = true -> (a <=? b)%float = true.
Proof.
  rewrite ltb_spec, leb_spec. unfold SFltb, SFleb.
  destruct (SFcompare _ _) as [[]|]; congruence.
Qed.

Lemma leb_not_nan (a b : float) :
  (a <=? b)%float = true -> is_nan a = false /\ is_nan b = false.
Proof.
  rewrite leb_spec, !is_nan_spec. unfold SFleb.
  destruct (Prim2SF a), (Prim2SF b); cbn; try discriminate; auto.
Qed.

(** Without NaN the order is total. *)
Lemma not_ltb_leb (a b : float) :
  is_nan a = false -> is_nan b = false -> (a <? b)%float = false -> (b <=? a)%float = true.
Proof.
  rewrite !is_nan_spec, ltb_spec, leb_spec. unfold SFltb, SFleb.
  rewrite (SFcompare_antisym (Prim2SF a) (Prim2SF b)).
  destruct (Prim2SF a) as [s1|s1| |s1 m1 e1] eqn:Ea, (Prim2SF b)  as [s2|s2| |s2 m2 e2] eqn:Eb;
    try discriminate; intros _ _;
    destruct (SFcompare _ _) as [[]|] eqn:Ec; cbn; try congruence; cbn in Ec; try discriminate.
  all: destruct s1, s2; discriminate.
Qed.

Lemma Math_max_0 (v : float) :
  Math_max 0 v = if is_nan v then nan else if (0 <? v)%float then v else 0%float.
Proof.
  unfold Math_max. change (is_nan 0) with false. cbn [orb].
  destruct (is_nan v); [reflexivity|].
  destruct (0 <? v)%float; [reflexivity|].
  change (classify 0) with PZero. destruct (v <? 0)%float; reflexivity.
Qed.

Lemma Math_min_const (c u : float) :
  is_nan c = false -> classify c <> PZero ->
  Math_min c u = if is_nan u then nan else if (u <? c)%float then u else c.
Proof.
  intros Hc Hz. unfold Math_min. rewrite Hc. cbn [orb].
  destruct (is_nan u); [reflexivity|].
  destruct (u <? c)%float; [reflexivity|].
  destruct (c <? u)%float; [reflexivity|].
  destruct (classify c); congruence.
Qed.

Lemma stressValue_eq (v : float) :
  stressValue v =
    if is_nan v then nan
    else if (0 <? v)%float then (if (v <? 1)%float then v else 1%float)
    else 0%float.
Proof.
  unfold stressValue. rewrite Math_max_0.
  rewrite Math_min_const by (vm_compute; congruence).
  destruct (is_nan v) eqn:Hn; [reflexivity|].
  destruct (0 <? v)%float; [rewrite Hn; reflexivity|]. reflexivity.
Qed.

Definition c120 : spec_float := S754_finite false 8444249301319680 (-46).
Definition c255 : spec_float := S754_finite false 8972014882652160 (-45).
Definition SFone : spec_float := S754_finite false 4503599627370496 (-52).

Lemma Prim2SF_120 : Prim2SF 120 = c120. Proof. reflexivity. Qed.
Lemma Prim2SF_255 : Prim2SF 255 = c255. Proof. reflexivity. Qed.
Lemma Prim2SF_1 : Prim2SF 1 = SFone. Proof. reflexivity. Qed.
Lemma Prim2SF_0 : Prim2SF 0 = S754_zero false. Proof. reflexivity. Qed.

(** The sign only picks the constructor's sign. *)
Definition with_sign (s : bool) (x : spec_float) : spec_float :=
  match x with
  | S754_zero _ => S754_zero s
  | S754_infinity _ => S754_infinity s
  | S754_nan => S754_nan
  | S754_finite _ m e => S754_finite s m e
  end.

Lemma binary_round_aux_sign (s : bool) (m e : Z) (l : location) :
  binary_round_aux prec emax s m e l = with_sign s (binary_round_aux prec emax false m e l).
Proof.
  unfold binary_round_aux.
  destruct (shr_fexp prec emax m e l) as [mrs' e'].
  destruct (shr_fexp prec emax _ e' loc_Exact) as [mrs'' e''].
  destruct (shr_m mrs''); try reflexivity.
  destruct (e'' <=? emax - prec)%Z; reflexivity.
Qed.

Lemma finish_not_nan (q fe : Z) : finish q fe <> S754_nan.
Proof.
  unfold finish.
  destruct (q =? two53)%Z, (fe + 1 <=? emax - prec)%Z, (fe <=? emax - prec)%Z; discriminate.
Qed.

(** A product with a positive normal constant is never NaN unless the
    argument is. *)
Lemma SFmul_const_not_nan (x : spec_float) (M : positive) (E : Z) :
  valid_binary x = true -> Z.pos (digits2_pos M) = 53%Z -> (-46 <= E)%Z ->
  x <> S754_nan -> SF64mul x (S754_finite false M E) <> S754_nan.
Proof.
  intros Hv HM HE Hx. destruct x as [s|s| |s m e]; try congruence; try discriminate.
  unfold SF64mul, SFmul. rewrite binary_round_aux_sign.
  apply finite_valid_canonical in Hv.
  pose proof (digits2_pos_bounds M) as [HMlo _]. rewrite HM in HMlo.
  change (53 - 1)%Z with 52%Z in HMlo.
  pose proof (digits_product_ge m M HMlo) as HD.
  assert (Hg : (emin - 46 <= e + E)%Z) by (unfold SpecFloat.emin, prec, emax; lia).
  destruct (binary_round_aux_exact (m * M) (e + E) HD Hg) as (q & _ & _ & _ & R).
  rewrite R. pose proof (finish_not_nan q (fexp prec emax (Z.pos (digits2_pos (m * M)) + (e + E)))) as Hf.
  destruct (finish _ _); cbn; congruence.
Qed.

Ltac compare_cases :=
  repeat match goal with
         | |- context [Z.compare ?a ?b] => destruct (Z.compare_spec a b)
         | H : context [Z.compare ?a ?b] |- _ => destruct (Z.compare_spec a b)
         | |- context [Pos.compare_cont Eq ?a ?b] => destruct (compare_cont_Eq_spec a b)
         | H : context [Pos.compare_cont Eq ?a ?b] |- _ => destruct (compare_cont_Eq_spec a b)
         end.

(** [SFcompare] is transitive: two steps that do not go down do not go down,
    and go strictly up when one of them does. *)
Lemma SFcompare_trans (x y z : spec_float) (c1 c2 : comparison) :
  c1 <> Gt -> c2 <> Gt ->
  SFcompare x y = Some c1 -> SFcompare y z = Some c2 ->
  exists c3, SFcompare x z = Some c3 /\ c3 <> Gt /\ (c1 = Lt \/ c2 = Lt -> c3 = Lt).
Proof.
  intros Hc1 Hc2.
  destruct x as [s1|s1| |s1 m1 e1], y as [s2|s2| |s2 m2 e2], z as [s3|s3| |s3 m3 e3];
    cbn; try discriminate.
  all: destruct s1, s2, s3; cbn.
  all: intros H1 H2; injection H1 as <-; injection H2 as <-; try congruence.
  all: compare_cases; cbn in *; try congruence; try (exfalso; lia).
  all: eexists; split; [reflexivity|]; split; [discriminate|]; intros [?|?]; (reflexivity || discriminate || (exfalso; lia)).
Qed.

Lemma leb_trans (a b c : float) :
  (a <=? b)%float = true -> (b <=? c)%float = true -> (a <=? c)%float = true.
Proof.
  rewrite !leb_spec. unfold SFleb.
  destruct (SFcompare (Prim2SF a) (Prim2SF b)) as [c1|] eqn:E1; [|discriminate].
  destruct (SFcompare (Prim2SF b) (Prim2SF c)) as [c2|] eqn:E2; [|discriminate].
  intros H1 H2.
  destruct (SFcompare_trans _ _ _ c1 c2 ltac:(destruct c1; congruence)
              ltac:(destruct c2; congruence) E1 E2) as (c3 & -> & Hc3 & _).
  destruct c3; congruence.
Qed.

Lemma ltb_leb_trans (a b c : float) :
  (a <? b)%float = true -> (b <=? c)%float = true -> (a <? c)%float = true.
Proof.
  rewrite !leb_spec, !ltb_spec. unfold SFleb, SFltb.
  destruct (SFcompare (Prim2SF a) (Prim2SF b)) as [c1|] eqn:E1; [|discriminate].
  destruct (SFcompare (Prim2SF b) (Prim2SF c)) as [c2|] eqn:E2; [|discriminate].
  intros H1 H2.
  destruct (SFcompare_trans _ _ _ c1 c2 ltac:(destruct c1; congruence)
              ltac:(destruct c2; congruence) E1 E2) as (c3 & -> & Hc3 & HLt).
  rewrite HLt; [reflexivity|]. left. destruct c1; congruence.
Qed.

Lemma leb_ltb_trans (a b c : float) :
  (a <=? b)%float = true -> (b <? c)%float = true -> (a <? c)%float = true.
Proof.
  rewrite !leb_spec, !ltb_spec. unfold SFleb, SFltb.
  destruct (SFcompare (Prim2SF a) (Prim2SF b)) as [c1|] eqn:E1; [|discriminate].
  destruct (SFcompare (Prim2SF b) (Prim2SF c)) as [c2|] eqn:E2; [|discriminate].
  intros H1 H2.
  destruct (SFcompare_trans _ _ _ c1 c2 ltac:(destruct c1; congruence)
              ltac:(destruct c2; congruence) E1 E2) as (c3 & -> & Hc3 & HLt).
  rewrite HLt; [reflexivity|]. right. destruct c2; congruence.
Qed.

Lemma ltb_not_nan (a b : float) :
  (a <? b)%float = true -> is_nan a = false /\ is_nan b = false.
Proof. intros H. apply leb_not_nan, ltb_leb, H. Qed.

(** *** The clamp to [0, 1] *)

Lemma stressValue_range (v : float) :
  is_nan v = false ->
  (0 <=? stressValue v)%float = true /\ (stressValue v <=? 1)%float = true.
Proof.
  intros Hn. rewrite stressValue_eq, Hn.
  destruct (0 <? v)%float eqn:P; [|split; reflexivity].
  destruct (v <? 1)%float eqn:L; [|split; reflexivity].
  split; apply ltb_leb; assumption.
Qed.

Lemma stressValue_mono (v1 v2 : float) :
  (v1 <=? v2)%float = true -> (stressValue v1 <=? stressValue v2)%float = true.
Proof.
  intros H. destruct (leb_not_nan _ _ H) as [N1 N2].
  rewrite !stressValue_eq, N1, N2.
  destruct (0 <? v1)%float eqn:P1.
  - rewrite (ltb_leb_trans _ _ _ P1 H).
    destruct (v1 <? 1)%float eqn:L1.
    + destruct (v2 <? 1)%float eqn:L2; [assumption|apply ltb_leb; assumption].
    + destruct (v2 <? 1)%float eqn:L2; [|reflexivity].
      rewrite (leb_ltb_trans _ _ _ H L2) in L1. discriminate.
  - destruct (0 <? v2)%float eqn:P2; [|reflexivity].
    destruct (v2 <? 1)%float eqn:L2; [apply ltb_leb; assumption|reflexivity].
Qed.

(** *** Products with a positive constant *)

Lemma SFleb_zero_finish (s : bool) (q fe : Z) :
  SFleb (S754_zero s) (finish q fe) = true.
Proof.
  unfold finish.
  destruct (q =? two53)%Z, (fe + 1 <=? emax - prec)%Z, (fe <=? emax - prec)%Z; reflexivity.
Qed.

Lemma SFleb_finish_inf (q fe : Z) :
  SFleb (finish q fe) (S754_infinity false) = true.
Proof.
  unfold finish.
  destruct (q =? two53)%Z, (fe + 1 <=? emax - prec)%Z, (fe <=? emax - prec)%Z; reflexivity.
Qed.

Lemma SFmul_pos_finish (m M : positive) (e E : Z) :
  valid_binary (S754_finite false m e) = true ->
  Z.pos (digits2_pos M) = 53%Z -> (-46 <= E)%Z ->
  exists q fe, SF64mul (S754_finite false m e) (S754_finite false M E) = finish q fe.
Proof.
  intros Hv HM HE. unfold SF64mul, SFmul. cbn [xorb].
  apply finite_valid_canonical in Hv.
  pose proof (digits2_pos_bounds M) as [HMlo _]. rewrite HM in HMlo.
  change (53 - 1)%Z with 52%Z in HMlo.
  pose proof (digits_product_ge m M HMlo) as HD.
  assert (Hg : (emin - 46 <= e + E)%Z) by (unfold SpecFloat.emin, prec, emax; lia).
  destruct (binary_round_aux_exact (m * M) (e + E) HD Hg) as (q & _ & _ & _ & R).
  eauto.
Qed.

(** Multiplying by a positive constant with a full mantissa keeps the order
    of non-negative numbers. *)
Theorem mul_const_mono (c v1 v2 : float) (M : positive) (E : Z) :
  Prim2SF c = S754_finite false M E ->
  Z.pos (digits2_pos M) = 53%Z -> (-46 <= E)%Z ->
  (0 <=? v1)%float = true -> (v1 <=? v2)%float = true ->
  (v1 * c <=? v2 * c)%float = true.
Proof.
  intros Hc HM HE H0 H12.
  rewrite leb_spec in *. rewrite !mul_spec, Hc. rewrite Prim2SF_0 in H0.
  pose proof (Prim2SF_valid v1) as V1. pose proof (Prim2SF_valid v2) as V2.
  destruct (Prim2SF v1) as [s1|s1| |s1 m1 e1], (Prim2SF v2) as [s2|s2| |s2 m2 e2];
    try discriminate;
    try (destruct s1; discriminate); try (destruct s2; discriminate);
    try (destruct s1, s2; discriminate).
  - destruct s1, s2; reflexivity.
  - destruct s1, s2; try discriminate; reflexivity.
  - destruct s2; [destruct s1; discriminate|].
    destruct (SFmul_pos_finish m2 M e2 E V2 HM HE) as (q & fe & R).
    unfold SF64mul in *. cbn [SFmul xorb]. cbn [SFmul xorb] in R. rewrite R.
    apply SFleb_zero_finish.
  - destruct s1, s2; try discriminate; reflexivity.
  - destruct s1; [discriminate|]. destruct s2; [discriminate|].
    destruct (SFmul_pos_finish m1 M e1 E V1 HM HE) as (q & fe & R).
    unfold SF64mul in *. cbn [SFmul xorb]. cbn [SFmul xorb] in R. rewrite R.
    apply SFleb_finish_inf.
  - destruct s1; [discriminate|]. destruct s2; [discriminate|].
    apply SFmul_const_mono; assumption.
Qed.

Theorem hue_mono (v1 v2 : float) :
  (v1 <=? v2)%float = true -> (hue v1 <=? hue v2)%float = true.
Proof.
  intros H. destruct (leb_not_nan _ _ H) as [N1 _]. unfold hue.
  apply (mul_const_mono 120 _ _ 8444249301319680 (-46)).
  - reflexivity.
  - reflexivity.
  - lia.
  - apply stressValue_range, N1.
  - apply stressValue_mono, H.
Qed.

(** *** The clamp to [0, 255] and the edges of the clamp to [0, 1] *)

Lemma mul_255_is_nan (v : float) : is_nan (v * 255)%float = is_nan v.
Proof.
  rewrite !is_nan_spec, mul_spec, Prim2SF_255.
  pose proof (Prim2SF_valid v) as V.
  destruct (Prim2SF v) as [s|s| |s m e] eqn:E; try reflexivity.
  pose proof (SFmul_const_not_nan (S754_finite s m e) 8972014882652160 (-45) V
                eq_refl ltac:(lia) ltac:(discriminate)) as H.
  unfold c255. destruct (SF64mul _ _); congruence.
Qed.

Lemma intensity_eq (v : float) :
  intensity v =
    let w := (v * 255)%float in
    if is_nan v then nan
    else if (0 <? w)%float then (if (w <? 255)%float then w else 255%float)
    else 0%float.
Proof.
  unfold intensity. cbv zeta. rewrite Math_max_0, mul_255_is_nan.
  rewrite Math_min_const by (vm_compute; congruence).
  destruct (is_nan v) eqn:Hn; [reflexivity|].
  destruct (0 <? v * 255)%float; [rewrite mul_255_is_nan, Hn; reflexivity|]. reflexivity.
Qed.

Lemma intensity_range (v : float) :
  is_nan v = false ->
  (0 <=? intensity v)%float = true /\ (intensity v <=? 255)%float = true.
Proof.
  intros Hn. rewrite intensity_eq, Hn. cbv zeta.
  destruct (0 <? v * 255)%float eqn:P; [|split; reflexivity].
  destruct (v * 255 <? 255)%float eqn:L; [|split; reflexivity].
  split; apply ltb_leb; assumption.
Qed.

(** Inside the range the clamp leaves the scaled value as it is. *)
Lemma intensity_inside (v : float) :
  (0 <? v * 255)%float = true -> (v * 255 <? 255)%float = true ->
  intensity v = (v * 255)%float.
Proof.
  intros P L. rewrite intensity_eq. cbv zeta.
  destruct (ltb_not_nan _ _ P) as [_ N]. rewrite mul_255_is_nan in N.
  rewrite N, P, L. reflexivity.
Qed.

Lemma stressValue_below (v : float) : (v <? 0)%float = true -> stressValue v = 0%float.
Proof.
  intros H. rewrite stressValue_eq. destruct (ltb_not_nan _ _ H) as [N _]. rewrite N.
  destruct (0 <? v)%float eqn:P; [|reflexivity].
  pose proof (ltb_leb_trans _ _ _ H (ltb_leb _ _ P)) as C.
  rewrite ltb_spec in C. unfold SFltb in C.
  rewrite SFcompare_refl in C; [discriminate|].
  rewrite is_nan_spec in N. destruct (Prim2SF v); congruence.
Qed.

Lemma ltb_irrefl (v : float) : (v <? v)%float = false.
Proof.
  rewrite ltb_spec. unfold SFltb.
  destruct (Prim2SF v) eqn:E; try (rewrite SFcompare_refl by discriminate; reflexivity).
  reflexivity.
Qed.

Lemma ltb_asym (a b : float) : (a <? b)%float = true -> (b <? a)%float = false.
Proof.
  intros H. destruct (b <? a)%float eqn:E; [|reflexivity].
  pose proof (ltb_leb_trans _ _ _ H (ltb_leb _ _ E)) as C.
  rewrite ltb_irrefl in C. discriminate.
Qed.

Lemma stressValue_above (v : float) : (1 <? v)%float = true -> stressValue v = 1%float.
Proof.
  intros H. rewrite stressValue_eq. destruct (ltb_not_nan _ _ H) as [_ N]. rewrite N.
  assert (P : (0 <? v)%float = true) by (apply (ltb_leb_trans 0 1 v); [reflexivity|apply ltb_leb, H]).
  rewrite P, (ltb_asym _ _ H). reflexivity.
Qed.

Lemma stressValue_inside (v : float) :
  (0 <? v)%float = true -> (v <? 1)%float = true -> stressValue v = v.
Proof.
  intros P L. rewrite stressValue_eq. destruct (ltb_not_nan _ _ P) as [_ N].
  rewrite N, P, L. reflexivity.
Qed.

(** ** Running the loaders *)

#[local] Arguments String.append : simpl never.
#[local] Arguments pretty : simpl never.

Ltac unfold_monad :=
  unfold setStatus, setLoading, console, with_map, with_control, new_layer, fetch,
    await, await_all, try_catch, bind, ret, throw, modify, gets, emit,
    set_mapRef, set_layerControlRef, set_stressLayersRef, set_status, set_loading,
    set_lastId in *.

(** Projections of explicit worlds and the matches of the monad, and nothing
    else, are reduced. *)
Ltac simp_world :=
  cbv beta iota;
  cbn [mapRef layerControlRef stressLayersRef status loading lastId log fst snd].

Ltac run := unfold_monad; simp_world.

(** *** Requests *)

Lemma fetch_each_run (env : Environment) (paths : list string) (w : World) :
  fetch_each env paths w =
    (Normal (map (fetch_result env) paths),
     mkWorld (mapRef w) (layerControlRef w) (stressLayersRef w) (status w) (loading w)
             (lastId w) (log w ++ map Requested paths)).
Proof.
  revert w. induction paths as [|url rest IH]; intros w.
  - cbn [fetch_each map]. rewrite app_nil_r. destruct w; reflexivity.
  - cbn [fetch_each map]. unfold bind at 1. unfold fetch at 1. run.
    rewrite IH. simp_world. rewrite <- app_assoc. reflexivity.
Qed.

(** *** [Promise.all] *)

Lemma first_rejection_None {A : Type} (ps : list (Promise A)) :
  first_rejection ps = None <-> Forall (fun p => exists a, outcome p = Fulfilled a) ps.
Proof.
  induction ps as [|p ps IH]; cbn.
  - split; [constructor|reflexivity].
  - destruct (outcome p) as [a|e] eqn:E.
    + rewrite IH. split.
      * intros H. constructor; [eauto|exact H].
      * intros H. inversion H; assumption.
    + split.
      * destruct (first_rejection ps) as [[t e']|]; [destruct (bool_decide _)|]; discriminate.
      * intros H. inversion H as [|? ? [a Ha] _]. congruence.
Qed.

Lemma Promise_all_fulfilled {A : Type} (ps : list (Promise A)) (xs : list A) :
  Promise_all ps = Fulfilled xs <->
  Forall2 (fun p x => outcome p = Fulfilled x) ps xs.
Proof.
  unfold Promise_all. split.
  - destruct (first_rejection ps) as [[t e]|] eqn:E; [discriminate|].
    intros [= <-]. apply first_rejection_None in E.
    induction E as [|p ps [a Ha] _ IH]; cbn [fulfilled_values]; [constructor|].
    rewrite Ha. constructor; assumption.
  - intros H.
    assert (E : first_rejection ps = None).
    { apply first_rejection_None. induction H; constructor; eauto. }
    rewrite E. f_equal.
    induction H as [|p x ps xs Hp _ IH]; cbn [fulfilled_values]; [reflexivity|].
    rewrite Hp. rewrite IH; [reflexivity|].
    cbn [first_rejection] in E. rewrite Hp in E. exact E.
Qed.

(** One rejection among the promises rejects the whole group. *)
Lemma Promise_all_rejected {A : Type} (ps : list (Promise A)) (p : Promise A) (e : Exception) :
  In p ps -> outcome p = Rejected e ->
  exists e', Promise_all ps = Rejected e' /\
             exists p', In p' ps /\ outcome p' = Rejected e'.
Proof.
  intros Hin Hp. unfold Promise_all.
  destruct (first_rejection ps) as [[t e']|] eqn:E.
  - exists e'. split; [reflexivity|]. clear p Hin Hp.
    revert t e' E. induction ps as [|q ps IH]; cbn; [discriminate|].
    intros t e'. destruct (outcome q) as [a|eq] eqn:Eq.
    + intros H. destruct (IH _ _ H) as (p' & ? & ?). eauto.
    + destruct (first_rejection ps) as [[t0 e0]|] eqn:E0.
      * destruct (bool_decide _).
        -- intros [= <- <-]. eauto.
        -- intros [= <- <-]. destruct (IH _ _ eq_refl) as (p' & ? & ?). eauto.
      * intros [= <- <-]. eauto.
  - apply first_rejection_None in E. rewrite Forall_forall in E.
    destruct (E p) as [a Ha]; [apply list_elem_of_In; exact Hin|]. congruence.
Qed.

(** *** The removal of the previous overlays (lines 107-110) *)

Lemma remove_previous_run (previous : list Layer) (i : nat) (w : World) (m : LMap)
    (control : LControl) :
  mapRef w = Some m -> layerControlRef w = Some control ->
  forEach_from i previous remove_stress_layer w =
    (Normal tt,
     mkWorld (Some (foldl L.removeLayer m previous))
             (Some (foldl L.control_removeLayer control previous))
             (stressLayersRef w) (status w) (loading w) (lastId w) (log w)).
Proof.
  revert i w m control. induction previous as [|layer rest IH]; intros i w m control Hm Hc.
  - cbn [forEach_from foldl]. destruct w; cbn in *. subst. reflexivity.
  - cbn [forEach_from foldl]. unfold bind at 1. unfold remove_stress_layer at 1.
    run. rewrite Hm. simp_world. rewrite Hc. simp_world.
    erewrite IH; [reflexivity|reflexivity|reflexivity].
Qed.

(** *** The overlays built from the parsed bodies (lines 114-158) *)

(** The sub-layers of each dataset, the first dataset's index being [i]; the
    first exception ends the walk. *)
Fixpoint sublayers_from (i : nat) (datasets : list GeoJSON) : Completion (list (list SubLayer)) :=
  match datasets with
  | [] => Normal []
  | d :: rest =>
      match add_features style (onEachFeature i) (geoJSON_features d) with
      | Throw e => Throw e
      | Normal subs =>
          match sublayers_from (S i) rest with
          | Throw e => Throw e
          | Normal sss => Normal (subs :: sss)
          end
      end
  end.

(** The layers created from them when the stamp counter stands at [n]. *)
Definition stress_layers (n : nat) (sss : list (list SubLayer)) : list Layer :=
  imap (fun k subs => mkLayer (n + 1 + k) (GeoJSONLayer subs)) sss.

(** Their rows in the layers control. *)
Definition stress_entries (i : nat) (layers : list Layer) : LControl :=
  imap (fun k layer => mkEntry layer ("Stress Sample " +:+ pretty (i + k + 1)) true) layers.

(** The console lines of the walk. *)
Definition dataset_lines (i : nat) (datasets : list GeoJSON) : list Event :=
  imap (fun k d => Console "log"
                     [Lit ("Stress Dataset " +:+ pretty (i + k + 1) +:+ " has "
                           +:+ pretty (length (features_of d)) +:+ " features")]) datasets.

(** The map after the walk: only the dataset of index 0 is added to it. *)
Definition map_with_first (i : nat) (m : LMap) (layers : list Layer) : LMap :=
  match i, layers with
  | O, layer :: _ => L.addLayer m layer
  | _, _ => m
  end.

Lemma stress_layers_cons (n : nat) (subs : list SubLayer) (sss : list (list SubLayer)) :
  stress_layers n (subs :: sss) = mkLayer (S n) (GeoJSONLayer subs) :: stress_layers (S n) sss.
Proof.
  unfold stress_layers. cbn [imap].
  replace (n + 1 + 0) with (S n) by lia. f_equal.
  apply imap_ext. intros k x _. unfold compose.
  replace (n + 1 + S k) with (S n + 1 + k) by lia. reflexivity.
Qed.

Lemma stress_entries_cons (i : nat) (layer : Layer) (layers : list Layer) :
  stress_entries i (layer :: layers) =
    mkEntry layer ("Stress Sample " +:+ pretty (i + 1)) true :: stress_entries (S i) layers.
Proof.
  unfold stress_entries. cbn [imap]. rewrite Nat.add_0_r. f_equal.
  apply imap_ext. intros k x _. unfold compose.
  replace (i + S k + 1) with (S i + k + 1) by lia. reflexivity.
Qed.

Lemma dataset_lines_cons (i : nat) (d : GeoJSON) (datasets : list GeoJSON) :
  dataset_lines i (d :: datasets) =
    Console "log" [Lit ("Stress Dataset " +:+ pretty (i + 1) +:+ " has "
                        +:+ pretty (length (features_of d)) +:+ " features")]
    :: dataset_lines (S i) datasets.
Proof.
  unfold dataset_lines. cbn [imap]. rewrite Nat.add_0_r. f_equal.
  apply imap_ext. intros k x _. unfold compose.
  replace (i + S k + 1) with (S i + k + 1) by lia. reflexivity.
Qed.

Lemma process_datasets_run (datasets : list GeoJSON) :
  forall (i : nat) (w : World) (m : LMap) (control : LControl) (sss : list (list SubLayer)),
  mapRef w = Some m -> layerControlRef w = Some control ->
  sublayers_from i datasets = Normal sss ->
  forEach_from i datasets process_dataset w =
    (Normal tt,
     mkWorld (Some (map_with_first i m (stress_layers (lastId w) sss)))
             (Some (control ++ stress_entries i (stress_layers (lastId w) sss)))
             (stressLayersRef w ++ stress_layers (lastId w) sss)
             (status w) (loading w) (lastId w + length sss)
             (log w ++ dataset_lines i datasets)).
Proof.
  induction datasets as [|d rest IH]; intros i w m control sss Hm Hc Hs.
  - cbn [sublayers_from] in Hs. injection Hs as <-.
    cbn [forEach_from]. unfold stress_layers, stress_entries, dataset_lines. cbn [imap length].
    replace (map_with_first i m []) with m by (destruct i; reflexivity).
    rewrite !app_nil_r, Nat.add_0_r. destruct w; cbn in *. subst. reflexivity.
  - cbn [sublayers_from] in Hs.
    destruct (add_features style (onEachFeature i) (geoJSON_features d)) as [subs|e] eqn:Ed;
      [|discriminate].
    destruct (sublayers_from (S i) rest) as [sss'|e] eqn:Er; [|discriminate].
    injection Hs as <-.
    rewrite stress_layers_cons, stress_entries_cons, dataset_lines_cons.
    cbn [forEach_from]. unfold bind at 1. unfold process_dataset at 1.
    unfold L_geoJSON. rewrite Ed. run.
    destruct (bool_decide (i = 0)) eqn:Ei; simp_world; rewrite ?Hm; simp_world;
      rewrite Hc; simp_world.
    + apply bool_decide_eq_true in Ei. subst i.
      erewrite IH; [|reflexivity|reflexivity|exact Er]. simp_world.
      unfold L.addOverlay. rewrite <- !app_assoc. cbn [app length map_with_first].
      replace (lastId w + S (length sss')) with (S (lastId w) + length sss') by lia.
      reflexivity.
    + apply bool_decide_eq_false in Ei.
      erewrite IH; [|reflexivity|reflexivity|exact Er]. simp_world.
      unfold L.addOverlay. rewrite <- !app_assoc. cbn [app length].
      replace (lastId w + S (length sss')) with (S (lastId w) + length sss') by lia.
      destruct i as [|i]; [congruence|]. reflexivity.
Qed.

(** *** The three ways [loadStressData] ends *)

(** The world after the error path: only the status and the trace moved. *)
Definition stress_failed (paths : list string) (e : Exception) (w : World) : World :=
  mkWorld (mapRef w) (layerControlRef w) (stressLayersRef w)
          ("Error loading stress data: " +:+ message e) (loading w) (lastId w)
          (log w ++ [StatusSet "Loading stress data..."] ++ map Requested paths
                 ++ [Console "error" [Lit "Error loading stress data:"; Lit (message e)];
                     StatusSet ("Error loading stress data: " +:+ message e)]).

(** The world after a load that went through. *)
Definition stress_loaded (paths : list string) (datasets : list GeoJSON)
    (sss : list (list SubLayer)) (m : LMap) (control : LControl) (w : World) : World :=
  let layers := stress_layers (lastId w) sss in
  mkWorld (Some (map_with_first 0 (foldl L.removeLayer m (stressLayersRef w)) layers))
          (Some (foldl L.control_removeLayer control (stressLayersRef w) ++ stress_entries 0 layers))
          layers "Stress data overlaid successfully" false (lastId w + length sss)
          (log w ++ [StatusSet "Loading stress data..."] ++ map Requested paths
                 ++ dataset_lines 0 datasets
                 ++ [StatusSet "Stress data overlaid successfully"; LoadingSet false]).

Lemma loadStressData_fetch_rejected (paths : list string) (env : Environment) (w : World)
    (e : Exception) :
  Promise_all (map (fetch_result env) paths) = Rejected e ->
  loadStressData_from paths env w = (Normal tt, stress_failed paths e w).
Proof.
  intros H. unfold loadStressData_from. unfold try_catch, bind at 1 2. unfold setStatus at 1.
  unfold modify at 1. rewrite fetch_each_run. run. rewrite H. simp_world.
  unfold stress_failed. rewrite <- !app_assoc. reflexivity.
Qed.

Lemma loadStressData_parse_rejected (paths : list string) (env : Environment) (w : World)
    (responses : list Response) (e : Exception) :
  Promise_all (map (fetch_result env) paths) = Fulfilled responses ->
  Promise_all (map json responses) = Rejected e ->
  loadStressData_from paths env w = (Normal tt, stress_failed paths e w).
Proof.
  intros H1 H2. unfold loadStressData_from. unfold try_catch, bind at 1 2. unfold setStatus at 1.
  unfold modify at 1. rewrite fetch_each_run. run. rewrite H1. simp_world. rewrite H2.
  simp_world. unfold stress_failed. rewrite <- !app_assoc. reflexivity.
Qed.

Ltac simp_setters :=
  unfold emit, set_mapRef, set_layerControlRef, set_stressLayersRef, set_status,
    set_loading, set_lastId;
  simp_world.

Lemma loadStressData_loaded (paths : list string) (env : Environment) (w : World)
    (responses : list Response) (datasets : list GeoJSON) (sss : list (list SubLayer))
    (m : LMap) (control : LControl) :
  Promise_all (map (fetch_result env) paths) = Fulfilled responses ->
  Promise_all (map json responses) = Fulfilled datasets ->
  sublayers_from 0 datasets = Normal sss ->
  mapRef w = Some m -> layerControlRef w = Some control ->
  loadStressData_from paths env w =
    (Normal tt, stress_loaded paths datasets sss m control w).
Proof.
  intros H1 H2 Hs Hm Hc. unfold loadStressData_from.
  unfold try_catch, bind at 1 2. unfold setStatus at 1. unfold modify at 1.
  rewrite fetch_each_run. simp_setters.
  unfold bind at 1. unfold await_all at 1. rewrite H1. unfold ret at 1.
  unfold bind at 1. unfold await_all at 1. rewrite H2. unfold ret at 1.
  unfold bind at 1. unfold gets at 1. simp_world.
  unfold bind at 1. unfold forEach.
  erewrite remove_previous_run; [|simp_world; exact Hm|simp_world; exact Hc].
  simp_world.
  unfold bind at 1. unfold modify at 1. simp_setters.
  unfold bind at 1.
  erewrite process_datasets_run; [|reflexivity|reflexivity|exact Hs].
  simp_world.
  run. unfold stress_loaded. cbv zeta. cbn [app]. rewrite <- !app_assoc. reflexivity.
Qed.

(** *** [loadStressData] catches whatever its body throws *)

Lemma loadStressData_completes (paths : list string) (env : Environment) (w : World) :
  fst (loadStressData_from paths env w) = Normal tt.
Proof.
  unfold loadStressData_from, try_catch.
  match goal with |- context [let (_, _) := ?b w in _] => destruct (b w) as [[[]|e] w'] end.
  - reflexivity.
  - reflexivity.
Qed.

(** *** What every step of a loader keeps

    A relation between the world before and the world after that is
    reflexive and transitive is kept by a program as soon as its state
    changes keep it. *)

Section Preservation.

Variable R : World -> World -> Prop.
Hypothesis R_refl : forall w, R w w.
Hypothesis R_trans : forall a b c, R a b -> R b c -> R a c.

Definition preserves {A : Type} (m : M A) : Prop := forall w, R w (snd (m w)).

Lemma preserves_ret {A : Type} (a : A) : preserves (ret a).
Proof. intros w. apply R_refl. Qed.

Lemma preserves_throw {A : Type} (e : Exception) : preserves (@throw A e).
Proof. intros w. apply R_refl. Qed.

Lemma preserves_gets {A : Type} (f : World -> A) : preserves (gets f).
Proof. intros w. apply R_refl. Qed.

Lemma preserves_modify (f : World -> World) :
  (forall w, R w (f w)) -> preserves (modify f).
Proof. intros H w. apply H. Qed.

Lemma preserves_bind {A B : Type} (m : M A) (k : A -> M B) :
  preserves m -> (forall a, preserves (k a)) -> preserves (bind m k).
Proof.
  intros Hm Hk w. unfold bind. specialize (Hm w).
  destruct (m w) as [[a|e] w']; cbn [snd] in *.
  - eapply R_trans; [exact Hm|apply Hk].
  - exact Hm.
Qed.

Lemma preserves_try_catch {A : Type} (body : M A) (handler : Exception -> M A) :
  preserves body -> (forall e, preserves (handler e)) -> preserves (try_catch body handler).
Proof.
  intros Hb Hh w. unfold try_catch. specialize (Hb w).
  destruct (body w) as [[a|e] w']; cbn [snd] in *.
  - exact Hb.
  - eapply R_trans; [exact Hb|apply Hh].
Qed.

Lemma preserves_forEach_from {A : Type} (xs : list A) (f : A -> nat -> M unit) (i : nat) :
  (forall x j, preserves (f x j)) -> preserves (forEach_from i xs f).
Proof.
  intros Hf. revert i. induction xs as [|x xs IH]; intros i; cbn [forEach_from].
  - apply preserves_ret.
  - apply preserves_bind; [apply Hf|intros _; apply IH].
Qed.

Lemma preserves_await {A : Type} (p : Promise A) : preserves (await p).
Proof. unfold await. destruct (outcome p); [apply preserves_ret|apply preserves_throw]. Qed.

Lemma preserves_await_all {A : Type} (ps : list (Promise A)) : preserves (await_all ps).
Proof.
  unfold await_all. destruct (Promise_all ps); [apply preserves_ret|apply preserves_throw].
Qed.

(** The state changes of the loaders. *)
Hypothesis R_emit : forall e w, R w (emit e w).
Hypothesis R_status : forall s w, R w (set_status s w).
Hypothesis R_loading_false : forall w, R w (set_loading false w).
Hypothesis R_new : forall w, R w (set_lastId (S (lastId w)) w).
Hypothesis R_stress : forall ls w, R w (set_stressLayersRef ls w).
Hypothesis R_control : forall c w, R w (set_layerControlRef (Some c) w).
Hypothesis R_removeLayer : forall m layer w,
    mapRef w = Some m -> R w (set_mapRef (Some (L.removeLayer m layer)) w).
Hypothesis R_addLayer : forall m layer w,
    mapRef w = Some m -> R w (set_mapRef (Some (L.addLayer m layer)) w).

Lemma preserves_setStatus (s : string) : preserves (setStatus s).
Proof.
  intros w. unfold setStatus, modify. cbn [snd].
  eapply R_trans; [apply R_status|apply R_emit].
Qed.

Lemma preserves_setLoading_false : preserves (setLoading false).
Proof.
  intros w. unfold setLoading, modify. cbn [snd].
  eapply R_trans; [apply R_loading_false|apply R_emit].
Qed.

Lemma preserves_console (method : string) (text : Template) : preserves (console method text).
Proof. intros w. apply R_emit. Qed.

Lemma preserves_new_layer (c : LayerContent) : preserves (new_layer c).
Proof. intros w. unfold new_layer, bind, gets, modify, ret. cbn [snd]. apply R_new. Qed.

Lemma preserves_fetch_each (env : Environment) (paths : list string) :
  preserves (fetch_each env paths).
Proof.
  induction paths as [|url rest IH]; cbn [fetch_each].
  - apply preserves_ret.
  - apply preserves_bind.
    + unfold fetch. apply preserves_bind; [intros w; apply R_emit|intros _; apply preserves_ret].
    + intros p. apply preserves_bind; [exact IH|intros ps; apply preserves_ret].
Qed.

Lemma preserves_with_control (method : string) (f : LControl -> LControl) :
  preserves (with_control method f).
Proof.
  intros w. unfold with_control, bind, gets, modify, throw.
  destruct (layerControlRef w); cbn [snd]; [apply R_control|apply R_refl].
Qed.

Lemma preserves_remove_stress_layer (layer : Layer) (i : nat) :
  preserves (remove_stress_layer layer i).
Proof.
  unfold remove_stress_layer. apply preserves_bind.
  - intros w. unfold with_map, bind, gets, modify, throw.
    destruct (mapRef w) eqn:E; cbn [snd]; [apply R_removeLayer, E|apply R_refl].
  - intros _. apply preserves_with_control.
Qed.

Lemma preserves_process_dataset (d : GeoJSON) (i : nat) : preserves (process_dataset d i).
Proof.
  unfold process_dataset. apply preserves_bind; [apply preserves_console|intros _].
  apply preserves_bind.
  - unfold L_geoJSON. destruct (add_features _ _ _); [|apply preserves_throw].
    apply preserves_new_layer.
  - intros layer. apply preserves_bind.
    + destruct (bool_decide _); [|apply preserves_ret].
      intros w. unfold with_map, bind, gets, modify, throw.
      destruct (mapRef w) eqn:E; cbn [snd]; [apply R_addLayer, E|apply R_refl].
    + intros _. apply preserves_bind; [apply preserves_with_control|intros _].
      apply preserves_modify. intros w. apply R_stress.
Qed.

Lemma preserves_loadStressData (paths : list string) (env : Environment) :
  preserves (loadStressData_from paths env).
Proof.
  unfold loadStressData_from. apply preserves_try_catch.
  - apply preserves_bind; [apply preserves_setStatus|intros _].
    apply preserves_bind; [apply preserves_fetch_each|intros promises].
    apply preserves_bind; [apply preserves_await_all|intros responses].
    apply preserves_bind; [apply preserves_await_all|intros jsonData].
    apply preserves_bind; [apply preserves_gets|intros previous].
    apply preserves_bind;
      [apply preserves_forEach_from; intros; apply preserves_remove_stress_layer|intros _].
    apply preserves_bind; [apply preserves_modify; intros w; apply R_stress|intros _].
    apply preserves_bind;
      [apply preserves_forEach_from; intros; apply preserves_process_dataset|intros _].
    apply preserves_bind; [apply preserves_setStatus|intros _].
    apply preserves_setLoading_false.
  - intros e. apply preserves_bind; [apply preserves_console|intros _].
    apply preserves_setStatus.
Qed.

End Preservation.

(** The vector loader never moves the viewport, never shortens the trace,
    never lowers the stamp counter, and never turns the loading flag back
    on. *)
Definition extends (w w' : World) : Prop :=
  viewport <$> mapRef w' = viewport <$> mapRef w /\
  log w `prefix_of` log w' /\
  lastId w <= lastId w' /\
  (loading w = false -> loading w' = false).

Lemma extends_refl (w : World) : extends w w.
Proof. unfold extends. repeat split; auto. Qed.

Lemma extends_trans (a b c : World) : extends a b -> extends b c -> extends a c.
Proof.
  unfold extends. intros (V1 & L1 & N1 & B1) (V2 & L2 & N2 & B2). repeat split.
  - congruence.
  - etrans; eassumption.
  - lia.
  - auto.
Qed.

Lemma loadStressData_extends (paths : list string) (env : Environment) (w : World) :
  extends w (snd (loadStressData_from paths env w)).
Proof.
  apply (preserves_loadStressData extends extends_refl extends_trans); clear;
    unfold extends, emit, set_status, set_loading, set_lastId, set_stressLayersRef,
      set_layerControlRef, set_mapRef; intros; cbn;
    repeat split; auto; try lia; try (apply prefix_app_r; reflexivity).
  - rewrite H. reflexivity.
  - rewrite H. unfold L.addLayer. destruct (L.hasLayer _ _); reflexivity.
Qed.

(** *** The raster loader *)

Definition raster_url : string := "/optimized_sample.tif".

(** The raster stage fails with [e]: the fetch is rejected, the response is
    not a success, its body cannot be read, or the bytes do not parse. *)
Inductive raster_fails (env : Environment) : Exception -> Prop :=
| fails_fetch (e : Exception) :
    outcome (fetch_result env raster_url) = Rejected e -> raster_fails env e
| fails_status (r : Response) :
    outcome (fetch_result env raster_url) = Fulfilled r -> ok r = false ->
    raster_fails env (Error ("Failed to fetch GeoTIFF: " +:+ statusText r))
| fails_read (r : Response) (e : Exception) :
    outcome (fetch_result env raster_url) = Fulfilled r -> ok r = true ->
    outcome (arrayBuffer r) = Rejected e -> raster_fails env e
| fails_decode (r : Response) (buffer : ArrayBuffer) (e : Exception) :
    outcome (fetch_result env raster_url) = Fulfilled r -> ok r = true ->
    outcome (arrayBuffer r) = Fulfilled buffer ->
    outcome (parseGeoraster_result env buffer) = Rejected e -> raster_fails env e.

(** The raster is fetched with a success status, read and parsed. *)
Definition raster_decodes (env : Environment) (buffer : ArrayBuffer) (g : GeoRaster) : Prop :=
  exists r, outcome (fetch_result env raster_url) = Fulfilled r /\ ok r = true /\
            outcome (arrayBuffer r) = Fulfilled buffer /\
            outcome (parseGeoraster_result env buffer) = Fulfilled g.

(** The bounds the viewport is fitted to, if any. *)
Definition valid_bounds (g : GeoRaster) : option LatLngBounds :=
  match bounds g with
  | Some b => if isValid b then Some b else None
  | None => None
  end.

Definition raster_layer (w : World) (g : GeoRaster) : Layer :=
  mkLayer (S (lastId w)) (GeoRasterLayer g lit_0_7 256).

(** The world at line 88, after a raster stage that went through. *)
Definition raster_loaded (buffer : ArrayBuffer) (g : GeoRaster) (m : LMap) (control : LControl)
    (w : World) : World :=
  let m1 := L.addLayer m (raster_layer w g) in
  mkWorld (Some (match valid_bounds g with Some b => mkMap (_layers m1) (Fit b) | None => m1 end))
          (Some (L.addOverlay control (raster_layer w g) "GeoTIFF Base Layer"))
          (stressLayersRef w)
          (match valid_bounds g with
           | Some _ => "GeoTIFF displayed successfully"
           | None => "GeoTIFF loaded, but no valid bounds"
           end)
          (loading w) (S (lastId w))
          (log w ++ [StatusSet "Fetching GeoTIFF file..."; Requested raster_url;
                     Console "log" [Lit "GeoTIFF file loaded, size:"; Lit (pretty (length buffer));
                                    Lit "bytes"];
                     StatusSet "Parsing GeoTIFF data...";
                     Console "log" [Lit "GeoRaster parsed:"];
                     StatusSet "Creating GeoTIFF layer...";
                     Console "log" [Lit "Layer added to map"]]
                 ++ match valid_bounds g with
                    | Some _ => [StatusSet "GeoTIFF displayed successfully"]
                    | None => [Console "warn" [Lit "Invalid bounds, could not zoom map"];
                               StatusSet "GeoTIFF loaded, but no valid bounds"]
                    end).

Lemma loadGeoTIFF_raster_loaded (env : Environment) (w : World) (buffer : ArrayBuffer)
    (g : GeoRaster) (m : LMap) (control : LControl) :
  raster_decodes env buffer g ->
  mapRef w = Some m -> layerControlRef w = Some control ->
  loadGeoTIFF_raster env w = (Normal tt, raster_loaded buffer g m control w).
Proof.
  intros (r & Hr & Hok & Hbuf & Hg) Hm Hc.
  unfold loadGeoTIFF_raster. fold raster_url.
  unfold bind at 1. unfold setStatus at 1. unfold modify at 1. simp_setters.
  unfold bind at 1. unfold fetch at 1. unfold bind at 1. unfold modify at 1. simp_setters.
  unfold ret at 1.
  unfold bind at 1. unfold await at 1. rewrite Hr. unfold ret at 1.
  rewrite Hok. cbn [negb].
  unfold bind at 1. unfold await at 1. rewrite Hbuf. unfold ret at 1.
  unfold bind at 1. unfold console at 1. unfold modify at 1. simp_setters.
  unfold bind at 1. unfold setStatus at 1. unfold modify at 1. simp_setters.
  unfold bind at 1. unfold await at 1. rewrite Hg. unfold ret at 1.
  unfold bind at 1. unfold console at 1. unfold modify at 1. simp_setters.
  unfold bind at 1. unfold setStatus at 1. unfold modify at 1. simp_setters.
  unfold bind at 1. unfold new_layer at 1. unfold bind at 1 2. unfold gets at 1.
  unfold modify at 1. unfold ret at 1. simp_setters.
  unfold bind at 1. unfold with_map at 1. unfold bind at 1. unfold gets at 1. simp_world.
  rewrite Hm. unfold modify at 1. simp_setters.
  unfold bind at 1. unfold with_control at 1. unfold bind at 1. unfold gets at 1. simp_world.
  rewrite Hc. unfold modify at 1. simp_setters.
  unfold bind at 1. unfold console at 1. unfold modify at 1. simp_setters.
  unfold raster_loaded, valid_bounds, raster_layer. cbv zeta.
  destruct (bounds g) as [b|]; [destruct (isValid b)|]; run; simp_setters;
    rewrite <- !app_assoc; reflexivity.
Qed.

Lemma loadGeoTIFF_after_raster (env : Environment) (w wr : World) :
  loadGeoTIFF_raster env w = (Normal tt, wr) ->
  loadGeoTIFF env w = (Normal tt, snd (loadStressData env wr)).
Proof.
  intros H. unfold loadGeoTIFF, try_catch, bind. rewrite H.
  pose proof (loadStressData_completes urls env wr) as Hc. unfold loadStressData in *.
  destruct (loadStressData_from urls env wr) as [c w']. cbn [fst snd] in *. subst c.
  reflexivity.
Qed.

(** The world after a raster stage that failed: [between] are the events
    between the request and the failure. *)
Definition raster_failed (e : Exception) (between : list Event) (w : World) : World :=
  mkWorld (mapRef w) (layerControlRef w) (stressLayersRef w)
          ("Error: " +:+ message e) (loading w) (lastId w)
          (log w ++ [StatusSet "Fetching GeoTIFF file..."; Requested raster_url] ++ between
                 ++ [Console "error" [Lit "Error loading GeoTIFF:"; Lit (message e)];
                     StatusSet ("Error: " +:+ message e)]).

Lemma loadGeoTIFF_failed (env : Environment) (w : World) (e : Exception) :
  raster_fails env e ->
  exists between,
    loadGeoTIFF env w = (Normal tt, raster_failed e between w) /\
    (between = [] \/
     exists n : nat, between = [Console "log" [Lit "GeoTIFF file loaded, size:"; Lit (pretty n);
                                         Lit "bytes"];
                          StatusSet "Parsing GeoTIFF data..."]).
Proof.
  intros H. unfold loadGeoTIFF, loadGeoTIFF_raster. fold raster_url.
  unfold try_catch. unfold bind at 1 2. unfold setStatus at 1. unfold modify at 1. simp_setters.
  unfold bind at 1. unfold fetch at 1. unfold bind at 1. unfold modify at 1. simp_setters.
  unfold ret at 1. unfold bind at 1. unfold await at 1.
  destruct H as [e Hr|r Hr Hok|r e Hr Hok Hbuf|r buffer e Hr Hok Hbuf Hg]; rewrite Hr.
  - exists []. split; [|left; reflexivity].
    run. simp_setters. unfold raster_failed. rewrite <- !app_assoc. reflexivity.
  - exists []. split; [|left; reflexivity].
    unfold ret at 1. rewrite Hok. cbn [negb].
    run. simp_setters. unfold raster_failed. rewrite <- !app_assoc. reflexivity.
  - exists []. split; [|left; reflexivity].
    unfold ret at 1. rewrite Hok. cbn [negb].
    unfold bind at 1. unfold await at 1. rewrite Hbuf.
    run. simp_setters. unfold raster_failed. rewrite <- !app_assoc. reflexivity.
  - eexists. split; [|right; exists (length buffer); reflexivity].
    unfold ret at 1. rewrite Hok. cbn [negb].
    unfold bind at 1. unfold await at 1. rewrite Hbuf. unfold ret at 1.
    unfold bind at 1. unfold console at 1. unfold modify at 1. simp_setters.
    unfold bind at 1. unfold setStatus at 1. unfold modify at 1. simp_setters.
    unfold bind at 1. unfold await at 1. rewrite Hg.
    run. simp_setters. unfold raster_failed. rewrite <- !app_assoc. reflexivity.
Qed.

(** * The loaders' properties *)

(** ** What the environment answers *)

(** Each path is answered by a response whose body parses to the dataset at
    the same position. *)
Definition answers (env : Environment) (paths : list string) (datasets : list GeoJSON) : Prop :=
  Forall2 (fun url d => exists r, outcome (fetch_result env url) = Fulfilled r /\
                                  outcome (json r) = Fulfilled d) paths datasets.

Lemma answers_Promise_all (env : Environment) (paths : list string) (datasets : list GeoJSON) :
  answers env paths datasets ->
  exists responses,
    Promise_all (map (fetch_result env) paths) = Fulfilled responses /\
    Promise_all (map json responses) = Fulfilled datasets.
Proof.
  intros H. induction H as [|url d paths datasets (r & Hr & Hd) _ (rs & IH1 & IH2)].
  - exists []. split; reflexivity.
  - exists (r :: rs). apply Promise_all_fulfilled in IH1, IH2. cbn [map].
    split; apply Promise_all_fulfilled; constructor; assumption.
Qed.

Lemma answers_length (env : Environment) (paths : list string) (datasets : list GeoJSON) :
  answers env paths datasets -> length datasets = length paths.
Proof. intros H. symmetry. eapply Forall2_length, H. Qed.

(** A feature that carries a numeric stress value. *)
Definition numeric (f : Feature) : Prop :=
  exists p v, properties f = Some p /\ value p = Some v.

(** A body whose every feature carries a numeric stress value. *)
Definition renderable (d : GeoJSON) : Prop := Forall numeric (geoJSON_features d).

Lemma add_feature_numeric (i : nat) (f : Feature) :
  numeric f ->
  exists o popup, style f = Normal o /\ onEachFeature i f = Normal popup /\
                  add_feature style (onEachFeature i) f = Normal (mkSubLayer f o popup).
Proof.
  intros (p & v & Hp & Hv).
  assert (Hs : exists o, style f = Normal o).
  { unfold style. rewrite Hp. destruct (_ <=? _)%float; eauto. }
  assert (Ho : exists popup, onEachFeature i f = Normal popup).
  { unfold onEachFeature. rewrite Hp, Hv. eauto. }
  destruct Hs as [o Hs], Ho as [popup Ho]. exists o, popup.
  split; [exact Hs|]. split; [exact Ho|]. unfold add_feature. rewrite Hs, Ho. reflexivity.
Qed.

Lemma add_features_numeric (i : nat) (fs : list Feature) :
  Forall numeric fs ->
  exists subs, add_features style (onEachFeature i) fs = Normal subs /\
               map sub_feature subs = fs.
Proof.
  induction 1 as [|f fs Hf _ (subs & IH & Hsubs)].
  - exists []. split; reflexivity.
  - destruct (add_feature_numeric i f Hf) as (o & popup & _ & _ & Hadd).
    cbn [add_features]. rewrite Hadd, IH. eexists. split; [reflexivity|].
    cbn. rewrite Hsubs. reflexivity.
Qed.

Lemma renderable_sublayers (i : nat) (datasets : list GeoJSON) :
  Forall renderable datasets ->
  exists sss, sublayers_from i datasets = Normal sss /\ length sss = length datasets.
Proof.
  intros H. revert i. induction H as [|d ds Hd _ IH]; intros i.
  - exists []. split; reflexivity.
  - cbn [sublayers_from]. destruct (add_features_numeric i _ Hd) as (subs & -> & _).
    destruct (IH (S i)) as (sss & -> & Hl). exists (subs :: sss). split; [reflexivity|].
    cbn. rewrite Hl. reflexivity.
Qed.

(** ** Stamps *)

(** Every stamp in use on the map or in the control was handed out by the
    counter. *)
Definition stamps_bounded (w : World) : Prop :=
  (forall m, mapRef w = Some m -> forall id, is_Some (_layers m !! id) -> id <= lastId w) /\
  (forall c, layerControlRef w = Some c ->
             Forall (fun e => _leaflet_id (entry_layer e) <= lastId w) c).

Lemma removeLayers_lookup (m : LMap) (layers : list Layer) (id : nat) :
  _layers (foldl L.removeLayer m layers) !! id =
    if bool_decide (id ∈ map _leaflet_id layers) then None else _layers m !! id.
Proof.
  revert m. induction layers as [|l ls IH]; intros m; cbn [foldl map].
  - rewrite bool_decide_eq_false_2; [reflexivity|]. apply not_elem_of_nil.
  - rewrite IH. unfold L.removeLayer. cbn [_layers].
    destruct (decide (id = _leaflet_id l)) as [->|Hne].
    + rewrite lookup_delete_eq.
      rewrite (bool_decide_eq_true_2 (_ ∈ _ :: _)); [|apply elem_of_cons; left; reflexivity].
      destruct (bool_decide _); reflexivity.
    + rewrite lookup_delete_ne by congruence.
      destruct (bool_decide (id ∈ map _leaflet_id ls)) eqn:E.
      * apply bool_decide_eq_true in E.
        rewrite bool_decide_eq_true_2; [reflexivity|]. apply elem_of_cons. right. exact E.
      * apply bool_decide_eq_false in E.
        rewrite bool_decide_eq_false_2; [reflexivity|].
        rewrite elem_of_cons. intros [?|?]; contradiction.
Qed.

Lemma removeLayers_viewport (m : LMap) (layers : list Layer) :
  viewport (foldl L.removeLayer m layers) = viewport m.
Proof. revert m. induction layers as [|l ls IH]; intros m; cbn; [reflexivity|]. rewrite IH. reflexivity. Qed.

Lemma control_removeLayer_sub (c : LControl) (layer : Layer) (P : ControlEntry -> Prop) :
  Forall P c -> Forall P (L.control_removeLayer c layer).
Proof.
  induction 1 as [|e c He Hc IH]; cbn; [constructor|].
  destruct (bool_decide _); [assumption|]. constructor; assumption.
Qed.

Lemma control_removeLayers_sub (c : LControl) (layers : list Layer) (P : ControlEntry -> Prop) :
  Forall P c -> Forall P (foldl L.control_removeLayer c layers).
Proof.
  revert c. induction layers as [|l ls IH]; intros c H; cbn; [assumption|].
  apply IH, control_removeLayer_sub, H.
Qed.

(** Removing a layer that has no row before [e]'s row drops that row. *)
Lemma control_removeLayer_app (c rest : LControl) (e : ControlEntry) (layer : Layer) :
  Forall (fun x => _leaflet_id (entry_layer x) <> _leaflet_id layer) c ->
  _leaflet_id (entry_layer e) = _leaflet_id layer ->
  L.control_removeLayer (c ++ e :: rest) layer = c ++ rest.
Proof.
  intros H He. induction H as [|x c Hx _ IH]; cbn.
  - rewrite bool_decide_eq_true_2 by exact He. reflexivity.
  - rewrite bool_decide_eq_false_2 by exact Hx. rewrite IH. reflexivity.
Qed.

Lemma stress_layers_length (n : nat) (sss : list (list SubLayer)) :
  length (stress_layers n sss) = length sss.
Proof. unfold stress_layers. apply length_imap. Qed.

Lemma stress_layers_lookup (n : nat) (sss : list (list SubLayer)) (k : nat) (layer : Layer) :
  stress_layers n sss !! k = Some layer ->
  _leaflet_id layer = n + 1 + k.
Proof.
  unfold stress_layers. rewrite list_lookup_imap.
  destruct (sss !! k); cbn; [|discriminate]. intros [= <-]. reflexivity.
Qed.

Lemma stress_layers_stamps (n : nat) (sss : list (list SubLayer)) :
  Forall (fun layer => n < _leaflet_id layer <= n + length sss) (stress_layers n sss).
Proof.
  apply Forall_lookup. intros k layer H.
  pose proof (stress_layers_lookup _ _ _ _ H) as Hid.
  apply lookup_lt_Some in H. rewrite stress_layers_length in H. lia.
Qed.

(** The rows appended for freshly stamped layers are the rows removed when
    those layers are dropped again. *)
Lemma control_remove_stress_entries (c : LControl) (n i : nat) (sss : list (list SubLayer)) :
  Forall (fun e => _leaflet_id (entry_layer e) <= n) c ->
  foldl L.control_removeLayer (c ++ stress_entries i (stress_layers n sss)) (stress_layers n sss)
  = c.
Proof.
  revert c n i. induction sss as [|subs sss IH]; intros c n i Hc.
  - cbn. apply app_nil_r.
  - rewrite stress_layers_cons, stress_entries_cons. cbn [foldl].
    rewrite control_removeLayer_app.
    + apply IH. eapply Forall_impl; [exact Hc|]. intros e He. cbn in He. lia.
    + eapply Forall_impl; [exact Hc|]. intros e He. cbn in *. lia.
    + reflexivity.
Qed.

(** ** The properties of the specification *)

(** The fetch of [url] is rejected. *)
Definition fetch_fails (env : Environment) (url : string) : Prop :=
  exists e, outcome (fetch_result env url) = Rejected e.

(** The fetch of [url] is answered, and the body does not parse as JSON. *)
Definition parse_fails (env : Environment) (url : string) : Prop :=
  exists r e, outcome (fetch_result env url) = Fulfilled r /\ outcome (json r) = Rejected e.

Lemma Forall2_fulfilled_In (env : Environment) (paths : list string) (rs : list Response)
    (url : string) :
  Forall2 (fun p x => outcome p = Fulfilled x) (map (fetch_result env) paths) rs ->
  In url paths ->
  exists r, outcome (fetch_result env url) = Fulfilled r /\ In r rs.
Proof.
  revert rs. induction paths as [|u paths IH]; intros rs H Hin; [destruct Hin|].
  cbn [map] in H. inversion H as [|p r ps rs' Hp Hrest]; subst.
  destruct Hin as [->|Hin].
  - exists r. split; [exact Hp|left; reflexivity].
  - destruct (IH _ Hrest Hin) as (r' & ? & ?). exists r'. split; [assumption|right; assumption].
Qed.

(** C3. If the fetch of one of the paths is rejected, or its body does not
    parse, the vector loader changes neither the map, nor the layers control,
    nor its list of overlays, nor the loading flag: whatever layer was on the
    map is still on it, and the status is an error message carrying the
    failure's message. *)
Theorem stress_load_all_or_nothing (paths : list string) (env : Environment) (w : World)
    (url : string) :
  In url paths -> fetch_fails env url \/ parse_fails env url ->
  let w' := snd (loadStressData_from paths env w) in
  mapRef w' = mapRef w /\
  layerControlRef w' = layerControlRef w /\
  stressLayersRef w' = stressLayersRef w /\
  loading w' = loading w /\
  (exists e, status w' = "Error loading stress data: " +:+ message e) /\
  (forall m layer, mapRef w = Some m -> L.hasLayer m layer = true ->
                   exists m', mapRef w' = Some m' /\ L.hasLayer m' layer = true).
Proof.
  intros Hin Hfail.
  assert (H : exists e, loadStressData_from paths env w = (Normal tt, stress_failed paths e w)).
  { destruct (Promise_all (map (fetch_result env) paths)) as [rs|e] eqn:E1.
    - pose proof E1 as F. apply Promise_all_fulfilled in F.
      destruct (Forall2_fulfilled_In _ _ _ _ F Hin) as (r & Hr & Hrs).
      destruct Hfail as [[e He]|(r' & e & Hr' & He)]; [congruence|].
      assert (r' = r) by congruence. subst r'.
      destruct (Promise_all_rejected (map json rs) (json r) e) as (e' & E2 & _).
      + apply in_map, Hrs.
      + exact He.
      + exists e'. eapply loadStressData_parse_rejected; eassumption.
    - exists e. apply loadStressData_fetch_rejected, E1. }
  destruct H as [e H]. cbv zeta. rewrite H. cbn [snd stress_failed mapRef layerControlRef
    stressLayersRef loading status].
  repeat split; try reflexivity.
  - exists e. reflexivity.
  - intros m layer Hm Hl. exists m. split; assumption.
Qed.

(** An instance: the second path's body is not JSON. *)
Definition env_second_body_broken : Environment :=
  mkEnvironment
    (fun url =>
       mkPromise 1 (Fulfilled (mkResponse true "OK" (mkPromise 2 (Fulfilled []))
         (if String.eqb url "/stress_sample_2.json"
          then mkPromise 3 (Rejected (mkException "SyntaxError" "Unexpected token <"))
          else mkPromise 2 (Fulfilled (FeatureCollection []))))))
    (fun _ => mkPromise 1 (Rejected (Error "not a raster"))).

Lemma stress_load_all_or_nothing_witness :
  let w' := snd (loadStressData env_second_body_broken mount) in
  mapRef w' = mapRef mount /\ layerControlRef w' = layerControlRef mount /\
  stressLayersRef w' = stressLayersRef mount /\ loading w' = loading mount.
Proof.
  destruct (stress_load_all_or_nothing urls env_second_body_broken mount "/stress_sample_2.json")
    as (H1 & H2 & H3 & H4 & _).
  - right. left. reflexivity.
  - right. eexists _, _. split; reflexivity.
  - repeat split; assumption.
Defined.

(** C4. If the raster fetch is rejected, answered with a non-success status,
    or the body cannot be read or parsed, [loadGeoTIFF] ends with the status
    "Error: " followed by the failure's message (for a non-success status:
    "Failed to fetch GeoTIFF: " and the status text); the vector loader is
    not entered (no request for a stress path goes out and its first status
    is never set), the only request of the run is the one for the raster,
    and the map, the control, the overlays and the loading flag are as
    before. *)
Theorem raster_failure_stops (env : Environment) (w : World) (e : Exception) :
  raster_fails env e ->
  let w' := snd (loadGeoTIFF env w) in
  status w' = "Error: " +:+ message e /\
  mapRef w' = mapRef w /\ layerControlRef w' = layerControlRef w /\
  stressLayersRef w' = stressLayersRef w /\ loading w' = loading w /\
  exists emitted,
    log w' = log w ++ emitted /\
    ~ In (StatusSet "Loading stress data...") emitted /\
    (forall url, In url urls -> ~ In (Requested url) emitted) /\
    (forall url, In (Requested url) emitted -> url = raster_url) /\
    List.filter is_request emitted = [Requested raster_url].
Proof.
  intros H. destruct (loadGeoTIFF_failed env w e H) as (between & Hrun & Hb).
  cbv zeta. rewrite Hrun. cbn [snd raster_failed status mapRef layerControlRef stressLayersRef
    loading log].
  repeat (split; [reflexivity|]).
  eexists. split; [reflexivity|].
  destruct Hb as [->|[n ->]]; cbn [app In]; repeat split.
  all: try (intros Hin; intuition discriminate).
  all: try (intros url Hu Hin; unfold urls in Hu; cbn [In] in Hu;
            intuition (subst; discriminate)).
  all: try (intros url Hin; intuition (try discriminate); congruence).
Qed.

(** A raster answered with 404. *)
Definition response_404 : Response :=
  mkResponse false "Not Found" (mkPromise 2 (Fulfilled []))
             (mkPromise 2 (Fulfilled (FeatureCollection []))).

Definition env_raster_404 : Environment :=
  mkEnvironment (fun url => mkPromise 1 (Fulfilled response_404))
                (fun _ => mkPromise 3 (Fulfilled (mkGeoRaster None None))).

Lemma raster_failure_stops_witness :
  status (snd (loadGeoTIFF env_raster_404 mount)) = "Error: Failed to fetch GeoTIFF: Not Found".
Proof.
  exact (proj1 (raster_failure_stops env_raster_404 mount _
                  (fails_status env_raster_404 response_404 eq_refl eq_refl))).
Defined.

Lemma raster_loaded_fitted (buffer : ArrayBuffer) (g : GeoRaster) (m : LMap)
    (control : LControl) (w : World) (b : LatLngBounds) :
  valid_bounds g = Some b ->
  let wr := raster_loaded buffer g m control w in
  viewport <$> mapRef wr = Some (Fit b) /\
  status wr = "GeoTIFF displayed successfully" /\
  In (StatusSet "GeoTIFF displayed successfully") (log wr).
Proof.
  intros H. unfold raster_loaded. cbv zeta. rewrite H. cbn [mapRef status log].
  repeat split. apply in_or_app. right. apply in_or_app. right. left. reflexivity.
Qed.

Lemma raster_loaded_unfitted (buffer : ArrayBuffer) (g : GeoRaster) (m : LMap)
    (control : LControl) (w : World) :
  valid_bounds g = None ->
  let wr := raster_loaded buffer g m control w in
  viewport <$> mapRef wr = Some (viewport m) /\
  status wr = "GeoTIFF loaded, but no valid bounds" /\
  In (StatusSet "GeoTIFF loaded, but no valid bounds") (log wr).
Proof.
  intros H. unfold raster_loaded. cbv zeta. rewrite H. cbn [mapRef status log].
  repeat split.
  - cbn. unfold L.addLayer. destruct (L.hasLayer _ _); reflexivity.
  - apply in_or_app. right. apply in_or_app. right. right. left. reflexivity.
Qed.

(** C6. After a raster that was fetched and parsed: when the layer reports
    valid bounds, the viewport is fitted to them and the status is set to
    "GeoTIFF displayed successfully"; otherwise the viewport stays as it was
    and the status is set to "GeoTIFF loaded, but no valid bounds".  This is
    the state at the end of the raster stage (line 88); the vector loader
    that runs next leaves the viewport there. *)
Theorem raster_viewport (env : Environment) (w : World) (m : LMap) (control : LControl)
    (buffer : ArrayBuffer) (g : GeoRaster) :
  raster_decodes env buffer g -> mapRef w = Some m -> layerControlRef w = Some control ->
  let wr := snd (loadGeoTIFF_raster env w) in
  let w' := snd (loadGeoTIFF env w) in
  (forall b, bounds g = Some b -> isValid b = true ->
     viewport <$> mapRef wr = Some (Fit b) /\
     status wr = "GeoTIFF displayed successfully" /\
     viewport <$> mapRef w' = Some (Fit b) /\
     In (StatusSet "GeoTIFF displayed successfully") (log w')) /\
  (bounds g = None \/ (exists b, bounds g = Some b /\ isValid b = false) ->
     viewport <$> mapRef wr = Some (viewport m) /\
     status wr = "GeoTIFF loaded, but no valid bounds" /\
     viewport <$> mapRef w' = Some (viewport m) /\
     In (StatusSet "GeoTIFF loaded, but no valid bounds") (log w')).
Proof.
  intros Hd Hm Hc. cbv zeta.
  pose proof (loadGeoTIFF_raster_loaded env w buffer g m control Hd Hm Hc) as Hr.
  rewrite (loadGeoTIFF_after_raster _ _ _ Hr), Hr. cbn [snd].
  pose proof (loadStressData_extends urls env (raster_loaded buffer g m control w))
    as (Hv & Hl & _). fold (loadStressData env) in Hv, Hl.
  assert (Hin : forall ev, In ev (log (raster_loaded buffer g m control w)) ->
                           In ev (log (snd (loadStressData env (raster_loaded buffer g m control w))))).
  { intros ev H. apply list_elem_of_In. eapply elem_of_prefix; [|exact Hl].
    apply list_elem_of_In, H. }
  split.
  - intros b Hb Hvalid.
    assert (Hvb : valid_bounds g = Some b) by (unfold valid_bounds; rewrite Hb, Hvalid; reflexivity).
    destruct (raster_loaded_fitted buffer g m control w b Hvb) as (F1 & F2 & F3).
    rewrite Hv. auto.
  - intros Hno.
    assert (Hvb : valid_bounds g = None).
    { unfold valid_bounds. destruct Hno as [->|(b & -> & ->)]; reflexivity. }
    destruct (raster_loaded_unfitted buffer g m control w Hvb) as (F1 & F2 & F3).
    rewrite Hv. auto.
Qed.

(** The world once [Map] has created its map, base layer and control. *)
Definition mounted : World := snd (init_map mount).

Definition sample_bounds : LatLngBounds :=
  mkBounds (Some (mkLatLng 10 20)) (Some (mkLatLng 11 21)).

Definition sample_feature (v : float) : Feature :=
  mkFeature (Some (mkProperties (Some v) (Some "index"))).

(** An environment in which everything succeeds: a raster with valid bounds,
    a collection of two features for the first path and a single feature
    for the second. *)
Definition env_ok : Environment :=
  mkEnvironment
    (fun url =>
       mkPromise 1 (Fulfilled (mkResponse true "OK" (mkPromise 2 (Fulfilled []))
         (mkPromise 2 (Fulfilled
            (if String.eqb url "/stress_sample.json"
             then FeatureCollection [sample_feature 0.25; sample_feature 0.5]
             else SingleFeature (sample_feature 2)))))))
    (fun _ => mkPromise 3 (Fulfilled (mkGeoRaster (Some 0%float) (Some sample_bounds)))).

Definition env_ok_datasets : list GeoJSON :=
  [FeatureCollection [sample_feature 0.25; sample_feature 0.5]; SingleFeature (sample_feature 2)].

Lemma env_ok_decodes :
  raster_decodes env_ok [] (mkGeoRaster (Some 0%float) (Some sample_bounds)).
Proof. eexists. repeat split; reflexivity. Qed.

Lemma env_ok_answers : answers env_ok urls env_ok_datasets.
Proof. repeat constructor; eexists; split; reflexivity. Qed.

Lemma env_ok_renderable : Forall renderable env_ok_datasets.
Proof. repeat constructor; eexists _, _; split; reflexivity. Qed.

Lemma raster_viewport_witness :
  viewport <$> mapRef (snd (loadGeoTIFF env_ok mounted)) = Some (Fit sample_bounds).
Proof.
  pose proof (raster_viewport env_ok mounted _ _ [] _ env_ok_decodes eq_refl eq_refl) as H.
  cbv zeta in H. destruct H as [H _].
  destruct (H sample_bounds eq_refl eq_refl) as (_ & _ & H3 & _). exact H3.
Defined.

Lemma removed_above (m : LMap) (layers : list Layer) (n id : nat) :
  (forall i, is_Some (_layers m !! i) -> i <= n) -> n < id ->
  _layers (foldl L.removeLayer m layers) !! id = None.
Proof.
  intros Hb Hid. rewrite removeLayers_lookup. destruct (bool_decide _); [reflexivity|].
  destruct (_layers m !! id) eqn:E; [|reflexivity].
  specialize (Hb id ltac:(rewrite E; eauto)). lia.
Qed.

Lemma stress_entries_lookup (i k : nat) (layers : list Layer) (layer : Layer) :
  layers !! k = Some layer ->
  stress_entries i layers !! k
  = Some (mkEntry layer ("Stress Sample " +:+ pretty (i + k + 1)) true).
Proof. intros H. unfold stress_entries. rewrite list_lookup_imap, H. reflexivity. Qed.

(** C7. After a load that went through, the control has an overlay row for
    every overlay built, named after its position in the list of paths, and
    of all the overlays built only the first one is on the map. *)
Theorem first_overlay_visible (paths : list string) (env : Environment) (w : World)
    (m : LMap) (control : LControl) (datasets : list GeoJSON) :
  mapRef w = Some m -> layerControlRef w = Some control -> stamps_bounded w ->
  answers env paths datasets -> Forall renderable datasets ->
  let w' := snd (loadStressData_from paths env w) in
  exists m' control',
    mapRef w' = Some m' /\ layerControlRef w' = Some control' /\
    length (stressLayersRef w') = length paths /\
    forall k layer, stressLayersRef w' !! k = Some layer ->
      (L.hasLayer m' layer = true <-> k = 0) /\
      In (mkEntry layer ("Stress Sample " +:+ pretty (k + 1)) true) control'.
Proof.
  intros Hm Hc [Hbm _] Ha Hr.
  destruct (answers_Promise_all _ _ _ Ha) as (rs & P1 & P2).
  destruct (renderable_sublayers 0 _ Hr) as (sss & Hs & Hlen).
  cbv zeta. rewrite (loadStressData_loaded _ _ _ _ _ _ _ _ P1 P2 Hs Hm Hc).
  unfold stress_loaded. cbv zeta. cbn [snd mapRef layerControlRef stressLayersRef].
  eexists _, _. split; [reflexivity|]. split; [reflexivity|]. split.
  { rewrite stress_layers_length, Hlen. apply (answers_length _ _ _ Ha). }
  intros k layer Hk. split.
  - pose proof (stress_layers_lookup _ _ _ _ Hk) as Hid.
    set (m0 := foldl L.removeLayer m (stressLayersRef w)).
    assert (Hnone : forall id, lastId w < id -> _layers m0 !! id = None).
    { intros id Hlt. apply (removed_above m _ (lastId w)); [apply Hbm, Hm|exact Hlt]. }
    destruct (stress_layers (lastId w) sss) as [|l0 ls] eqn:El; [discriminate|].
    assert (H0 : _leaflet_id l0 = lastId w + 1 + 0).
    { apply (stress_layers_lookup (lastId w) sss 0). rewrite El. reflexivity. }
    cbn [map_with_first]. unfold L.addLayer, L.hasLayer.
    rewrite (bool_decide_eq_false_2 (is_Some (_layers m0 !! _leaflet_id l0)));
      [|rewrite Hnone by lia; intros [? ?]; discriminate].
    cbn [_layers]. rewrite bool_decide_eq_true. split.
    + intros [x Hx]. destruct (decide (k = 0)) as [|Hne]; [assumption|exfalso].
      rewrite lookup_insert_ne in Hx by lia. rewrite Hnone in Hx by lia. discriminate.
    + intros ->. cbn in Hk. injection Hk as <-. rewrite lookup_insert_eq. eauto.
  - apply in_or_app. right. apply list_elem_of_In.
    apply (list_elem_of_lookup_2 _ k). rewrite (stress_entries_lookup 0 k _ layer Hk).
    reflexivity.
Qed.

Lemma mounted_refs :
  exists base,
    mapRef mounted = Some (mkMap {[ 1 := base ]} (View (mkLatLng 0 0) 2)) /\
    layerControlRef mounted = Some [mkEntry base "OpenStreetMap" false] /\
    _leaflet_id base = 1 /\ lastId mounted = 1.
Proof.
  eexists. unfold mounted, init_map, mount. run. simp_setters.
  unfold L.addLayer, L.hasLayer, L.setView, L.control_layers. cbn [_layers viewport _leaflet_id].
  rewrite lookup_empty. rewrite bool_decide_eq_false_2 by (intros [? ?]; discriminate).
  rewrite insert_empty. repeat split; reflexivity.
Qed.

Lemma mounted_stamps_bounded : stamps_bounded mounted.
Proof.
  destruct mounted_refs as (base & Hm & Hc & Hb & Hn). split.
  - intros m Hm' id [x Hx]. rewrite Hm in Hm'. injection Hm' as <-. cbn in Hx.
    apply lookup_singleton_Some in Hx as [<- _]. rewrite Hn. lia.
  - intros c Hc'. rewrite Hc in Hc'. injection Hc' as <-.
    constructor; [|constructor]. cbn [entry_layer]. rewrite Hb, Hn. lia.
Qed.

Lemma first_overlay_visible_witness :
  length (stressLayersRef (snd (loadStressData env_ok mounted))) = 2.
Proof.
  destruct mounted_refs as (base & Hm & Hc & _).
  destruct (first_overlay_visible urls env_ok mounted _ _ env_ok_datasets Hm Hc
              mounted_stamps_bounded env_ok_answers env_ok_renderable)
    as (m' & c' & _ & _ & H & _).
  exact H.
Defined.

Lemma stress_layers_ids (n : nat) (sss : list (list SubLayer)) :
  map _leaflet_id (stress_layers n sss) = seq (n + 1) (length sss).
Proof.
  revert n. induction sss as [|subs sss IH]; intros n; [reflexivity|].
  rewrite stress_layers_cons. cbn [map length seq _leaflet_id].
  rewrite IH. replace (S n + 1) with (S (n + 1)) by lia. replace (n + 1) with (S n) by lia.
  reflexivity.
Qed.

Lemma stress_entries_layers (i : nat) (layers : list Layer) :
  map entry_layer (stress_entries i layers) = layers.
Proof.
  revert i. induction layers as [|l ls IH]; intros i; [reflexivity|].
  rewrite stress_entries_cons. cbn [map entry_layer]. rewrite IH. reflexivity.
Qed.

Lemma stress_entries_names (i : nat) (layers layers' : list Layer) :
  length layers = length layers' ->
  map entry_name (stress_entries i layers) = map entry_name (stress_entries i layers').
Proof.
  revert i layers'. induction layers as [|l ls IH]; intros i [|l' ls'] H; try discriminate;
    [reflexivity|].
  rewrite !stress_entries_cons. cbn [map entry_name]. f_equal. apply IH.
  cbn in H. lia.
Qed.

Lemma rows_of_none (c : LControl) (layer : Layer) :
  Forall (fun e => _leaflet_id (entry_layer e) <> _leaflet_id layer) c ->
  L.rows_of c layer = [].
Proof.
  induction 1 as [|e c He _ IH]; [reflexivity|].
  unfold L.rows_of in *. cbn [List.filter]. rewrite IH.
  destruct (Nat.eqb_spec (_leaflet_id (entry_layer e)) (_leaflet_id layer)); [contradiction|].
  reflexivity.
Qed.

Lemma rows_of_app (c c' : LControl) (layer : Layer) :
  L.rows_of (c ++ c') layer = L.rows_of c layer ++ L.rows_of c' layer.
Proof. unfold L.rows_of. apply List.filter_app. Qed.

(** Among rows of layers with distinct stamps, a layer has the one row that
    names it. *)
Lemma rows_of_unique (c : LControl) (e : ControlEntry) :
  NoDup (map (fun x => _leaflet_id (entry_layer x)) c) -> In e c ->
  L.rows_of c (entry_layer e) = [e].
Proof.
  induction c as [|x c IH]; intros Hnd Hin; [destruct Hin|].
  cbn [map] in Hnd. apply NoDup_cons in Hnd as [Hx Hnd].
  change (L.rows_of (x :: c) (entry_layer e)) with (L.rows_of ([x] ++ c) (entry_layer e)).
  rewrite rows_of_app. destruct Hin as [->|Hin].
  - rewrite (rows_of_none c).
    + unfold L.rows_of. cbn. rewrite Nat.eqb_refl. reflexivity.
    + apply Forall_forall. intros y Hy Heq. apply Hx. rewrite <- Heq.
      apply (list_elem_of_fmap_2 (fun x => _leaflet_id (entry_layer x))), Hy.
  - rewrite (IH Hnd Hin). unfold L.rows_of at 1. cbn [List.filter].
    destruct (Nat.eqb_spec (_leaflet_id (entry_layer x)) (_leaflet_id (entry_layer e))) as [Heq|];
      [|reflexivity].
    exfalso. apply Hx. rewrite Heq.
    apply (list_elem_of_fmap_2 (fun x => _leaflet_id (entry_layer x))), list_elem_of_In, Hin.
Qed.

Lemma addLayer_lookup_ne (m : LMap) (layer : Layer) (id : nat) :
  id <> _leaflet_id layer -> _layers (L.addLayer m layer) !! id = _layers m !! id.
Proof.
  intros H. unfold L.addLayer. destruct (L.hasLayer m layer); [reflexivity|].
  cbn [_layers]. apply lookup_insert_ne. congruence.
Qed.

Lemma map_with_first_lookup_ne (m : LMap) (layers : list Layer) (id : nat) :
  Forall (fun l => _leaflet_id l <> id) layers ->
  _layers (map_with_first 0 m layers) !! id = _layers m !! id.
Proof.
  intros H. destruct H as [|l ls Hl _]; [reflexivity|]. cbn [map_with_first].
  apply addLayer_lookup_ne. congruence.
Qed.

Lemma stress_loaded_bounded (paths : list string) (datasets : list GeoJSON)
    (sss : list (list SubLayer)) (m : LMap) (control : LControl) (w : World) :
  mapRef w = Some m -> layerControlRef w = Some control -> stamps_bounded w ->
  stamps_bounded (stress_loaded paths datasets sss m control w).
Proof.
  intros Hm Hc [Hbm Hbc]. unfold stress_loaded. cbv zeta. split.
  - intros m' Hm' id [x Hx]. cbn [mapRef lastId] in *.
    assert (E : m' = map_with_first 0 (foldl L.removeLayer m (stressLayersRef w))
                       (stress_layers (lastId w) sss)) by congruence.
    subst m'. clear Hm'.
    destruct (decide (id <= lastId w + length sss)) as [|Hgt]; [assumption|exfalso].
    rewrite map_with_first_lookup_ne in Hx.
    + rewrite (removed_above m _ (lastId w)) in Hx; [discriminate|apply Hbm, Hm|lia].
    + eapply Forall_impl; [apply stress_layers_stamps|]. cbn. intros. lia.
  - intros c' Hc'. cbn [layerControlRef lastId] in *.
    assert (E : c' = foldl L.control_removeLayer control (stressLayersRef w)
                     ++ stress_entries 0 (stress_layers (lastId w) sss)) by congruence.
    subst c'. clear Hc'.
    apply Forall_app. split.
    + apply control_removeLayers_sub. eapply Forall_impl; [apply Hbc, Hc|]. cbn. intros. lia.
    + apply Forall_forall. intros e He.
      assert (Hl : entry_layer e ∈ stress_layers (lastId w) sss).
      { rewrite <- (stress_entries_layers 0 (stress_layers (lastId w) sss)).
        apply list_elem_of_fmap_2, He. }
      pose proof (stress_layers_stamps (lastId w) sss) as Hs.
      rewrite Forall_forall in Hs. specialize (Hs _ Hl). lia.
Qed.

(** C5. Two loads in a row, both going through: after the second one the
    control holds the rows it had before the first load without those of
    the overlays then registered, followed by one overlay row per path;
    its row names are those it had after the first load; every overlay built
    by the second load has exactly one row; and the overlays of the first
    load are neither on the map nor in the control any more. *)
Theorem reload_replaces (paths : list string) (env1 env2 : Environment) (w : World)
    (m : LMap) (control : LControl) (datasets1 datasets2 : list GeoJSON) :
  mapRef w = Some m -> layerControlRef w = Some control -> stamps_bounded w ->
  answers env1 paths datasets1 -> Forall renderable datasets1 ->
  answers env2 paths datasets2 -> Forall renderable datasets2 ->
  let w1 := snd (loadStressData_from paths env1 w) in
  let w2 := snd (loadStressData_from paths env2 w1) in
  exists control1 control2 m2,
    layerControlRef w1 = Some control1 /\ layerControlRef w2 = Some control2 /\
    mapRef w2 = Some m2 /\
    control2 = foldl L.control_removeLayer control (stressLayersRef w)
               ++ stress_entries 0 (stressLayersRef w2) /\
    length (stressLayersRef w2) = length paths /\
    map entry_name control2 = map entry_name control1 /\
    (forall k layer, stressLayersRef w2 !! k = Some layer ->
       L.rows_of control2 layer
       = [mkEntry layer ("Stress Sample " +:+ pretty (k + 1)) true]) /\
    (forall layer, In layer (stressLayersRef w1) ->
       L.hasLayer m2 layer = false /\ L.rows_of control2 layer = []).
Proof.
  intros Hm Hc Hb Ha1 Hr1 Ha2 Hr2.
  destruct (answers_Promise_all _ _ _ Ha1) as (rs1 & P1 & Q1).
  destruct (renderable_sublayers 0 _ Hr1) as (sss1 & Hs1 & Hlen1).
  destruct (answers_Promise_all _ _ _ Ha2) as (rs2 & P2 & Q2).
  destruct (renderable_sublayers 0 _ Hr2) as (sss2 & Hs2 & Hlen2).
  pose proof (answers_length _ _ _ Ha1) as Hl1. pose proof (answers_length _ _ _ Ha2) as Hl2.
  cbv zeta. rewrite (loadStressData_loaded _ _ _ _ _ _ _ _ P1 Q1 Hs1 Hm Hc). cbn [snd].
  pose proof (stress_loaded_bounded paths datasets1 sss1 m control w Hm Hc Hb) as Hb1.
  set (w1 := stress_loaded paths datasets1 sss1 m control w) in *.
  set (c0 := foldl L.control_removeLayer control (stressLayersRef w)).
  set (layers1 := stress_layers (lastId w) sss1).
  assert (Hm1 : mapRef w1 = Some (map_with_first 0 (foldl L.removeLayer m (stressLayersRef w)) layers1))
    by reflexivity.
  assert (Hc1 : layerControlRef w1 = Some (c0 ++ stress_entries 0 layers1)) by reflexivity.
  assert (Hst1 : stressLayersRef w1 = layers1) by reflexivity.
  assert (Hn1 : lastId w1 = lastId w + length sss1) by reflexivity.
  rewrite (loadStressData_loaded _ _ _ _ _ _ _ _ P2 Q2 Hs2 Hm1 Hc1). cbn [snd].
  unfold stress_loaded. cbv zeta.
  cbn [mapRef layerControlRef stressLayersRef].
  rewrite Hst1, Hn1.
  set (layers2 := stress_layers (lastId w + length sss1) sss2).
  assert (Hc0 : Forall (fun e => _leaflet_id (entry_layer e) <= lastId w) c0).
  { apply control_removeLayers_sub. destruct Hb as [_ Hbc]. apply Hbc, Hc. }
  assert (Hrm : foldl L.control_removeLayer (c0 ++ stress_entries 0 layers1) layers1 = c0)
    by (apply control_remove_stress_entries, Hc0).
  rewrite Hrm.
  pose proof (stress_layers_stamps (lastId w) sss1) as Hid1. fold layers1 in Hid1.
  pose proof (stress_layers_stamps (lastId w + length sss1) sss2) as Hid2. fold layers2 in Hid2.
  rewrite Forall_forall in Hid1, Hid2.
  eexists _, _, _. split; [reflexivity|]. split; [reflexivity|]. split; [reflexivity|].
  split; [reflexivity|]. split.
  { unfold layers2. rewrite stress_layers_length. lia. }
  split.
  { rewrite !map_app. f_equal. apply stress_entries_names.
    unfold layers1, layers2. rewrite !stress_layers_length. lia. }
  split.
  - intros k layer Hk. rewrite rows_of_app, (rows_of_none c0).
    + pose proof (stress_entries_lookup 0 k _ _ Hk) as He. cbn [app].
      apply (rows_of_unique (stress_entries 0 layers2)
               (mkEntry layer ("Stress Sample " +:+ pretty (0 + k + 1)) true)).
      * rewrite <- (map_map entry_layer _leaflet_id), stress_entries_layers.
        unfold layers2. rewrite stress_layers_ids. apply NoDup_seq.
      * apply list_elem_of_In. eapply list_elem_of_lookup_2, He.
    + eapply Forall_impl; [exact Hc0|]. cbn. intros e He.
      specialize (Hid2 layer ltac:(eapply list_elem_of_lookup_2, Hk)). lia.
  - intros layer Hin. apply list_elem_of_In in Hin. specialize (Hid1 _ Hin). split.
    + unfold L.hasLayer. apply bool_decide_eq_false. intros [x Hx].
      rewrite map_with_first_lookup_ne in Hx.
      * rewrite removeLayers_lookup in Hx.
        rewrite bool_decide_eq_true_2 in Hx; [discriminate|].
        apply list_elem_of_fmap_2, Hin.
      * apply Forall_forall. intros l Hl. specialize (Hid2 _ Hl). lia.
    + rewrite rows_of_app, (rows_of_none c0), (rows_of_none (stress_entries 0 layers2));
        [reflexivity| |].
      * apply Forall_forall. intros e He.
        assert (Hl : entry_layer e ∈ layers2).
        { rewrite <- (stress_entries_layers 0 layers2). apply list_elem_of_fmap_2, He. }
        specialize (Hid2 _ Hl). lia.
      * eapply Forall_impl; [exact Hc0|]. cbn. intros. lia.
Qed.

Lemma reload_replaces_witness :
  length (stressLayersRef (snd (loadStressData env_ok (snd (loadStressData env_ok mounted))))) = 2.
Proof.
  destruct mounted_refs as (base & Hm & Hc & _).
  destruct (reload_replaces urls env_ok env_ok mounted _ _ env_ok_datasets env_ok_datasets Hm Hc
              mounted_stamps_bounded env_ok_answers env_ok_renderable env_ok_answers
              env_ok_renderable)
    as (c1 & c2 & m2 & _ & _ & _ & _ & H & _).
  exact H.
Defined.

(** *** The whole run from the mount *)

Lemma init_map_mount : init_map mount = (Normal tt, mounted).
Proof. reflexivity. Qed.

Lemma mounted_flags : loading mounted = true /\ log mounted = [] /\ stressLayersRef mounted = [].
Proof. repeat split; reflexivity. Qed.

Lemma dataset_lines_no_loading (i : nat) (datasets : list GeoJSON) :
  List.filter is_loading_set (dataset_lines i datasets) = [].
Proof.
  revert i. induction datasets as [|d ds IH]; intros i; [reflexivity|].
  rewrite dataset_lines_cons. cbn [List.filter is_loading_set]. apply IH.
Qed.

Lemma requests_no_loading (paths : list string) :
  List.filter is_loading_set (map Requested paths) = [].
Proof. induction paths as [|u paths IH]; [reflexivity|]. cbn. exact IH. Qed.

Lemma raster_loaded_refs (buffer : ArrayBuffer) (g : GeoRaster) (m : LMap) (control : LControl)
    (w : World) :
  exists mr cr,
    mapRef (raster_loaded buffer g m control w) = Some mr /\
    layerControlRef (raster_loaded buffer g m control w) = Some cr /\
    List.filter is_loading_set (log (raster_loaded buffer g m control w))
    = List.filter is_loading_set (log w).
Proof.
  eexists _, _. split; [reflexivity|]. split; [reflexivity|].
  unfold raster_loaded. cbv zeta. cbn [log]. rewrite !List.filter_app.
  destruct (valid_bounds g); cbn; rewrite app_nil_r; reflexivity.
Qed.

(** C8. On a run from the mount in which the raster and every vector source
    load, the loading flag starts true, [setLoading] is called exactly once,
    with [false], and the view rendered afterwards has no loading banner. *)
Theorem loading_finished_once (env : Environment) (buffer : ArrayBuffer) (g : GeoRaster)
    (datasets : list GeoJSON) :
  raster_decodes env buffer g -> answers env urls datasets -> Forall renderable datasets ->
  let w' := snd (Map_effect env mount) in
  loading mount = true /\
  App mount = El "div" [] [Navbar; banner; Map_view mount] /\
  loading w' = false /\
  List.filter is_loading_set (log w') = [LoadingSet false] /\
  App w' = El "div" [] [Navbar; Map_view w'].
Proof.
  intros Hd Ha Hr. cbv zeta.
  split; [reflexivity|]. split; [reflexivity|].
  destruct mounted_refs as (base & Hm & Hc & _).
  destruct mounted_flags as (_ & Hlog & _).
  unfold Map_effect, bind. rewrite init_map_mount.
  pose proof (loadGeoTIFF_raster_loaded env mounted buffer g _ _ Hd Hm Hc) as Hrun.
  rewrite (loadGeoTIFF_after_raster _ _ _ Hrun).
  destruct (answers_Promise_all _ _ _ Ha) as (rs & P1 & P2).
  destruct (renderable_sublayers 0 _ Hr) as (sss & Hs & _).
  match type of Hrun with _ = (_, ?x) => set (wr := x) in * end.
  destruct (raster_loaded_refs buffer g
              (mkMap {[ 1 := base ]} (View (mkLatLng 0 0) 2))
              [mkEntry base "OpenStreetMap" false] mounted) as (mr & cr & Hmr & Hcr & Hfl).
  fold wr in Hmr, Hcr, Hfl. rewrite Hlog in Hfl. cbn [List.filter] in Hfl.
  unfold loadStressData.
  rewrite (loadStressData_loaded urls env wr rs datasets sss mr cr P1 P2 Hs Hmr Hcr).
  cbn [snd]. unfold stress_loaded. cbv zeta. cbn [loading log].
  split; [reflexivity|]. split.
  - rewrite !List.filter_app, dataset_lines_no_loading, requests_no_loading, Hfl. reflexivity.
  - unfold App. cbn [loading]. reflexivity.
Qed.

Lemma loading_finished_once_witness :
  loading (snd (Map_effect env_ok mount)) = false.
Proof.
  destruct (loading_finished_once env_ok [] _ env_ok_datasets env_ok_decodes env_ok_answers
              env_ok_renderable) as (_ & _ & H & _).
  exact H.
Defined.

(** *** The loader only reads the parsed bodies *)

(** What the two joined [await]s deliver: the parsed bodies, or the reason of
    the first failure. *)
Definition parsed (env : Environment) (paths : list string) : Settled (list GeoJSON) :=
  match Promise_all (map (fetch_result env) paths) with
  | Fulfilled responses => Promise_all (map json responses)
  | Rejected e => Rejected e
  end.

(** The loader from the point where the joined [await]s have delivered
    [r]. *)
Definition after_parsed (paths : list string) (r : Settled (list GeoJSON)) : M unit :=
  try_catch
    (setStatus "Loading stress data..." ;;
     modify (fun w => mkWorld (mapRef w) (layerControlRef w) (stressLayersRef w) (status w)
                              (loading w) (lastId w) (log w ++ map Requested paths)) ;;
     match r with
     | Rejected e => throw e
     | Fulfilled jsonData =>
         do previous <- gets stressLayersRef;
         forEach previous remove_stress_layer ;;
         modify (set_stressLayersRef []) ;;
         forEach jsonData process_dataset ;;
         setStatus "Stress data overlaid successfully" ;;
         setLoading false
     end)
    (fun error =>
       console "error" [Lit "Error loading stress data:"; Lit (message error)] ;;
       setStatus ("Error loading stress data: " +:+ message error)).

Lemma loadStressData_after_parsed (paths : list string) (env : Environment) (w : World) :
  loadStressData_from paths env w = after_parsed paths (parsed env paths) w.
Proof.
  unfold loadStressData_from, after_parsed, parsed.
  cbv beta iota delta [bind try_catch setStatus modify await_all].
  rewrite fetch_each_run. cbv beta iota.
  destruct (Promise_all (map (fetch_result env) paths)) as [rs|e]; [|reflexivity].
  cbv beta iota delta [ret].
  destruct (Promise_all (map json rs)) as [ds|e]; reflexivity.
Qed.


Definition map_promise {A B : Type} (f : A -> B) (p : Promise A) : Promise B :=
  mkPromise (settles_at p)
            (match outcome p with Fulfilled a => Fulfilled (f a) | Rejected e => Rejected e end).

Lemma first_rejection_map {A B : Type} (f : A -> B) (ps : list (Promise A)) :
  first_rejection (map (map_promise f) ps) = first_rejection ps.
Proof.
  induction ps as [|p ps IH]; [reflexivity|]. cbn [map first_rejection]. rewrite IH.
  unfold map_promise at 1 2 3. cbn [outcome settles_at]. destruct (outcome p); reflexivity.
Qed.

Lemma Promise_all_map {A B : Type} (f : A -> B) (ps : list (Promise A)) :
  Promise_all (map (map_promise f) ps)
  = match Promise_all ps with
    | Fulfilled xs => Fulfilled (map f xs)
    | Rejected e => Rejected e
    end.
Proof.
  unfold Promise_all. rewrite first_rejection_map.
  destruct (first_rejection ps) as [[t e]|]; [reflexivity|]. f_equal.
  induction ps as [|p ps IH]; [reflexivity|].
  cbn [map fulfilled_values]. unfold map_promise at 1. cbn [outcome].
  destruct (outcome p); cbn [map]; rewrite IH; reflexivity.
Qed.


(** The environment [env] with every JSON body replaced by its image under
    [f]. *)
Definition with_bodies (f : GeoJSON -> GeoJSON) (env : Environment) : Environment :=
  mkEnvironment
    (fun url => map_promise (fun r => mkResponse (ok r) (statusText r) (arrayBuffer r)
                                                 (map_promise f (json r)))
                            (fetch_result env url))
    (parseGeoraster_result env).

Lemma Forall2_fulfilled_map {A B : Type} (f : A -> B) (ps : list (Promise A)) (xs : list A) :
  Forall2 (fun p x => outcome p = Fulfilled x) ps xs ->
  Forall2 (fun p x => outcome p = Fulfilled x) (map (map_promise f) ps) (map f xs).
Proof.
  induction 1 as [|p x ps xs Hp _ IH]; cbn [map]; constructor; [|exact IH].
  unfold map_promise. cbn [outcome]. rewrite Hp. reflexivity.
Qed.

Lemma fetch_results_map (g : string -> Response -> Response) (fr : string -> Promise Response)
    (paths : list string) (rs : list Response) :
  Forall2 (fun p x => outcome p = Fulfilled x) (map fr paths) rs ->
  exists rs',
    Forall2 (fun p x => outcome p = Fulfilled x)
            (map (fun url => map_promise (g url) (fr url)) paths) rs' /\
    Forall2 (fun r r' => exists url, r' = g url r) rs rs'.
Proof.
  revert rs. induction paths as [|u paths IH]; intros rs H; cbn [map] in *.
  - inversion H; subst. exists []. split; constructor.
  - inversion H as [|p r ps rs0 Hp Hrest]; subst.
    destruct (IH _ Hrest) as (rs' & H1 & H2). exists (g u r :: rs'). split.
    + constructor; [|exact H1]. unfold map_promise. cbn [outcome]. rewrite Hp. reflexivity.
    + constructor; [eauto|exact H2].
Qed.

Lemma fetch_results_map_rejected (g : string -> Response -> Response)
    (fr : string -> Promise Response) (paths : list string) :
  first_rejection (map (fun url => map_promise (g url) (fr url)) paths)
  = first_rejection (map fr paths).
Proof.
  induction paths as [|u paths IH]; [reflexivity|]. cbn [map first_rejection]. rewrite IH.
  unfold map_promise at 1 2 3. cbn [outcome settles_at]. destruct (outcome (fr u)); reflexivity.
Qed.

(** Responses rewritten one by one: the joined fetches fail alike, and
    otherwise deliver the rewritten responses. *)
Lemma parsed_map (g : string -> Response -> Response) (h : GeoJSON -> GeoJSON)
    (env env' : Environment) (paths : list string) :
  (forall url, fetch_result env' url = map_promise (g url) (fetch_result env url)) ->
  (forall url r, json (g url r) = map_promise h (json r)) ->
  parsed env' paths
  = match parsed env paths with
    | Fulfilled ds => Fulfilled (map h ds)
    | Rejected e => Rejected e
    end.
Proof.
  intros Hf Hj. unfold parsed.
  assert (E : map (fetch_result env') paths
              = map (fun url => map_promise (g url) (fetch_result env url)) paths).
  { apply map_ext. exact Hf. }
  rewrite E. clear E.
  destruct (Promise_all (map (fetch_result env) paths)) as [rs|e] eqn:P.
  - apply Promise_all_fulfilled in P.
    destruct (fetch_results_map g _ _ _ P) as (rs' & H1 & H2).
    apply Promise_all_fulfilled in H1. rewrite H1.
    assert (E : map json rs' = map (map_promise h) (map json rs)).
    { clear -H2 Hj. induction H2 as [|r r' rs rs' [url ->] _ IH]; [reflexivity|].
      cbn [map]. rewrite Hj, IH. reflexivity. }
    rewrite E. apply Promise_all_map.
  - unfold Promise_all in *. rewrite fetch_results_map_rejected.
    destruct (first_rejection (map (fetch_result env) paths)) as [[t e0]|]; [|discriminate].
    injection P as ->. reflexivity.
Qed.

(** *** Single features *)

(** The body as the collection of the features the loader counts in it. *)
Definition as_collection (d : GeoJSON) : GeoJSON := FeatureCollection (features_of d).

Lemma process_dataset_as_collection (d : GeoJSON) (i : nat) :
  process_dataset (as_collection d) i = process_dataset d i.
Proof. destruct d; reflexivity. Qed.

Lemma forEach_as_collection (datasets : list GeoJSON) (i : nat) :
  forEach_from i (map as_collection datasets) process_dataset
  = forEach_from i datasets process_dataset.
Proof.
  revert i. induction datasets as [|d ds IH]; intros i; [reflexivity|].
  cbn [map forEach_from]. rewrite process_dataset_as_collection, IH. reflexivity.
Qed.

Lemma loadStressData_as_collection (paths : list string) (env : Environment) (w : World) :
  loadStressData_from paths (with_bodies as_collection env) w
  = loadStressData_from paths env w.
Proof.
  rewrite !loadStressData_after_parsed.
  rewrite (parsed_map (fun _ r => mkResponse (ok r) (statusText r) (arrayBuffer r)
                                             (map_promise as_collection (json r)))
                      as_collection env (with_bodies as_collection env) paths);
    [|reflexivity|reflexivity].
  destruct (parsed env paths) as [ds|e]; [|reflexivity].
  unfold after_parsed, forEach. rewrite forEach_as_collection. reflexivity.
Qed.

(** *** The HTTP status *)



Lemma fulfilled_answers (env : Environment) (paths : list string) (rs : list Response)
    (ds : list GeoJSON) :
  Forall2 (fun p x => outcome p = Fulfilled x) (map (fetch_result env) paths) rs ->
  Forall2 (fun p x => outcome p = Fulfilled x) (map json rs) ds ->
  answers env paths ds.
Proof.
  revert rs ds. induction paths as [|u paths IH]; intros rs ds H1 H2; cbn [map] in *.
  - inversion H1; subst. inversion H2; subst. constructor.
  - inversion H1 as [|p r ps rs0 Hp Hrest]; subst. cbn [map] in H2.
    inversion H2 as [|q d qs ds0 Hq Hrest2]; subst.
    constructor; [eauto|]. eapply IH; eassumption.
Qed.


#[local] Instance numeric_dec (f : Feature) : Decision (numeric f).
Proof.
  unfold numeric. destruct (properties f) as [p|].
  - destruct (value p) as [v|] eqn:E.
    + left. eauto.
    + right. intros (p' & v & [= <-] & H). congruence.
  - right. intros (p' & v & H & _). discriminate.
Defined.





Lemma loadStressData_renderable (paths : list string) (env : Environment) (w : World)
    (m : LMap) (control : LControl) (datasets : list GeoJSON) :
  mapRef w = Some m -> layerControlRef w = Some control ->
  answers env paths datasets -> Forall renderable datasets ->
  exists sss, length sss = length datasets /\
    loadStressData_from paths env w
    = (Normal tt, stress_loaded paths datasets sss m control w).
Proof.
  intros Hm Hc Ha Hr.
  destruct (answers_Promise_all _ _ _ Ha) as (rs & H1 & H2).
  destruct (renderable_sublayers 0 _ Hr) as (sss & Hs & Hl).
  exists sss. split; [exact Hl|].
  eapply loadStressData_loaded; eassumption.
Qed.


Lemma parsed_fulfilled (env : Environment) (paths : list string) (ds : list GeoJSON) :
  parsed env paths = Fulfilled ds -> answers env paths ds.
Proof.
  unfold parsed. destruct (Promise_all (map (fetch_result env) paths)) as [rs|e0] eqn:E1;
    [|discriminate].
  intros E2. apply Promise_all_fulfilled in E1, E2. eapply fulfilled_answers; eassumption.
Qed.

Definition success : string := "Stress data overlaid successfully".





(** *** The two colour rules *)

Lemma leb_nan_l (a b : float) : is_nan a = true -> (a <=? b)%float = false.
Proof.
  intros H. destruct (a <=? b)%float eqn:E; [|reflexivity].
  apply leb_not_nan in E as [E _]. congruence.
Qed.

Lemma stressValue_le_zero (v : float) : (v <=? 0)%float = true -> stressValue v = 0%float.
Proof.
  intros H. rewrite stressValue_eq. destruct (leb_not_nan _ _ H) as [-> _].
  destruct (0 <? v)%float eqn:E; [|reflexivity].
  pose proof (ltb_leb_trans _ _ _ E H) as F. rewrite ltb_irrefl in F. discriminate.
Qed.

Lemma stressValue_ge_one (v : float) : (1 <=? v)%float = true -> stressValue v = 1%float.
Proof.
  intros H. rewrite stressValue_eq. destruct (leb_not_nan _ _ H) as [_ ->].
  assert (Z : (0 <? v)%float = true) by (eapply ltb_leb_trans; [|exact H]; reflexivity).
  rewrite Z. destruct (v <? 1)%float eqn:E; [|reflexivity].
  pose proof (ltb_leb_trans _ _ _ E H) as F. rewrite ltb_irrefl in F. discriminate.
Qed.

(** The threshold test gives the same answer on the clamped value as on the
    raw one. *)
Lemma stressValue_threshold (v : float) :
  (stressValue v <=? lit_0_3)%float = (v <=? lit_0_3)%float.
Proof.
  rewrite stressValue_eq. destruct (is_nan v) eqn:N.
  - rewrite (leb_nan_l v _ N). reflexivity.
  - destruct (0 <? v)%float eqn:Z.
    + destruct (v <? 1)%float eqn:O; [reflexivity|].
      destruct (v <=? lit_0_3)%float eqn:T; [|reflexivity].
      assert (F : (v <? 1)%float = true) by (eapply leb_ltb_trans; [exact T|reflexivity]).
      congruence.
    + assert (L : (v <=? 0)%float = true) by (apply not_ltb_leb; [reflexivity|exact N|exact Z]).
      rewrite (leb_trans v 0 lit_0_3 L eq_refl). reflexivity.
Qed.

(** C1. A feature with stress value [v] is styled with the fill colour
    [hsl(h, 100%, 50%)], where [h] is the clamped value times 120; the
    clamped value is 0 below 0, [v] between 0 and 1, and 1 from 1 on, so it
    lies in [0, 1]; the hue does not decrease when [v] grows; the stroke is
    red when [v <= 0.3] and green otherwise, which is the same test on the
    clamped value; the stroke weight is 0.5 and the fill opacity 0.7. *)
Theorem style_rule (f : Feature) (p : Properties) (v : float) :
  properties f = Some p -> value p = Some v ->
  exists o,
    style f = Normal o /\
    fillColor o = [Lit "hsl("; Num (stressValue v * 120)%float; Lit ", 100%, 50%)"] /\
    color o = (if (v <=? lit_0_3)%float then "red" else "green") /\
    (stressValue v <=? lit_0_3)%float = (v <=? lit_0_3)%float /\
    weight o = 0.5%float /\ fillOpacity o = lit_0_7 /\
    ((v <=? 0)%float = true -> stressValue v = 0%float) /\
    ((0 <? v)%float = true -> (v <? 1)%float = true -> stressValue v = v) /\
    ((1 <=? v)%float = true -> stressValue v = 1%float) /\
    (is_nan v = false ->
     (0 <=? stressValue v)%float = true /\ (stressValue v <=? 1)%float = true) /\
    (forall v', (v <=? v')%float = true ->
                (stressValue v * 120 <=? stressValue v' * 120)%float = true).
Proof.
  intros Hp Hv. unfold style. rewrite Hp, Hv. change (ToNumber (Some v)) with v. cbv zeta.
  assert (R : forall o : PathOptions,
            fillColor o = [Lit "hsl("; Num (hue v); Lit ", 100%, 50%)"] ->
            color o = (if (v <=? lit_0_3)%float then "red" else "green") ->
            weight o = 0.5%float -> fillOpacity o = lit_0_7 ->
            fillColor o = [Lit "hsl("; Num (stressValue v * 120)%float; Lit ", 100%, 50%)"] /\
            color o = (if (v <=? lit_0_3)%float then "red" else "green") /\
            (stressValue v <=? lit_0_3)%float = (v <=? lit_0_3)%float /\
            weight o = 0.5%float /\ fillOpacity o = lit_0_7 /\
            ((v <=? 0)%float = true -> stressValue v = 0%float) /\
            ((0 <? v)%float = true -> (v <? 1)%float = true -> stressValue v = v) /\
            ((1 <=? v)%float = true -> stressValue v = 1%float) /\
            (is_nan v = false ->
             (0 <=? stressValue v)%float = true /\ (stressValue v <=? 1)%float = true) /\
            (forall v', (v <=? v')%float = true ->
                        (stressValue v * 120 <=? stressValue v' * 120)%float = true)).
  { intros o H1 H2 H3 H4. repeat split; try assumption.
    - apply stressValue_threshold.
    - apply stressValue_le_zero.
    - apply stressValue_inside.
    - apply stressValue_ge_one.
    - apply stressValue_range; assumption.
    - apply stressValue_range; assumption.
    - intros v' H. apply (hue_mono v v' H). }
  destruct (v <=? lit_0_3)%float eqn:T; eexists; (split; [reflexivity|]);
    apply R; cbn [fillColor color weight fillOpacity]; try rewrite T; reflexivity.
Qed.

Lemma style_rule_witness :
  exists o, style (sample_feature 0.25) = Normal o /\
            fillColor o = [Lit "hsl("; Num 30%float; Lit ", 100%, 50%)"] /\ color o = "red".
Proof.
  destruct (style_rule (sample_feature 0.25) _ 0.25%float eq_refl eq_refl)
    as (o & H1 & H2 & H3 & _).
  exists o. split; [exact H1|]. split; [exact H2|exact H3].
Defined.

Lemma strict_equal_not_nan (a b : option float) (v : float) :
  a = Some v -> strict_equal a b = true -> is_nan v = false.
Proof.
  intros -> H. destruct b as [y|]; [|discriminate]. cbn [strict_equal] in H.
  rewrite eqb_spec in H. rewrite is_nan_spec.
  destruct (Prim2SF v); try reflexivity. discriminate.
Qed.

(** The colour function on every pixel.  A pixel whose first band is
    absent, or equal to the raster's sentinel, is not drawn.  Any other
    pixel is drawn as [rgba(i, i, i, 0.5)] with
    [i = min(255, max(0, v * 255))]; when [v] is a number, [i] lies in
    [0, 255] and is [v * 255] itself when that lies strictly between the
    two bounds. *)
Lemma pixel_color_rule (georaster : GeoRaster) (values : list (option float)) :
  let value := mjoin (head values) in
  (value = None -> pixelValuesToColorFn georaster values = None) /\
  (strict_equal value (noDataValue georaster) = true ->
   pixelValuesToColorFn georaster values = None) /\
  (forall v, value = Some v -> strict_equal value (noDataValue georaster) = false ->
     pixelValuesToColorFn georaster values
     = Some [Lit "rgba("; Num (intensity v); Lit ", "; Num (intensity v); Lit ", ";
             Num (intensity v); Lit ", 0.5)"] /\
     (is_nan v = false ->
      (0 <=? intensity v)%float = true /\ (intensity v <=? 255)%float = true) /\
     ((0 <? v * 255)%float = true -> (v * 255 <? 255)%float = true ->
      intensity v = (v * 255)%float)).
Proof.
  cbv zeta. unfold pixelValuesToColorFn. cbv zeta. split; [|split].
  - intros ->. rewrite orb_true_r. reflexivity.
  - intros ->. reflexivity.
  - intros v -> ->. cbn [orb]. rewrite bool_decide_eq_false_2 by discriminate.
    split; [reflexivity|]. split; [apply intensity_range|apply intensity_inside].
Qed.

(** C2.  At a first band that is the not-a-number value, with the
    sentinel 0: the value is neither absent nor equal to the sentinel, so
    the pixel is drawn; the clamp of line 72 lets the value through, and the
    colour is [rgba(NaN, NaN, NaN, 0.5)], whose intensity is not a value in
    [0, 255]. *)
Theorem pixel_color_nan :
  let georaster := mkGeoRaster (Some 0%float) None in
  pixelValuesToColorFn georaster [Some nan]
  = Some [Lit "rgba("; Num nan; Lit ", "; Num nan; Lit ", "; Num nan; Lit ", 0.5)"] /\
  strict_equal (Some nan) (noDataValue georaster) = false /\
  (0 <=? intensity nan)%float = false /\ (intensity nan <=? 255)%float = false.
Proof. cbv zeta. repeat split; vm_compute; reflexivity. Qed.

(** * Further properties of the callbacks and the loaders *)

(** ** The colour functions *)

(** The fill hue of a feature with a numeric stress value lies between the
    red hue 0 and the green hue 120. *)
Theorem hue_range (v : float) :
  is_nan v = false -> (0 <=? hue v)%float = true /\ (hue v <=? 120)%float = true.
Proof.
  intros N. destruct (stressValue_range v N) as [L U]. unfold hue. split.
  - change 0%float with (0 * 120)%float at 1.
    apply (mul_const_mono 120 _ _ 8444249301319680 (-46));
      [reflexivity|reflexivity|lia|reflexivity|exact L].
  - change 120%float with (1 * 120)%float at 2.
    apply (mul_const_mono 120 _ _ 8444249301319680 (-46));
      [reflexivity|reflexivity|lia|exact L|exact U].
Qed.

Lemma hue_range_witness :
  (0 <=? hue 0.25)%float = true /\ (hue 0.25 <=? 120)%float = true.
Proof. apply (hue_range 0.25%float). reflexivity. Defined.

Lemma mul_255_neg (v : float) : (v <? 0)%float = true -> (0 <? v * 255)%float = false.
Proof.
  rewrite !ltb_spec, mul_spec, Prim2SF_255, Prim2SF_0.
  pose proof (Prim2SF_valid v) as V.
  destruct (Prim2SF v) as [s|s| |s m e] eqn:E; intros H;
    try (destruct s; discriminate H); try discriminate H.
  - destruct s; [reflexivity|discriminate H].
  - destruct s; [|discriminate H].
    destruct (SFmul_pos_finish m 8972014882652160 e (-45) V eq_refl ltac:(lia))
      as (q & fe & R).
    unfold c255, SF64mul in *. cbn [SFmul xorb] in *.
    rewrite binary_round_aux_sign, R. unfold Binary64.finish.
    repeat match goal with |- context [if ?b then _ else _] => destruct b end; reflexivity.
Qed.

(** The grey level is monotone in the pixel value: a larger value never
    gives a darker grey. *)
Theorem intensity_mono (v1 v2 : float) :
  (v1 <=? v2)%float = true -> (intensity v1 <=? intensity v2)%float = true.
Proof.
  intros H. destruct (leb_not_nan _ _ H) as [N1 N2].
  destruct (0 <=? v1)%float eqn:P.
  - assert (W : (v1 * 255 <=? v2 * 255)%float = true).
    { apply (mul_const_mono 255 _ _ 8972014882652160 (-45));
        [reflexivity|reflexivity|lia|exact P|exact H]. }
    destruct (leb_not_nan _ _ W) as [M1 M2].
    rewrite !intensity_eq. cbv zeta. rewrite N1, N2.
    destruct (0 <? v1 * 255)%float eqn:A1.
    + assert (A2 : (0 <? v2 * 255)%float = true) by (eapply ltb_leb_trans; eassumption).
      rewrite A2. destruct (v1 * 255 <? 255)%float eqn:B1.
      * destruct (v2 * 255 <? 255)%float eqn:B2; [exact W|]. apply ltb_leb, B1.
      * destruct (v2 * 255 <? 255)%float eqn:B2; [|reflexivity].
        pose proof (leb_ltb_trans _ _ _ W B2). congruence.
    + destruct (0 <? v2 * 255)%float eqn:A2; [|reflexivity].
      destruct (v2 * 255 <? 255)%float eqn:B2; [apply ltb_leb, A2|reflexivity].
  - assert (Q : (v1 <? 0)%float = true).
    { destruct (v1 <? 0)%float eqn:Q; [reflexivity|].
      rewrite (not_ltb_leb v1 0 N1 eq_refl Q) in P. discriminate. }
    rewrite (intensity_eq v1). cbv zeta. rewrite N1, (mul_255_neg v1 Q).
    apply intensity_range, N2.
Qed.

Lemma intensity_mono_witness : (intensity 0.25 <=? intensity 0.5)%float = true.
Proof. apply (intensity_mono 0.25%float 0.5%float). reflexivity. Defined.

(** ** What a run writes to the trace *)

(** Between [w] and [w'] the trace grew by events that all satisfy [P]. *)
Definition trace (P : Event -> Prop) (w w' : World) : Prop :=
  exists evs, log w' = log w ++ evs /\ Forall P evs.

Lemma trace_refl (P : Event -> Prop) (w : World) : trace P w w.
Proof. exists []. split; [rewrite app_nil_r; reflexivity|constructor]. Qed.

Lemma trace_trans (P : Event -> Prop) (a b c : World) :
  trace P a b -> trace P b c -> trace P a c.
Proof.
  intros (e1 & L1 & F1) (e2 & L2 & F2). exists (e1 ++ e2). split.
  - rewrite L2, L1, app_assoc. reflexivity.
  - apply Forall_app. split; assumption.
Qed.

Lemma trace_emit (P : Event -> Prop) (e : Event) (w : World) : P e -> trace P w (emit e w).
Proof. intros H. exists [e]. split; [reflexivity|repeat constructor; exact H]. Qed.

Lemma trace_silent (P : Event -> Prop) (w w' : World) : log w' = log w -> trace P w w'.
Proof. intros H. exists []. split; [rewrite app_nil_r; exact H|constructor]. Qed.

Section Trace.

Variable P : Event -> Prop.
Hypothesis P_status : forall s, P (StatusSet s).
Hypothesis P_console : forall method text, P (Console method text).

Lemma trace_setStatus (s : string) : preserves (trace P) (setStatus s).
Proof.
  intros w. unfold setStatus, modify. cbn [snd].
  eapply trace_trans; [|apply trace_emit, P_status]. apply trace_silent. reflexivity.
Qed.

Lemma trace_console (method : string) (text : Template) :
  preserves (trace P) (console method text).
Proof. intros w. apply trace_emit, P_console. Qed.

Lemma trace_with_map (method : string) (f : LMap -> LMap) :
  preserves (trace P) (with_map method f).
Proof.
  intros w. unfold with_map, bind, gets, modify, throw.
  destruct (mapRef w); cbn [snd]; [apply trace_silent; reflexivity|apply trace_refl].
Qed.

Lemma trace_with_control (method : string) (f : LControl -> LControl) :
  preserves (trace P) (with_control method f).
Proof.
  apply preserves_with_control; [apply trace_refl|].
  intros c w. apply trace_silent. reflexivity.
Qed.

Lemma trace_new_layer (c : LayerContent) : preserves (trace P) (new_layer c).
Proof. apply preserves_new_layer. intros w. apply trace_silent. reflexivity. Qed.

Lemma trace_bind {A B : Type} (m : M A) (k : A -> M B) :
  preserves (trace P) m -> (forall a, preserves (trace P) (k a)) ->
  preserves (trace P) (bind m k).
Proof. apply preserves_bind, trace_trans. Qed.

Lemma trace_remove_stress_layer (layer : Layer) (i : nat) :
  preserves (trace P) (remove_stress_layer layer i).
Proof.
  unfold remove_stress_layer.
  apply trace_bind; [apply trace_with_map|intros _; apply trace_with_control].
Qed.

Lemma trace_process_dataset (d : GeoJSON) (i : nat) :
  preserves (trace P) (process_dataset d i).
Proof.
  unfold process_dataset. apply trace_bind; [apply trace_console|intros _].
  apply trace_bind.
  - unfold L_geoJSON. destruct (add_features _ _ _);
      [apply trace_new_layer|apply preserves_throw, trace_refl].
  - intros layer. apply trace_bind.
    + destruct (bool_decide _); [apply trace_with_map|apply preserves_ret, trace_refl].
    + intros _. apply trace_bind; [apply trace_with_control|intros _].
      apply preserves_modify. intros w. apply trace_silent. reflexivity.
Qed.

(** Lines 105-158: the previous overlays removed, the new ones built. *)
Definition replace_overlays (jsonData : list GeoJSON) : M unit :=
  do previous <- gets stressLayersRef;
  forEach previous remove_stress_layer ;;
  modify (set_stressLayersRef []) ;;
  forEach jsonData process_dataset.

Lemma trace_replace_overlays (jsonData : list GeoJSON) :
  preserves (trace P) (replace_overlays jsonData).
Proof.
  unfold replace_overlays.
  apply trace_bind; [apply preserves_gets, trace_refl|intros previous].
  apply trace_bind.
  { apply preserves_forEach_from; [apply trace_refl|apply trace_trans|].
    intros; apply trace_remove_stress_layer. }
  intros _. apply trace_bind.
  { apply preserves_modify. intros w. apply trace_silent. reflexivity. }
  intros _. apply preserves_forEach_from; [apply trace_refl|apply trace_trans|].
  intros; apply trace_process_dataset.
Qed.

(** The error handlers of the two loaders. *)
Lemma trace_handler (label prefix : string) (e : Exception) :
  preserves (trace P)
    (console "error" [Lit label; Lit (message e)] ;; setStatus (prefix +:+ message e)).
Proof. apply trace_bind; [apply trace_console|intros _; apply trace_setStatus]. Qed.

(** Lines 55-88: the raster stage from the answer of its fetch on. *)
Definition raster_from (env : Environment) (promise : Promise Response) : M unit :=
  do response <- await promise;
  if negb (ok response)
  then throw (Error ("Failed to fetch GeoTIFF: " +:+ statusText response))
  else
    do buffer <- await (arrayBuffer response);
    console "log" [Lit "GeoTIFF file loaded, size:"; Lit (pretty (length buffer)); Lit "bytes"] ;;
    setStatus "Parsing GeoTIFF data..." ;;
    do georaster <- await (parseGeoraster_result env buffer);
    console "log" [Lit "GeoRaster parsed:"] ;;
    setStatus "Creating GeoTIFF layer..." ;;
    do layer <- new_layer (GeoRasterLayer georaster lit_0_7 256);
    with_map "addLayer" (fun map => L.addLayer map layer) ;;
    with_control "addOverlay" (fun control => L.addOverlay control layer "GeoTIFF Base Layer") ;;
    console "log" [Lit "Layer added to map"] ;;
    match bounds georaster with
    | Some b =>
        if isValid b then
          with_map "fitBounds" (fun map => mkMap (_layers map) (Fit b)) ;;
          setStatus "GeoTIFF displayed successfully"
        else
          console "warn" [Lit "Invalid bounds, could not zoom map"] ;;
          setStatus "GeoTIFF loaded, but no valid bounds"
    | None =>
        console "warn" [Lit "Invalid bounds, could not zoom map"] ;;
        setStatus "GeoTIFF loaded, but no valid bounds"
    end.

Lemma trace_raster_from (env : Environment) (promise : Promise Response) :
  preserves (trace P) (raster_from env promise).
Proof.
  unfold raster_from.
  apply trace_bind; [apply preserves_await, trace_refl|intros response].
  destruct (negb (ok response)); [apply preserves_throw, trace_refl|].
  apply trace_bind; [apply preserves_await, trace_refl|intros buffer].
  apply trace_bind; [apply trace_console|intros _].
  apply trace_bind; [apply trace_setStatus|intros _].
  apply trace_bind; [apply preserves_await, trace_refl|intros georaster].
  apply trace_bind; [apply trace_console|intros _].
  apply trace_bind; [apply trace_setStatus|intros _].
  apply trace_bind; [apply trace_new_layer|intros layer].
  apply trace_bind; [apply trace_with_map|intros _].
  apply trace_bind; [apply trace_with_control|intros _].
  apply trace_bind; [apply trace_console|intros _].
  destruct (bounds georaster) as [b|]; [destruct (isValid b)|].
  - apply trace_bind; [apply trace_with_map|intros _; apply trace_setStatus].
  - apply trace_bind; [apply trace_console|intros _; apply trace_setStatus].
  - apply trace_bind; [apply trace_console|intros _; apply trace_setStatus].
Qed.

Lemma trace_init_map : preserves (trace P) init_map.
Proof.
  unfold init_map. apply trace_bind; [apply preserves_gets, trace_refl|intros [m|]].
  - apply preserves_ret, trace_refl.
  - apply trace_bind; [apply trace_new_layer|intros baseLayer].
    apply trace_bind; apply preserves_modify || intros _.
    + intros w. apply trace_silent. reflexivity.
    + apply preserves_modify. intros w. apply trace_silent. reflexivity.
Qed.

End Trace.

Lemma loadGeoTIFF_raster_from (env : Environment) (w : World) :
  loadGeoTIFF_raster env w
  = raster_from env (fetch_result env raster_url)
      (emit (Requested raster_url) (emit (StatusSet "Fetching GeoTIFF file...")
                                        (set_status "Fetching GeoTIFF file..." w))).
Proof. reflexivity. Qed.

Lemma loadStressData_replace (paths : list string) (env : Environment) (w : World) :
  loadStressData_from paths env w
  = try_catch
      (do responses <- await_all (map (fetch_result env) paths);
       do jsonData <- await_all (map json responses);
       replace_overlays jsonData ;;
       setStatus success ;;
       setLoading false)
      (fun error =>
         console "error" [Lit "Error loading stress data:"; Lit (message error)] ;;
         setStatus ("Error loading stress data: " +:+ message error))
      (mkWorld (mapRef w) (layerControlRef w) (stressLayersRef w) "Loading stress data..."
               (loading w) (lastId w)
               (log w ++ [StatusSet "Loading stress data..."] ++ map Requested paths)).
Proof.
  unfold loadStressData_from, try_catch.
  unfold bind at 1. unfold setStatus at 1. unfold modify at 1.
  unfold bind at 1. rewrite fetch_each_run. simp_setters.
  rewrite <- app_assoc.
  unfold replace_overlays, success, bind.
  destruct (await_all _ _) as [[responses|e] w1]; [|reflexivity].
  destruct (await_all _ _) as [[jsonData|e] w2]; [|reflexivity].
  unfold gets, modify.
  destruct (forEach _ remove_stress_layer _) as [[[]|e] w3]; [|reflexivity].
  destruct (forEach _ process_dataset _) as [[[]|e] w4]; reflexivity.
Qed.

(** ** How a run ends *)

(** The loading flag is left as it is. *)
Definition keeps_loading (w w' : World) : Prop := loading w' = loading w.

Ltac keeps := unfold keeps_loading; intros; cbn; congruence.

Lemma keeps_bind {A B : Type} (m : M A) (k : A -> M B) :
  preserves keeps_loading m -> (forall a, preserves keeps_loading (k a)) ->
  preserves keeps_loading (bind m k).
Proof. apply preserves_bind. keeps. Qed.

Lemma keeps_setStatus (s : string) : preserves keeps_loading (setStatus s).
Proof. intros w. reflexivity. Qed.

Lemma keeps_console (method : string) (text : Template) :
  preserves keeps_loading (console method text).
Proof. intros w. reflexivity. Qed.

Lemma keeps_with_map (method : string) (f : LMap -> LMap) :
  preserves keeps_loading (with_map method f).
Proof. intros w. unfold with_map, bind, gets, modify, throw. destruct (mapRef w); reflexivity. Qed.

Lemma keeps_with_control (method : string) (f : LControl -> LControl) :
  preserves keeps_loading (with_control method f).
Proof.
  intros w. unfold with_control, bind, gets, modify, throw.
  destruct (layerControlRef w); reflexivity.
Qed.

Lemma keeps_await {A : Type} (p : Promise A) : preserves keeps_loading (await p).
Proof. apply preserves_await. keeps. Qed.

Lemma keeps_await_all {A : Type} (ps : list (Promise A)) :
  preserves keeps_loading (await_all ps).
Proof. apply preserves_await_all. keeps. Qed.

Lemma keeps_replace_overlays (jsonData : list GeoJSON) :
  preserves keeps_loading (replace_overlays jsonData).
Proof.
  unfold replace_overlays.
  apply keeps_bind; [intros w; reflexivity|intros previous].
  apply keeps_bind.
  { apply preserves_forEach_from; [keeps|keeps|].
    intros layer j. apply preserves_remove_stress_layer; keeps. }
  intros _. apply keeps_bind; [intros w; reflexivity|intros _].
  apply preserves_forEach_from; [keeps|keeps|].
  intros d j. apply preserves_process_dataset; keeps.
Qed.

Lemma keeps_raster_from (env : Environment) (promise : Promise Response) :
  preserves keeps_loading (raster_from env promise).
Proof.
  unfold raster_from.
  apply keeps_bind; [apply keeps_await|intros response].
  destruct (negb (ok response)); [intros w; reflexivity|].
  apply keeps_bind; [apply keeps_await|intros buffer].
  apply keeps_bind; [apply keeps_console|intros _].
  apply keeps_bind; [apply keeps_setStatus|intros _].
  apply keeps_bind; [apply keeps_await|intros georaster].
  apply keeps_bind; [apply keeps_console|intros _].
  apply keeps_bind; [apply keeps_setStatus|intros _].
  apply keeps_bind; [intros w; reflexivity|intros layer].
  apply keeps_bind; [apply keeps_with_map|intros _].
  apply keeps_bind; [apply keeps_with_control|intros _].
  apply keeps_bind; [apply keeps_console|intros _].
  destruct (bounds georaster) as [b|]; [destruct (isValid b)|].
  - apply keeps_bind; [apply keeps_with_map|intros _; apply keeps_setStatus].
  - apply keeps_bind; [apply keeps_console|intros _; apply keeps_setStatus].
  - apply keeps_bind; [apply keeps_console|intros _; apply keeps_setStatus].
Qed.

Lemma keeps_init_map : preserves keeps_loading init_map.
Proof.
  intros w. unfold init_map, bind, gets, new_layer, modify, ret, bind.
  destruct (mapRef w); reflexivity.
Qed.

(** An event other than a call of [setLoading]. *)
Definition not_loading_set (e : Event) : Prop := is_loading_set e = false.

Lemma filter_not_loading_set (evs : list Event) :
  Forall not_loading_set evs -> List.filter is_loading_set evs = [].
Proof.
  induction 1 as [|e evs He _ IH]; [reflexivity|].
  cbn [List.filter]. unfold not_loading_set in He. rewrite He. exact IH.
Qed.

(** A program that either completes with the success status set, the flag
    lowered and [setLoading] called once, or throws with the flag as it was
    and [setLoading] not called. *)
Definition settles (m : M unit) : Prop :=
  forall w, exists evs,
    log (snd (m w)) = log w ++ evs /\
    ((fst (m w) = Normal tt /\ status (snd (m w)) = success /\ loading (snd (m w)) = false /\
      List.filter is_loading_set evs = [LoadingSet false]) \/
     ((exists e, fst (m w) = Throw e) /\ loading (snd (m w)) = loading w /\
      List.filter is_loading_set evs = [])).

Lemma settles_bind {A : Type} (m : M A) (k : A -> M unit) :
  preserves keeps_loading m -> preserves (trace not_loading_set) m ->
  (forall a, settles (k a)) -> settles (bind m k).
Proof.
  intros Hk Ht Hs w. specialize (Hk w). specialize (Ht w). unfold bind.
  destruct (m w) as [[a|e] w1]; cbn [snd] in *; destruct Ht as (e1 & L1 & F1).
  - destruct (Hs a w1) as (e2 & L2 & H). exists (e1 ++ e2). split.
    { rewrite L2, L1, app_assoc. reflexivity. }
    rewrite List.filter_app, (filter_not_loading_set _ F1). cbn [app].
    unfold keeps_loading in Hk. rewrite <- Hk. exact H.
  - exists e1. split; [exact L1|]. right. cbn [fst snd].
    split; [eauto|]. split; [exact Hk|apply filter_not_loading_set, F1].
Qed.

Lemma settles_last : settles (setStatus success ;; setLoading false).
Proof.
  intros w. exists [StatusSet success; LoadingSet false]. split.
  - unfold bind, setStatus, setLoading, modify, emit. cbn. rewrite <- app_assoc. reflexivity.
  - left. repeat split.
Qed.

Lemma not_loading_set_status (s : string) : not_loading_set (StatusSet s).
Proof. reflexivity. Qed.

Lemma not_loading_set_console (method : string) (text : Template) :
  not_loading_set (Console method text).
Proof. reflexivity. Qed.

#[local] Hint Resolve not_loading_set_status not_loading_set_console trace_refl : core.

Lemma stress_body_settles (paths : list string) (env : Environment) :
  settles (do responses <- await_all (map (fetch_result env) paths);
           do jsonData <- await_all (map json responses);
           replace_overlays jsonData ;;
           setStatus success ;;
           setLoading false).
Proof.
  apply settles_bind; [apply keeps_await_all|apply preserves_await_all; auto|].
  intros responses.
  apply settles_bind; [apply keeps_await_all|apply preserves_await_all; auto|].
  intros jsonData.
  apply settles_bind; [apply keeps_replace_overlays|apply trace_replace_overlays; auto|].
  intros _. apply settles_last.
Qed.

(** A program that never throws and ends either in the success status, with
    the flag lowered by one call of [setLoading], or in an error status
    made of one of [prefixes] and the failure's message, with the flag as it
    was and [setLoading] not called. *)
Definition ends (prefixes : list string) (m : M unit) : Prop :=
  forall w,
    fst (m w) = Normal tt /\
    exists evs,
      log (snd (m w)) = log w ++ evs /\
      ((status (snd (m w)) = success /\ loading (snd (m w)) = false /\
        List.filter is_loading_set evs = [LoadingSet false]) \/
       ((exists p e, In p prefixes /\ status (snd (m w)) = p +:+ message e) /\
        loading (snd (m w)) = loading w /\ List.filter is_loading_set evs = [])).

Lemma loadStressData_ends (paths : list string) (env : Environment) :
  ends ["Error loading stress data: "] (loadStressData_from paths env).
Proof.
  intros w. split; [apply loadStressData_completes|].
  rewrite loadStressData_replace.
  set (w0 := mkWorld _ _ _ _ _ _ _).
  destruct (stress_body_settles paths env w0) as (evs & L & H).
  unfold try_catch. revert L H.
  generalize (do responses <- await_all (map (fetch_result env) paths);
              do jsonData <- await_all (map json responses);
              replace_overlays jsonData ;; setStatus success ;; setLoading false)%type.
  intros body. destruct (body w0) as [[[]|e] w1]; cbn [fst snd]; subst w0; cbn [log loading];
    intros L H.
  - exists ([StatusSet "Loading stress data..."] ++ map Requested paths ++ evs).
    split; [rewrite L, <- !app_assoc; reflexivity|].
    destruct H as [(_ & S & F & T)|((e & He) & _)]; [|discriminate He].
    left. split; [exact S|]. split; [exact F|].
    cbn [app List.filter is_loading_set]. rewrite List.filter_app.
    rewrite requests_no_loading, T. reflexivity.
  - destruct H as [(He & _)|(_ & F & T)]; [discriminate He|].
    exists ([StatusSet "Loading stress data..."] ++ map Requested paths ++ evs
            ++ [Console "error" [Lit "Error loading stress data:"; Lit (message e)];
                StatusSet ("Error loading stress data: " +:+ message e)]).
    unfold bind, console, setStatus, modify, emit. cbn [snd log status loading set_status].
    split; [rewrite L, <- !app_assoc; reflexivity|].
    right. split; [exists "Error loading stress data: ", e; split; [left|]; reflexivity|].
    split; [exact F|].
    cbn [app List.filter is_loading_set]. rewrite !List.filter_app.
    rewrite requests_no_loading, T. reflexivity.
Qed.

(** However the environment answers and whatever state it starts from, a
    run of the vector loader does not throw and ends in one of two ways:
    with the success status, the loading flag lowered and [setLoading]
    called exactly once, with [false]; or with an error status that carries
    the failure's message, the loading flag as it was and [setLoading] not
    called at all. *)
Theorem stress_load_outcome (paths : list string) (env : Environment) (w : World) :
  let r := loadStressData_from paths env w in
  fst r = Normal tt /\
  exists evs,
    log (snd r) = log w ++ evs /\
    ((status (snd r) = success /\ loading (snd r) = false /\
      List.filter is_loading_set evs = [LoadingSet false]) \/
     ((exists e, status (snd r) = "Error loading stress data: " +:+ message e) /\
      loading (snd r) = loading w /\ List.filter is_loading_set evs = [])).
Proof.
  cbv zeta. destruct (loadStressData_ends paths env w) as (N & evs & L & H).
  split; [exact N|]. exists evs. split; [exact L|].
  destruct H as [H|((p & e & Hp & S) & F & T)]; [left; exact H|right].
  split; [|split; assumption].
  destruct Hp as [<-|[]]. exists e. exact S.
Qed.

Lemma loadGeoTIFF_thrown (env : Environment) (w wr : World) (e : Exception) :
  loadGeoTIFF_raster env w = (Throw e, wr) ->
  loadGeoTIFF env w
  = (Normal tt,
     emit (StatusSet ("Error: " +:+ message e))
          (set_status ("Error: " +:+ message e)
             (emit (Console "error" [Lit "Error loading GeoTIFF:"; Lit (message e)]) wr))).
Proof. intros H. unfold loadGeoTIFF, try_catch, bind. rewrite H. reflexivity. Qed.

Lemma loadGeoTIFF_ends (env : Environment) :
  ends ["Error: "; "Error loading stress data: "] (loadGeoTIFF env).
Proof.
  intros w.
  assert (K : loading (snd (loadGeoTIFF_raster env w)) = loading w).
  { rewrite loadGeoTIFF_raster_from.
    etrans; [apply (keeps_raster_from env (fetch_result env raster_url))|reflexivity]. }
  assert (T : exists e1, log (snd (loadGeoTIFF_raster env w))
                         = log w ++ [StatusSet "Fetching GeoTIFF file..."; Requested raster_url]
                                 ++ e1 /\ Forall not_loading_set e1).
  { rewrite loadGeoTIFF_raster_from.
    destruct (trace_raster_from not_loading_set not_loading_set_status not_loading_set_console
                env (fetch_result env raster_url)
                (emit (Requested raster_url) (emit (StatusSet "Fetching GeoTIFF file...")
                                                  (set_status "Fetching GeoTIFF file..." w))))
      as (e1 & L1 & F1).
    exists e1. split; [|exact F1]. rewrite L1. cbn [log emit set_status].
    rewrite <- !app_assoc. reflexivity. }
  destruct T as (e1 & L1 & F1).
  destruct (loadGeoTIFF_raster env w) as [[[]|e] w1] eqn:E; cbn [snd] in K, L1.
  - rewrite (loadGeoTIFF_after_raster env w w1 E). cbn [fst snd]. split; [reflexivity|].
    destruct (loadStressData_ends urls env w1) as (_ & e2 & L2 & H).
    unfold loadStressData.
    exists ([StatusSet "Fetching GeoTIFF file..."; Requested raster_url] ++ e1 ++ e2).
    split; [rewrite L2, L1, <- !app_assoc; reflexivity|].
    cbn [app List.filter is_loading_set]. rewrite List.filter_app.
    rewrite (filter_not_loading_set _ F1). cbn [app].
    destruct H as [H|((p & e & Hp & S) & F & T)]; [left; exact H|right].
    split; [exists p, e; split; [right; exact Hp|exact S]|].
    split; [rewrite F, K; reflexivity|exact T].
  - rewrite (loadGeoTIFF_thrown env w w1 e E).
    cbn [fst snd log status loading emit set_status]. split; [reflexivity|].
    exists ([StatusSet "Fetching GeoTIFF file..."; Requested raster_url] ++ e1
            ++ [Console "error" [Lit "Error loading GeoTIFF:"; Lit (message e)];
                StatusSet ("Error: " +:+ message e)]).
    split; [rewrite L1, <- !app_assoc; reflexivity|].
    right. split; [exists "Error: ", e; split; [left|]; reflexivity|].
    split; [exact K|].
    cbn [app List.filter is_loading_set]. rewrite List.filter_app.
    rewrite (filter_not_loading_set _ F1). reflexivity.
Qed.

(** The loading banner of the page rendered from [w] is shown. *)
Definition shows_banner (w : World) : Prop := In banner (match App w with
                                                         | El _ _ children => children
                                                         | Txt _ => []
                                                         end).

(** However the environment answers, the effect of a mounted [Map] does not
    throw; it ends with the success status, the loading flag lowered by the
    one call of [setLoading], and a page without the loading banner, or
    with a status made of "Error: " or "Error loading stress data: " and
    the failure's message, [setLoading] never called, and the loading banner
    still on the page. *)
Theorem effect_outcome (env : Environment) :
  let r := Map_effect env mount in
  fst r = Normal tt /\
  ((status (snd r) = success /\ loading (snd r) = false /\
    List.filter is_loading_set (log (snd r)) = [LoadingSet false] /\
    ~ shows_banner (snd r)) \/
   ((exists e, status (snd r) = "Error: " +:+ message e \/
               status (snd r) = "Error loading stress data: " +:+ message e) /\
    loading (snd r) = true /\ List.filter is_loading_set (log (snd r)) = [] /\
    shows_banner (snd r))).
Proof.
  cbv zeta. unfold Map_effect, bind. rewrite init_map_mount.
  destruct (loadGeoTIFF_ends env mounted) as (N & evs & L & H).
  destruct (loadGeoTIFF env mounted) as [c w']. cbn [fst snd] in *.
  split; [exact N|]. rewrite L. change (log mounted) with (@nil Event). cbn [app].
  unfold shows_banner, App.
  destruct H as [(S & F & T)|((p & e & Hp & S) & F & T)]; [left|right].
  - rewrite F. repeat split; try assumption.
    cbn. intros [H|[H|[]]]; [discriminate H|].
    injection H as H. discriminate H.
  - rewrite F. change (loading mounted) with true.
    split; [|repeat split; try assumption; cbn; auto].
    exists e. destruct Hp as [<-|[<-|[]]]; auto.
Qed.

(** ** Requests *)

(** An event other than a request. *)
Definition not_request (e : Event) : Prop := is_request e = false.

Lemma filter_not_request (evs : list Event) :
  Forall not_request evs -> List.filter is_request evs = [].
Proof.
  induction 1 as [|e evs He _ IH]; [reflexivity|].
  cbn [List.filter]. unfold not_request in He. rewrite He. exact IH.
Qed.

Lemma filter_requests (paths : list string) :
  List.filter is_request (map Requested paths) = map Requested paths.
Proof. induction paths as [|u paths IH]; [reflexivity|]. cbn. rewrite IH. reflexivity. Qed.

Lemma not_request_status (s : string) : not_request (StatusSet s).
Proof. reflexivity. Qed.

Lemma not_request_console (method : string) (text : Template) :
  not_request (Console method text).
Proof. reflexivity. Qed.

Lemma stress_requests_from (paths : list string) (env : Environment) (w : World) :
  List.filter is_request (log (snd (loadStressData_from paths env w)))
  = List.filter is_request (log w) ++ map Requested paths.
Proof.
  rewrite loadStressData_replace.
  match goal with |- context [try_catch ?body ?handler ?w0] =>
    assert (T : trace not_request w0 (snd (try_catch body handler w0)))
  end.
  { apply preserves_try_catch; [apply trace_trans| |].
    - apply trace_bind; [apply preserves_await_all, trace_refl|intros responses].
      apply trace_bind; [apply preserves_await_all, trace_refl|intros jsonData].
      apply trace_bind.
      { apply trace_replace_overlays, not_request_console. }
      intros _. apply trace_bind.
      { apply trace_setStatus. apply not_request_status. }
      intros _. intros w1. unfold setLoading, modify. cbn [snd].
      eapply trace_trans; [apply trace_silent|apply trace_emit]; reflexivity.
    - intros e. apply trace_handler; [apply not_request_status|apply not_request_console]. }
  destruct T as (evs & L & F). rewrite L. cbn [log].
  rewrite !List.filter_app, (filter_not_request _ F), filter_requests, app_nil_r.
  reflexivity.
Qed.

(** Whatever the answers are, a run of the vector loader sends exactly one
    request per path, in the order of the list: a fetch that fails does not
    hold back the ones after it, and nothing is requested twice. *)
Theorem stress_requests (paths : list string) (env : Environment) (w : World) :
  exists evs,
    log (snd (loadStressData_from paths env w)) = log w ++ evs /\
    List.filter is_request evs = map Requested paths.
Proof.
  destruct (loadStressData_ends paths env w) as (_ & evs & L & _).
  exists evs. split; [exact L|].
  pose proof (stress_requests_from paths env w) as H.
  rewrite L, List.filter_app in H. apply app_inv_head in H. exact H.
Qed.

(** The raster is requested first; the vector paths are requested after it,
    in order, exactly when the raster stage has completed; when it has
    thrown, the raster's request is the only one of the run. *)
Theorem requests_in_order (env : Environment) (w : World) :
  let requests := List.filter is_request (log (snd (loadGeoTIFF env w))) in
  match fst (loadGeoTIFF_raster env w) with
  | Normal _ =>
      requests = List.filter is_request (log w) ++ Requested raster_url :: map Requested urls
  | Throw _ => requests = List.filter is_request (log w) ++ [Requested raster_url]
  end.
Proof.
  cbv zeta.
  assert (T : exists e1, log (snd (loadGeoTIFF_raster env w))
                         = log w ++ [StatusSet "Fetching GeoTIFF file..."; Requested raster_url]
                                 ++ e1 /\ Forall not_request e1).
  { rewrite loadGeoTIFF_raster_from.
    destruct (trace_raster_from not_request not_request_status not_request_console
                env (fetch_result env raster_url)
                (emit (Requested raster_url) (emit (StatusSet "Fetching GeoTIFF file...")
                                                  (set_status "Fetching GeoTIFF file..." w))))
      as (e1 & L1 & F1).
    exists e1. split; [|exact F1]. rewrite L1. cbn [log emit set_status].
    rewrite <- !app_assoc. reflexivity. }
  destruct T as (e1 & L1 & F1).
  destruct (loadGeoTIFF_raster env w) as [[[]|e] w1] eqn:E; cbn [fst snd] in *.
  - rewrite (loadGeoTIFF_after_raster env w w1 E). cbn [snd]. unfold loadStressData.
    rewrite stress_requests_from, L1, !List.filter_app, (filter_not_request _ F1).
    cbn [List.filter is_request app]. rewrite <- ?app_assoc. reflexivity.
  - rewrite (loadGeoTIFF_thrown env w w1 e E). cbn [snd log emit set_status].
    rewrite <- !app_assoc, L1, !List.filter_app, (filter_not_request _ F1).
    cbn [List.filter is_request app]. rewrite <- ?app_assoc. reflexivity.
Qed.

(** ** Features without a stress value *)

Lemma style_without_value (f : Feature) (p : Properties) :
  properties f = Some p -> value p = None ->
  style f = Normal (mkPathOptions [Lit "hsl("; Num nan; Lit ", 100%, 50%)"] "green"
                                  0.5%float lit_0_7).
Proof. intros Hp Hv. unfold style. rewrite Hp, Hv. reflexivity. Qed.

Lemma add_feature_not_numeric (i : nat) (f : Feature) :
  ~ numeric f ->
  exists e, add_feature style (onEachFeature i) f = Throw e /\ name e = "TypeError".
Proof.
  intros H. unfold add_feature.
  destruct (properties f) as [p|] eqn:Hp.
  - destruct (value p) as [v|] eqn:Hv; [exfalso; apply H; exists p, v; auto|].
    rewrite (style_without_value f p Hp Hv). unfold onEachFeature. rewrite Hp, Hv.
    eexists. split; reflexivity.
  - unfold style. rewrite Hp. eexists. split; reflexivity.
Qed.

(** A feature is turned into a layer exactly when its properties hold a
    numeric value.  Without properties the style callback throws; with
    properties that hold no value the style callback still answers (a green
    stroke and a fill whose hue is not a number), and it is the popup
    callback that throws. *)
Theorem feature_needs_value (i : nat) (f : Feature) :
  ((exists sl, add_feature style (onEachFeature i) f = Normal sl) <-> numeric f) /\
  (properties f = None ->
   style f = Throw (cannot_read "null" "value") /\
   add_feature style (onEachFeature i) f = Throw (cannot_read "null" "value")) /\
  (forall p, properties f = Some p -> value p = None ->
     style f = Normal (mkPathOptions [Lit "hsl("; Num nan; Lit ", 100%, 50%)"] "green"
                                     0.5%float lit_0_7) /\
     onEachFeature i f = Throw (cannot_read "undefined" "toFixed") /\
     add_feature style (onEachFeature i) f = Throw (cannot_read "undefined" "toFixed")).
Proof.
  split; [split|split].
  - intros [sl H]. destruct (numeric_dec f) as [N|N]; [exact N|].
    destruct (add_feature_not_numeric i f N) as (e & He & _). congruence.
  - intros N. destruct (add_feature_numeric i f N) as (o & popup & _ & _ & H). eauto.
  - intros Hp. unfold add_feature, style. rewrite Hp. split; reflexivity.
  - intros p Hp Hv. split; [exact (style_without_value f p Hp Hv)|].
    unfold add_feature. rewrite (style_without_value f p Hp Hv).
    unfold onEachFeature. rewrite Hp, Hv. split; reflexivity.
Qed.

Lemma add_features_not_numeric (i : nat) (fs : list Feature) :
  ~ Forall numeric fs ->
  exists e, add_features style (onEachFeature i) fs = Throw e /\ name e = "TypeError".
Proof.
  induction fs as [|f fs IH]; intros H; [exfalso; apply H; constructor|].
  cbn [add_features]. destruct (numeric_dec f) as [N|N].
  - destruct (add_feature_numeric i f N) as (o & popup & _ & _ & ->).
    destruct IH as (e & -> & He); [|eauto].
    intros F. apply H. constructor; assumption.
  - destruct (add_feature_not_numeric i f N) as (e & -> & He). eauto.
Qed.

(** The walk over the datasets when the one after [good] throws: the
    overlays of [good] are built and registered, the rest is not reached. *)
Lemma process_datasets_thrown (good : list GeoJSON) :
  forall (i : nat) (w : World) (m : LMap) (control : LControl) (sss : list (list SubLayer))
         (bad : GeoJSON) (rest : list GeoJSON) (e : Exception),
  mapRef w = Some m -> layerControlRef w = Some control ->
  sublayers_from i good = Normal sss ->
  add_features style (onEachFeature (i + length good)) (geoJSON_features bad) = Throw e ->
  forEach_from i (good ++ bad :: rest) process_dataset w =
    (Throw e,
     mkWorld (Some (map_with_first i m (stress_layers (lastId w) sss)))
             (Some (control ++ stress_entries i (stress_layers (lastId w) sss)))
             (stressLayersRef w ++ stress_layers (lastId w) sss)
             (status w) (loading w) (lastId w + length sss)
             (log w ++ dataset_lines i (good ++ [bad]))).
Proof.
  induction good as [|d good IH]; intros i w m control sss bad rest e Hm Hc Hs Hb.
  - cbn [sublayers_from] in Hs. injection Hs as <-.
    cbn [length] in Hb. rewrite Nat.add_0_r in Hb.
    cbn [app forEach_from]. unfold bind at 1. unfold process_dataset at 1.
    unfold L_geoJSON. rewrite Hb. run.
    unfold stress_layers, stress_entries, dataset_lines. cbn [imap length].
    replace (map_with_first i m []) with m by (destruct i; reflexivity).
    rewrite !app_nil_r, !Nat.add_0_r. rewrite <- Hm, <- Hc. reflexivity.
  - cbn [sublayers_from] in Hs.
    destruct (add_features style (onEachFeature i) (geoJSON_features d)) as [subs|e0] eqn:Ed;
      [|discriminate].
    destruct (sublayers_from (S i) good) as [sss'|e0] eqn:Er; [|discriminate].
    injection Hs as <-.
    cbn [length] in Hb. replace (i + S (length good)) with (S i + length good) in Hb by lia.
    rewrite stress_layers_cons, stress_entries_cons. cbn [app]. rewrite dataset_lines_cons.
    cbn [forEach_from]. unfold bind at 1. unfold process_dataset at 1.
    unfold L_geoJSON. rewrite Ed. run.
    destruct (bool_decide (i = 0)) eqn:Ei; simp_world; rewrite ?Hm; simp_world;
      rewrite Hc; simp_world.
    + apply bool_decide_eq_true in Ei. subst i.
      erewrite IH; [|reflexivity|reflexivity|exact Er|exact Hb]. simp_world.
      unfold L.addOverlay. rewrite <- !app_assoc. cbn [app length map_with_first].
      replace (lastId w + S (length sss')) with (S (lastId w) + length sss') by lia.
      reflexivity.
    + apply bool_decide_eq_false in Ei.
      erewrite IH; [|reflexivity|reflexivity|exact Er|exact Hb]. simp_world.
      unfold L.addOverlay. rewrite <- !app_assoc. cbn [app length].
      replace (lastId w + S (length sss')) with (S (lastId w) + length sss') by lia.
      destruct i as [|i]; [congruence|]. reflexivity.
Qed.

(** The world after a load whose bodies all parse and whose dataset after
    [good] cannot be rendered. *)
Definition stress_partial (paths : list string) (good : list GeoJSON) (bad : GeoJSON)
    (sss : list (list SubLayer)) (e : Exception) (m : LMap) (control : LControl) (w : World)
  : World :=
  let layers := stress_layers (lastId w) sss in
  mkWorld (Some (map_with_first 0 (foldl L.removeLayer m (stressLayersRef w)) layers))
          (Some (foldl L.control_removeLayer control (stressLayersRef w) ++ stress_entries 0 layers))
          layers ("Error loading stress data: " +:+ message e) (loading w)
          (lastId w + length sss)
          (log w ++ [StatusSet "Loading stress data..."] ++ map Requested paths
                 ++ dataset_lines 0 (good ++ [bad])
                 ++ [Console "error" [Lit "Error loading stress data:"; Lit (message e)];
                     StatusSet ("Error loading stress data: " +:+ message e)]).

Lemma loadStressData_partial (paths : list string) (env : Environment) (w : World)
    (m : LMap) (control : LControl) (good : list GeoJSON) (bad : GeoJSON) (rest : list GeoJSON)
    (sss : list (list SubLayer)) (e : Exception) :
  mapRef w = Some m -> layerControlRef w = Some control ->
  answers env paths (good ++ bad :: rest) ->
  sublayers_from 0 good = Normal sss ->
  add_features style (onEachFeature (length good)) (geoJSON_features bad) = Throw e ->
  loadStressData_from paths env w
  = (Normal tt, stress_partial paths good bad sss e m control w).
Proof.
  intros Hm Hc Ha Hs Hb.
  destruct (answers_Promise_all _ _ _ Ha) as (responses & H1 & H2).
  unfold loadStressData_from.
  unfold try_catch, bind at 1 2. unfold setStatus at 1. unfold modify at 1.
  rewrite fetch_each_run. simp_setters.
  unfold bind at 1. unfold await_all at 1. rewrite H1. unfold ret at 1.
  unfold bind at 1. unfold await_all at 1. rewrite H2. unfold ret at 1.
  unfold bind at 1. unfold gets at 1. simp_world.
  unfold bind at 1. unfold forEach.
  erewrite remove_previous_run; [|simp_world; exact Hm|simp_world; exact Hc].
  simp_world.
  unfold bind at 1. unfold modify at 1. simp_setters.
  unfold bind at 1.
  erewrite process_datasets_thrown; [|reflexivity|reflexivity|exact Hs|exact Hb].
  simp_world.
  run. unfold stress_partial. cbv zeta. cbn [app]. rewrite <- !app_assoc. reflexivity.
Qed.




(** ** The raster layer under the vector loader *)

Lemma first_unrenderable (datasets : list GeoJSON) :
  ~ Forall renderable datasets ->
  exists good bad rest,
    datasets = good ++ bad :: rest /\ Forall renderable good /\ ~ renderable bad.
Proof.
  induction datasets as [|d ds IH]; intros H; [exfalso; apply H; constructor|].
  destruct (decide (Forall numeric (geoJSON_features d))) as [R|R].
  - destruct IH as (good & bad & rest & -> & Hg & Hb).
    { intros F. apply H. constructor; assumption. }
    exists (d :: good), bad, rest. split; [reflexivity|]. split; [|exact Hb].
    constructor; assumption.
  - exists [], d, ds. split; [reflexivity|]. split; [constructor|exact R].
Qed.

(** What a run of the vector loader leaves in the map and the control:
    either what was there, or what was there without the previous overlays
    and with overlays made from fresh stamps. *)
Lemma loadStressData_refs (paths : list string) (env : Environment) (w : World)
    (m : LMap) (control : LControl) :
  mapRef w = Some m -> layerControlRef w = Some control ->
  let w' := snd (loadStressData_from paths env w) in
  (mapRef w' = Some m /\ layerControlRef w' = Some control) \/
  (exists layers,
     Forall (fun layer => lastId w < _leaflet_id layer) layers /\
     mapRef w' = Some (map_with_first 0 (foldl L.removeLayer m (stressLayersRef w)) layers) /\
     layerControlRef w'
     = Some (foldl L.control_removeLayer control (stressLayersRef w)
             ++ stress_entries 0 layers)).
Proof.
  intros Hm Hc. cbv zeta.
  assert (S : forall sss, Forall (fun layer => lastId w < _leaflet_id layer)
                                 (stress_layers (lastId w) sss)).
  { intros sss. eapply Forall_impl; [apply stress_layers_stamps|].
    intros layer H. cbn in H. lia. }
  destruct (parsed env paths) as [ds|e] eqn:E.
  - apply parsed_fulfilled in E. right.
    destruct (decide (Forall renderable ds)) as [R|R].
    + destruct (loadStressData_renderable paths env w m control ds Hm Hc E R)
        as (sss & _ & ->).
      exists (stress_layers (lastId w) sss). split; [apply S|]. split; reflexivity.
    + destruct (first_unrenderable ds R) as (good & bad & rest & -> & Hg & Hb).
      destruct (renderable_sublayers 0 good Hg) as (sss & Hs & _).
      destruct (add_features_not_numeric (length good) (geoJSON_features bad) Hb)
        as (e & He & _).
      rewrite (loadStressData_partial paths env w m control good bad rest sss e Hm Hc E Hs He).
      exists (stress_layers (lastId w) sss). split; [apply S|]. split; reflexivity.
  - left. rewrite loadStressData_after_parsed, E. split; [exact Hm|exact Hc].
Qed.

Lemma control_removeLayer_In (c : LControl) (layer : Layer) (e : ControlEntry) :
  In e c -> _leaflet_id (entry_layer e) <> _leaflet_id layer ->
  In e (L.control_removeLayer c layer).
Proof.
  intros Hin Hne. induction c as [|x c IH]; [destruct Hin|].
  cbn [L.control_removeLayer]. destruct Hin as [->|Hin].
  - rewrite bool_decide_eq_false_2 by exact Hne. left. reflexivity.
  - destruct (bool_decide _); [exact Hin|right; exact (IH Hin)].
Qed.

Lemma control_removeLayers_In (c : LControl) (layers : list Layer) (e : ControlEntry) :
  In e c -> Forall (fun layer => _leaflet_id (entry_layer e) <> _leaflet_id layer) layers ->
  In e (foldl L.control_removeLayer c layers).
Proof.
  revert c. induction layers as [|l ls IH]; intros c Hin Hf; [exact Hin|].
  cbn [foldl]. apply Forall_cons in Hf as [Hl Hf].
  apply IH; [apply control_removeLayer_In; assumption|exact Hf].
Qed.

(** Once the raster stage has put its layer on the map and in the control,
    the layer stays on both until the end of the run, whatever the answers
    to the vector requests are: the vector loader only ever removes the
    overlays of its own list. *)
Theorem raster_layer_stays (env : Environment) (w : World) (m : LMap) (control : LControl)
    (buffer : ArrayBuffer) (g : GeoRaster) :
  raster_decodes env buffer g -> mapRef w = Some m -> layerControlRef w = Some control ->
  Forall (fun layer => _leaflet_id layer <= lastId w) (stressLayersRef w) ->
  let w' := snd (loadGeoTIFF env w) in
  exists layer m' control',
    content layer = GeoRasterLayer g lit_0_7 256 /\
    mapRef w' = Some m' /\ layerControlRef w' = Some control' /\
    L.hasLayer m' layer = true /\
    In (mkEntry layer "GeoTIFF Base Layer" true) control'.
Proof.
  intros Hd Hm Hc Hp. cbv zeta.
  rewrite (loadGeoTIFF_after_raster env w _
             (loadGeoTIFF_raster_loaded env w buffer g m control Hd Hm Hc)).
  cbn [snd]. unfold loadStressData.
  set (layer := raster_layer w g).
  set (wr := raster_loaded buffer g m control w).
  destruct (mapRef wr) as [mr|] eqn:Emr; [|discriminate Emr].
  assert (Hlayer : _layers mr !! _leaflet_id layer = Some layer
                   \/ _layers mr !! _leaflet_id layer = _layers m !! _leaflet_id layer
                      /\ L.hasLayer m layer = true).
  { subst wr. unfold raster_loaded in Emr. cbv zeta in Emr. cbn [mapRef] in Emr.
    fold layer in Emr. injection Emr as <-.
    unfold L.addLayer. destruct (L.hasLayer m layer) eqn:Eh.
    - right. split; [destruct (valid_bounds g); reflexivity|reflexivity].
    - left. destruct (valid_bounds g); cbn [_layers]; apply lookup_insert_eq. }
  assert (Hon : L.hasLayer mr layer = true).
  { unfold L.hasLayer. apply bool_decide_eq_true.
    destruct Hlayer as [->|[-> Hh]]; [eauto|].
    unfold L.hasLayer in Hh. apply bool_decide_eq_true in Hh. exact Hh. }
  assert (Hrow : In (mkEntry layer "GeoTIFF Base Layer" true)
                    (L.addOverlay control layer "GeoTIFF Base Layer")).
  { unfold L.addOverlay. apply in_or_app. right. left. reflexivity. }
  assert (Hprev : Forall (fun l => _leaflet_id layer <> _leaflet_id l) (stressLayersRef wr)).
  { subst wr. unfold raster_loaded. cbv zeta. cbn [stressLayersRef].
    eapply Forall_impl; [exact Hp|]. intros l Hl. cbn in *. lia. }
  destruct (loadStressData_refs urls env wr mr (L.addOverlay control layer "GeoTIFF Base Layer")
              Emr eq_refl) as [[Hm' Hc']|(layers & Hs & Hm' & Hc')].
  - exists layer, mr, (L.addOverlay control layer "GeoTIFF Base Layer").
    repeat split; assumption.
  - eexists layer, _, _. split; [reflexivity|]. split; [exact Hm'|]. split; [exact Hc'|].
    split.
    + unfold L.hasLayer in *. apply bool_decide_eq_true. apply bool_decide_eq_true in Hon.
      rewrite map_with_first_lookup_ne, removeLayers_lookup.
      * rewrite bool_decide_eq_false_2; [exact Hon|].
        intros Hin. apply list_elem_of_fmap in Hin as (l & Hid & Hl).
        rewrite Forall_forall in Hprev. exact (Hprev l Hl Hid).
      * eapply Forall_impl; [exact Hs|]. intros l Hl. subst wr. cbn in *. lia.
    + apply in_or_app. left. apply control_removeLayers_In; [exact Hrow|exact Hprev].
Qed.

Lemma raster_layer_stays_witness :
  exists layer m', mapRef (snd (loadGeoTIFF env_ok mounted)) = Some m' /\
                   L.hasLayer m' layer = true /\
                   content layer = GeoRasterLayer (mkGeoRaster (Some 0%float) (Some sample_bounds))
                                                  lit_0_7 256.
Proof.
  destruct (raster_layer_stays env_ok mounted _ _ [] _ env_ok_decodes eq_refl eq_refl
              (Forall_nil_2 _)) as (layer & m' & control' & H1 & H2 & _ & H4 & _).
  exists layer, m'. split; [exact H2|]. split; [exact H4|exact H1].
Defined.

(** ** Mounting and unmounting *)

(** The cleanup drops the map and nothing else: the control and the list of
    overlays stay in their refs.  Running it again changes nothing.  The
    initialisation that follows builds a new map, centred on (0, 0) at zoom
    2 with the tile layer on it, and a new control whose only row is that
    base layer; the list of overlays is still the one from before the
    cleanup.  A second initialisation changes nothing. *)
Theorem cleanup_then_init (w : World) :
  let w1 := snd (Map_cleanup w) in
  let w2 := snd (init_map w1) in
  let base := mkLayer (S (lastId w)) (TileLayer tile_url) in
  fst (Map_cleanup w) = Normal tt /\
  mapRef w1 = None /\ layerControlRef w1 = layerControlRef w /\
  stressLayersRef w1 = stressLayersRef w /\ log w1 = log w /\
  Map_cleanup w1 = (Normal tt, w1) /\
  mapRef w2 = Some (mkMap {[ S (lastId w) := base ]} (View (mkLatLng 0 0) 2)) /\
  layerControlRef w2 = Some [mkEntry base "OpenStreetMap" false] /\
  stressLayersRef w2 = stressLayersRef w /\
  init_map w2 = (Normal tt, w2).
Proof.
  cbv zeta. unfold Map_cleanup, init_map, bind, gets, modify, ret, new_layer, bind.
  destruct w as [m c s st l n lg]. cbn [mapRef].
  destruct m as [m|]; cbn; repeat split.
Qed.

(** ** The popup *)

(** The popup of a feature with a numeric value shows the value with three
    decimals, the number of the dataset counted from 1, and the unit, or
    "n/a" when the feature has no unit or an empty one. *)
Theorem popup_unit (i : nat) (f : Feature) (p : Properties) (v : float) :
  properties f = Some p -> value p = Some v ->
  exists t,
    onEachFeature i f = Normal t /\
    In (Fixed 3 v) t /\ In (Lit (pretty (i + 1))) t /\
    (unit_ p = None \/ unit_ p = Some "" -> In (Lit "n/a") t) /\
    (forall u, unit_ p = Some u -> u <> "" -> In (Lit u) t).
Proof.
  intros Hp Hv. unfold onEachFeature. rewrite Hp, Hv. eexists. split; [reflexivity|].
  cbn [In]. split; [auto|]. split; [auto 7|]. split.
  - intros [H|H]; unfold unit_or_na; rewrite H; auto.
  - intros u H Hu. unfold unit_or_na. rewrite H.
    destruct (String.eqb u "") eqn:E; [apply String.eqb_eq in E; contradiction|auto].
Qed.

Lemma popup_unit_witness :
  exists t, onEachFeature 1 (sample_feature 0.25) = Normal t /\ In (Lit "index") t.
Proof.
  destruct (popup_unit 1 (sample_feature 0.25) _ 0.25%float eq_refl eq_refl)
    as (t & H & _ & _ & _ & Hu).
  exists t. split; [exact H|]. apply (Hu "index"); [reflexivity|discriminate].
Defined.

(** ** The viewport under the vector loader *)

(** The vector loader never moves the viewport, whatever it is given and
    however it ends: only the raster stage fits the map. *)
Theorem stress_load_keeps_viewport (paths : list string) (env : Environment) (w : World) :
  viewport <$> mapRef (snd (loadStressData_from paths env w)) = viewport <$> mapRef w.
Proof. destruct (loadStressData_extends paths env w) as (H & _). exact H. Qed.

(** ** The statuses of a run *)

Definition is_status (e : Event) : bool :=
  match e with StatusSet _ => true | _ => false end.

Lemma dataset_lines_no_status (i : nat) (datasets : list GeoJSON) :
  List.filter is_status (dataset_lines i datasets) = [].
Proof.
  revert i. induction datasets as [|d ds IH]; intros i; [reflexivity|].
  rewrite dataset_lines_cons. cbn [List.filter is_status]. apply IH.
Qed.

Lemma requests_no_status (paths : list string) :
  List.filter is_status (map Requested paths) = [].
Proof. induction paths as [|u paths IH]; [reflexivity|]. cbn. exact IH. Qed.

(** On a run from the mount in which the raster and every vector source
    load, the status line goes through these texts, in this order, and no
    others. *)
Theorem status_sequence (env : Environment) (buffer : ArrayBuffer) (g : GeoRaster)
    (datasets : list GeoJSON) :
  raster_decodes env buffer g -> answers env urls datasets -> Forall renderable datasets ->
  List.filter is_status (log (snd (Map_effect env mount)))
  = map StatusSet
      ["Fetching GeoTIFF file..."; "Parsing GeoTIFF data..."; "Creating GeoTIFF layer...";
       match valid_bounds g with
       | Some _ => "GeoTIFF displayed successfully"
       | None => "GeoTIFF loaded, but no valid bounds"
       end;
       "Loading stress data..."; "Stress data overlaid successfully"].
Proof.
  intros Hd Ha Hr. unfold Map_effect, bind. rewrite init_map_mount.
  destruct mounted_refs as (base & Hm & Hc & _).
  rewrite (loadGeoTIFF_after_raster env mounted _
             (loadGeoTIFF_raster_loaded env mounted buffer g _ _ Hd Hm Hc)).
  cbn [snd]. unfold loadStressData.
  match goal with |- context [raster_loaded buffer g ?m ?c mounted] =>
    destruct (raster_loaded_refs buffer g m c mounted) as (mr & cr & Hmr & Hcr & _)
  end.
  destruct (loadStressData_renderable urls env _ mr cr datasets Hmr Hcr Ha Hr)
    as (sss & _ & ->).
  cbn [snd]. unfold stress_loaded. cbv zeta. cbn [log].
  rewrite !List.filter_app, dataset_lines_no_status, requests_no_status.
  unfold raster_loaded. cbv zeta. cbn [log]. rewrite !List.filter_app.
  destruct (valid_bounds g); reflexivity.
Qed.

Lemma status_sequence_witness :
  List.filter is_status (log (snd (Map_effect env_ok mount)))
  = map StatusSet
      ["Fetching GeoTIFF file..."; "Parsing GeoTIFF data..."; "Creating GeoTIFF layer...";
       "GeoTIFF displayed successfully"; "Loading stress data...";
       "Stress data overlaid successfully"].
Proof.
  exact (status_sequence env_ok [] _ env_ok_datasets env_ok_decodes env_ok_answers
           env_ok_renderable).
Defined.

(** ** The raster stage without a map *)

Lemma loadGeoTIFF_raster_no_map (env : Environment) (w : World) (buffer : ArrayBuffer)
    (g : GeoRaster) :
  raster_decodes env buffer g -> mapRef w = None ->
  loadGeoTIFF_raster env w
  = (Throw (cannot_read "null" "addLayer"),
     mkWorld None (layerControlRef w) (stressLayersRef w) "Creating GeoTIFF layer..."
             (loading w) (S (lastId w))
             (log w ++ [StatusSet "Fetching GeoTIFF file..."; Requested raster_url;
                        Console "log" [Lit "GeoTIFF file loaded, size:";
                                       Lit (pretty (length buffer)); Lit "bytes"];
                        StatusSet "Parsing GeoTIFF data...";
                        Console "log" [Lit "GeoRaster parsed:"];
                        StatusSet "Creating GeoTIFF layer..."])).
Proof.
  intros (r & Hr & Hok & Hbuf & Hg) Hm.
  unfold loadGeoTIFF_raster. fold raster_url.
  unfold bind at 1. unfold setStatus at 1. unfold modify at 1. simp_setters.
  unfold bind at 1. unfold fetch at 1. unfold bind at 1. unfold modify at 1. simp_setters.
  unfold ret at 1.
  unfold bind at 1. unfold await at 1. rewrite Hr. unfold ret at 1.
  rewrite Hok. cbn [negb].
  unfold bind at 1. unfold await at 1. rewrite Hbuf. unfold ret at 1.
  unfold bind at 1. unfold console at 1. unfold modify at 1. simp_setters.
  unfold bind at 1. unfold setStatus at 1. unfold modify at 1. simp_setters.
  unfold bind at 1. unfold await at 1. rewrite Hg. unfold ret at 1.
  unfold bind at 1. unfold console at 1. unfold modify at 1. simp_setters.
  unfold bind at 1. unfold setStatus at 1. unfold modify at 1. simp_setters.
  unfold bind at 1. unfold new_layer at 1. unfold bind at 1 2. unfold gets at 1.
  unfold modify at 1. unfold ret at 1. simp_setters.
  unfold bind at 1. unfold with_map at 1. unfold bind at 1. unfold gets at 1. simp_world.
  rewrite Hm. unfold throw. rewrite <- !app_assoc. reflexivity.
Qed.

(** When no map is held (the component was unmounted), a raster that is
    fetched and parsed is still turned into a layer, but adding it to the
    map throws: the status reports the TypeError, the control is not
    touched, the vector loader is not entered and the loading flag stays as
    it is. *)
Theorem raster_without_map (env : Environment) (w : World) (buffer : ArrayBuffer)
    (g : GeoRaster) :
  raster_decodes env buffer g -> mapRef w = None ->
  let w' := snd (loadGeoTIFF env w) in
  status w' = "Error: Cannot read properties of null (reading 'addLayer')" /\
  mapRef w' = None /\ layerControlRef w' = layerControlRef w /\
  stressLayersRef w' = stressLayersRef w /\ loading w' = loading w /\
  lastId w' = S (lastId w) /\
  exists evs, log w' = log w ++ evs /\
              List.filter is_request evs = [Requested raster_url] /\
              ~ In (StatusSet "Loading stress data...") evs.
Proof.
  intros Hd Hm. cbv zeta.
  rewrite (loadGeoTIFF_thrown env w _ _ (loadGeoTIFF_raster_no_map env w buffer g Hd Hm)).
  cbn [snd emit set_status status mapRef layerControlRef stressLayersRef loading lastId log].
  repeat (split; [reflexivity|]).
  eexists. split; [rewrite <- !app_assoc; reflexivity|].
  split; [reflexivity|]. cbn [app In]. intuition discriminate.
Qed.

Lemma raster_without_map_witness :
  status (snd (loadGeoTIFF env_ok mount))
  = "Error: Cannot read properties of null (reading 'addLayer')".
Proof. exact (proj1 (raster_without_map env_ok mount [] _ env_ok_decodes eq_refl)). Defined.

(** ** A sentinel that is not a number *)

Lemma eqb_nan_r (v s : float) : is_nan s = true -> (v =? s)%float = false.
Proof.
  rewrite is_nan_spec, eqb_spec. destruct (Prim2SF s); try discriminate. intros _.
  destruct (Prim2SF v) as [[]|[]| |[] ? ?]; reflexivity.
Qed.

(** The sentinel test is [===]: when the raster's no-data value is the
    not-a-number value, no pixel ever equals it, and every pixel whose
    first band is present is drawn, the not-a-number pixels included. *)
Theorem nan_sentinel_never_matches (georaster : GeoRaster) (s v : float)
    (rest : list (option float)) :
  noDataValue georaster = Some s -> is_nan s = true ->
  pixelValuesToColorFn georaster (Some v :: rest)
  = Some [Lit "rgba("; Num (intensity v); Lit ", "; Num (intensity v); Lit ", ";
          Num (intensity v); Lit ", 0.5)"] /\
  (is_nan v = true -> intensity v = nan).
Proof.
  intros Hs Hn. split.
  - unfold pixelValuesToColorFn. cbv zeta. cbn [head mjoin option_join option_bind mbind].
    rewrite Hs. cbn [strict_equal]. rewrite (eqb_nan_r v s Hn). cbn [orb].
    rewrite bool_decide_eq_false_2 by discriminate. reflexivity.
  - intros Hv. rewrite intensity_eq. cbv zeta. rewrite Hv. reflexivity.
Qed.

Lemma nan_sentinel_never_matches_witness :
  pixelValuesToColorFn (mkGeoRaster (Some nan) None) [Some nan]
  = Some [Lit "rgba("; Num (intensity nan); Lit ", "; Num (intensity nan); Lit ", ";
          Num (intensity nan); Lit ", 0.5)"].
Proof.
  exact (proj1 (nan_sentinel_never_matches (mkGeoRaster (Some nan) None) nan nan []
                  eq_refl eq_refl)).
Defined.

(** ** Which failure is reported *)

(** The bodies are only parsed once every fetch has been answered: when a
    fetch is rejected, the message in the status and on the console is that
    of a rejected fetch, whatever the bodies of the other responses are. *)
Theorem fetch_failure_reported (paths : list string) (env : Environment) (w : World)
    (url : string) :
  In url paths -> fetch_fails env url ->
  let w' := snd (loadStressData_from paths env w) in
  exists url' e,
    In url' paths /\ outcome (fetch_result env url') = Rejected e /\
    status w' = "Error loading stress data: " +:+ message e /\
    In (Console "error" [Lit "Error loading stress data:"; Lit (message e)]) (log w').
Proof.
  intros Hu (e0 & He0). cbv zeta.
  destruct (Promise_all_rejected (map (fetch_result env) paths) (fetch_result env url) e0)
    as (e & He & p & Hp & Hpe).
  { apply in_map. exact Hu. }
  { exact He0. }
  apply in_map_iff in Hp as (url' & <- & Hu').
  exists url', e. split; [exact Hu'|]. split; [exact Hpe|].
  rewrite (loadStressData_fetch_rejected paths env w e He). cbn [snd].
  unfold stress_failed. cbn [status log]. split; [reflexivity|].
  apply in_or_app. right. apply in_or_app. right. apply in_or_app. right.
  left. reflexivity.
Qed.

(** Both fetches are rejected; the second one settles first. *)
Definition env_offline : Environment :=
  mkEnvironment
    (fun url => if String.eqb url "/stress_sample.json"
                then mkPromise 5 (Rejected (mkException "TypeError" "Failed to fetch"))
                else mkPromise 2 (Rejected (mkException "TypeError" "Load failed")))
    (fun _ => mkPromise 3 (Rejected (Error "Invalid byte order value."))).

Lemma fetch_failure_reported_witness :
  exists url e,
    In url urls /\ outcome (fetch_result env_offline url) = Rejected e /\
    status (snd (loadStressData_from urls env_offline mounted))
    = "Error loading stress data: " +:+ message e.
Proof.
  destruct (fetch_failure_reported urls env_offline mounted "/stress_sample.json")
    as (url & e & H1 & H2 & H3 & _).
  - left. reflexivity.
  - eexists. reflexivity.
  - exists url, e. repeat split; assumption.
Defined.

(** * The single feature and the status line *)

(** One dataset walked by [jsonData.forEach] when its features can all be
    rendered. *)
Lemma process_dataset_run (d : GeoJSON) (i : nat) (w : World) (m : LMap) (control : LControl)
    (subs : list SubLayer) :
  mapRef w = Some m -> layerControlRef w = Some control ->
  add_features style (onEachFeature i) (geoJSON_features d) = Normal subs ->
  let layer := mkLayer (S (lastId w)) (GeoJSONLayer subs) in
  process_dataset d i w
  = (Normal tt,
     mkWorld (Some (if bool_decide (i = 0) then L.addLayer m layer else m))
             (Some (control ++ [mkEntry layer ("Stress Sample " +:+ pretty (i + 1)) true]))
             (stressLayersRef w ++ [layer]) (status w) (loading w) (S (lastId w))
             (log w ++ [Console "log"
                          [Lit ("Stress Dataset " +:+ pretty (i + 1) +:+ " has "
                                +:+ pretty (length (features_of d)) +:+ " features")]])).
Proof.
  intros Hm Hc Hs. cbv zeta. unfold process_dataset at 1. unfold L_geoJSON. rewrite Hs. run.
  destruct (bool_decide (i = 0)); simp_world; rewrite ?Hm; simp_world; rewrite Hc;
    simp_world; reflexivity.
Qed.

(** C9. A body that is a single feature is taken as the one-element list
    of that feature (line 115).  When the feature carries a numeric value,
    the walk logs one feature, builds a layer that holds exactly that
    feature with the style and the popup the two callbacks give it, adds
    the layer to the map when the dataset is the first one, gives it an
    overlay row named after the dataset and pushes it on the list of
    overlays; and the walk does exactly the same with the collection whose
    only feature is that feature.  With or without a numeric value the two
    walks coincide, and a load whose bodies are replaced by the collections
    of their features does what the load of the bodies does. *)
Theorem single_feature_as_collection (f : Feature) (i : nat) (w : World) (m : LMap)
    (control : LControl) :
  numeric f -> mapRef w = Some m -> layerControlRef w = Some control ->
  exists o popup,
    style f = Normal o /\ onEachFeature i f = Normal popup /\
    features_of (SingleFeature f) = [f] /\
    as_collection (SingleFeature f) = FeatureCollection [f] /\
    let layer := mkLayer (S (lastId w)) (GeoJSONLayer [mkSubLayer f o popup]) in
    let w' :=
      mkWorld (Some (if bool_decide (i = 0) then L.addLayer m layer else m))
              (Some (control ++ [mkEntry layer ("Stress Sample " +:+ pretty (i + 1)) true]))
              (stressLayersRef w ++ [layer]) (status w) (loading w) (S (lastId w))
              (log w ++ [Console "log" [Lit ("Stress Dataset " +:+ pretty (i + 1)
                                              +:+ " has 1 features")]]) in
    process_dataset (SingleFeature f) i w = (Normal tt, w') /\
    process_dataset (FeatureCollection [f]) i w = (Normal tt, w') /\
    (forall j w0, process_dataset (SingleFeature f) j w0
                  = process_dataset (FeatureCollection [f]) j w0) /\
    (forall paths env,
       loadStressData_from paths (with_bodies as_collection env) w
       = loadStressData_from paths env w).
Proof.
  intros Hn Hm Hc.
  destruct (add_feature_numeric i f Hn) as (o & popup & Hs & Hp & Ha).
  exists o, popup. split; [exact Hs|]. split; [exact Hp|]. split; [reflexivity|].
  split; [reflexivity|]. cbv zeta.
  assert (Hsingle : add_features style (onEachFeature i) (geoJSON_features (SingleFeature f))
                    = Normal [mkSubLayer f o popup]).
  { cbn [geoJSON_features add_features]. rewrite Ha. reflexivity. }
  assert (Hcoll : add_features style (onEachFeature i)
                    (geoJSON_features (FeatureCollection [f]))
                  = Normal [mkSubLayer f o popup]).
  { cbn [geoJSON_features add_features]. rewrite Ha. reflexivity. }
  split; [|split; [|split]].
  - rewrite (process_dataset_run (SingleFeature f) i w m control _ Hm Hc Hsingle).
    reflexivity.
  - rewrite (process_dataset_run (FeatureCollection [f]) i w m control _ Hm Hc Hcoll).
    reflexivity.
  - reflexivity.
  - intros paths env. apply loadStressData_as_collection.
Qed.

Lemma single_feature_as_collection_witness :
  exists layer m' control',
    process_dataset (SingleFeature (sample_feature 0.25)) 0 mounted
    = (Normal tt,
       mkWorld (Some m') (Some control') [layer] "Loading map..." true 2
               [Console "log" [Lit "Stress Dataset 1 has 1 features"]]) /\
    L.hasLayer m' layer = true /\
    In (mkEntry layer "Stress Sample 1" true) control'.
Proof.
  destruct (single_feature_as_collection (sample_feature 0.25) 0 mounted _ _
              ltac:(eexists _, _; split; reflexivity) eq_refl eq_refl)
    as (o & popup & _ & _ & _ & _ & H).
  cbv zeta in H. destruct H as [H _]. eexists _, _, _. split; [exact H|]. split.
  - reflexivity.
  - right. left. reflexivity.
Defined.

(** ** The status line of the responses *)







